(** * The Kalshi ingestion pipeline: rate limiter, retrying transport,
      cursor pagination, batching, upsert sink and task lifecycle.

    The development embeds

    - [backend/ingestion_engine/kalshi_http.py]  ([TokenBucket],
      [KalshiHttpClient]),
    - [backend/common/db.py]  (field conversions, the DDL, the batch and
      the single-record upserts and the connection pool),
    - [backend/ingestion_engine/auto_ingest.py]  (the polling passes and the
      start/stop lifecycle),
    - [backend/common/models.py]  ([normalize_price]),
    - [backend/api/main.py]  (the application's lifespan) and
      [backend/api/_ingest_routes.py]  (the two Kalshi routes)

    as functions over an explicit world: the wall clock, the HTTP exchanges
    and the database clock are oracles handed to the program, as is the
    judgement of the driver and the database on the arguments of a
    statement; every side effect (token count, requests sent, sleeps, log
    records, table rows) is a field of the world.  Lifecycle calls are
    split where they suspend.  Python floats are read as the rationals they
    denote, and their arithmetic is exact where the program rounds to
    doubles. *)

From Stdlib Require Import ZArith QArith Qminmax Qpower Lqa Lia List Ascii
  String.
From stdpp Require Import base option gmap strings list pretty.

Set Warnings "-register-all".
#[local] Open Scope string_scope.
#[local] Open Scope list_scope.

(* ===================================================================== *)
(** ** Python values, exceptions and outcomes                             *)
(* ===================================================================== *)

(** A Python [float]: a finite value, an infinity or a NaN. *)
Inductive pyfloat : Type :=
  | FFinite (x : Q)
  | FInf (negative : bool)
  | FNaN.

(** A [decimal.Decimal]: sign, coefficient and exponent, or a special value. *)
Inductive decimal : Type :=
  | DFinite (negative : bool) (coefficient : N) (exponent : Z)
  | DInfinity (negative : bool)
  | DNaN.

(** The values the pipeline handles: what [r.json()] yields, plus the
    [Decimal] and [datetime] objects the conversions build. *)
Inductive PyVal : Type :=
  | PNone
  | PBool (b : bool)
  | PInt (n : Z)
  | PFloat (x : pyfloat)
  | PStr (s : string)
  | PList (xs : list PyVal)
  | PDict (d : gmap string PyVal)
  | PDecimal (d : decimal)
  | PDatetime (iso : string).

(** Truth value of an object, as [if v:] / [not v] / [v or w] test it. *)
Definition truthy (v : PyVal) : bool :=
  match v with
  | PNone => false
  | PBool b => b
  | PInt n => negb (n =? 0)%Z
  | PFloat (FFinite x) => negb (Qeq_bool x 0)
  | PFloat _ => true
  | PStr s => negb (String.eqb s "")
  | PList xs => match xs with [] => false | _ :: _ => true end
  | PDict d => negb (Nat.eqb (size d) 0)
  | PDecimal (DFinite _ c _) => negb (c =? 0)%N
  | PDecimal _ => true
  | PDatetime _ => true
  end.

(** [a or b]. *)
Definition py_or (a b : PyVal) : PyVal := if truthy a then a else b.

(** [v is None]. *)
Definition is_None (v : PyVal) : bool :=
  match v with PNone => true | _ => false end.

(** The exceptions the code tells apart.  [CancelledError] derives from
    [BaseException] only, so [except Exception] lets it through. *)
Inductive exn : Type :=
  | HTTPStatusError (status_code : Z)
  | ConnectError
  | TimeoutException
  | AsyncTimeoutError
  | Exception (cls : string)
  | CancelledError.

Definition is_Exception (e : exn) : bool :=
  match e with CancelledError => false | _ => true end.

(** Outcome of a call: it returns, it raises, or the oracles handed to the
    program (clock readings, scripted HTTP exchanges) ran out while the call
    was still waiting for the next one. *)
Inductive res (A : Type) : Type :=
  | Ret (a : A)
  | Raise (e : exn)
  | Stall.
Arguments Ret {A} a.
Arguments Raise {A} e.
Arguments Stall {A}.

(* ===================================================================== *)
(** ** The world                                                          *)
(* ===================================================================== *)

(** [kalshi_http.TokenBucket]: the four attributes set by [__init__]. *)
Record TokenBucket : Type := mkTokenBucket {
  capacity : Q;
  refill_rate_per_second : Q;
  tokens : Q;
  last_refill : Q
}.

(** One call of [AsyncClient.request(method, url, params=..., headers=...)]. *)
Record Request : Type := mkRequest {
  req_method : string;
  req_url : string;
  req_params : option (gmap string PyVal);
  req_headers : gmap string string
}.

(** Records handed to the [logging] loggers, one constructor per call site. *)
Inductive LogRecord : Type :=
  | WarnTransientHTTP (status_code : Z) (backoff : Q) (attempt max_retries : Z)
  | ErrorHTTP (status_code : Z)
  | WarnNetwork (e : exn) (backoff : Q) (attempt max_retries : Z)
  | ErrorNetwork (e : exn)
  | InfoFlushed (resource : string) (flushed : Z)
  | InfoIngested (resource : string) (total : Z)
  | ExceptionCreatingTables (e : exn)
  | ExceptionInLoop (e : exn)
  | InfoIncremental (min_created_ts : PyVal)
  | InfoNoFilter.

(** A stored row: the columns written by the INSERT, and the two columns the
    table fills by itself ([created_at], [updated_at]: [DEFAULT now()]). *)
Record Row : Type := mkRow {
  row_cols : gmap string PyVal;
  created_at : Q;
  updated_at : Q
}.

Record World : Type := mkWorld {
  rate_limiter : TokenBucket;        (* [client.rate_limiter]                 *)
  clock : list Q;                    (* what [time.time()] returns, in order  *)
  slept : list Q;                    (* arguments of [asyncio.sleep], oldest first *)
  net : list (exn + PyVal);          (* outcomes of the HTTP exchanges to come *)
  sent : list Request;               (* requests issued, oldest first         *)
  logged : list LogRecord;           (* log records, oldest first             *)
  markets : gmap string Row;         (* table [markets], by [ticker]          *)
  events : gmap string Row;          (* table [events], by [event_ticker]     *)
  dbnow : nat -> Q;                  (* [now()] of the n-th transaction       *)
  txn : nat                          (* transactions begun so far             *)
}.

Definition set_rate_limiter (b : TokenBucket) (w : World) : World :=
  mkWorld b (clock w) (slept w) (net w) (sent w) (logged w)
          (markets w) (events w) (dbnow w) (txn w).
Definition set_clock (c : list Q) (w : World) : World :=
  mkWorld (rate_limiter w) c (slept w) (net w) (sent w) (logged w)
          (markets w) (events w) (dbnow w) (txn w).
Definition set_slept (s : list Q) (w : World) : World :=
  mkWorld (rate_limiter w) (clock w) s (net w) (sent w) (logged w)
          (markets w) (events w) (dbnow w) (txn w).
Definition set_net (n : list (exn + PyVal)) (w : World) : World :=
  mkWorld (rate_limiter w) (clock w) (slept w) n (sent w) (logged w)
          (markets w) (events w) (dbnow w) (txn w).
Definition set_sent (s : list Request) (w : World) : World :=
  mkWorld (rate_limiter w) (clock w) (slept w) (net w) s (logged w)
          (markets w) (events w) (dbnow w) (txn w).
Definition set_logged (l : list LogRecord) (w : World) : World :=
  mkWorld (rate_limiter w) (clock w) (slept w) (net w) (sent w) l
          (markets w) (events w) (dbnow w) (txn w).
Definition set_markets (m : gmap string Row) (w : World) : World :=
  mkWorld (rate_limiter w) (clock w) (slept w) (net w) (sent w) (logged w)
          m (events w) (dbnow w) (txn w).
Definition set_events (m : gmap string Row) (w : World) : World :=
  mkWorld (rate_limiter w) (clock w) (slept w) (net w) (sent w) (logged w)
          (markets w) m (dbnow w) (txn w).
Definition set_txn (n : nat) (w : World) : World :=
  mkWorld (rate_limiter w) (clock w) (slept w) (net w) (sent w) (logged w)
          (markets w) (events w) (dbnow w) n.

(** Computations: state passing with an outcome.  A raise keeps the state
    reached so far, as Python keeps the side effects already done. *)
Definition M (A : Type) : Type := World -> res A * World.

Definition ret {A} (a : A) : M A := fun w => (Ret a, w).
Definition raise {A} (e : exn) : M A := fun w => (Raise e, w).
Definition bind {A B} (c : M A) (k : A -> M B) : M B := fun w =>
  match c w with
  | (Ret a, w') => k a w'
  | (Raise e, w') => (Raise e, w')
  | (Stall, w') => (Stall, w')
  end.

Declare Scope py_scope.
Delimit Scope py_scope with py.
Notation "'let!' x ':=' c 'in' k" := (bind c (fun x => k))
  (at level 10, x name, c at level 100, k at level 200) : py_scope.
Notation "'do!' c 'in' k" := (bind c (fun _ => k))
  (at level 10, c at level 100, k at level 200) : py_scope.
#[local] Open Scope py_scope.

(** [try: c  except <classes matched by handler>: ...]. *)
Definition try_except {A} (c : M A) (handler : exn -> option (M A)) : M A :=
  fun w =>
    match c w with
    | (Raise e, w') =>
        match handler e with
        | Some h => h w'
        | None => (Raise e, w')
        end
    | r => r
    end.

(** [time.time()]: the next reading of the clock. *)
Definition time_time : M Q := fun w =>
  match clock w with
  | [] => (Stall, w)
  | t :: rest => (Ret t, set_clock rest w)
  end.

(** [await asyncio.sleep(d)]. *)
Definition asyncio_sleep (d : Q) : M unit := fun w =>
  (Ret tt, set_slept (slept w ++ [d]) w).

(** [logger.info / warning / error / exception]. *)
Definition log (r : LogRecord) : M unit := fun w =>
  (Ret tt, set_logged (logged w ++ [r]) w).

(* ===================================================================== *)
(** ** kalshi_http.py: TokenBucket                                        *)
(* ===================================================================== *)

(** [TokenBucket.__init__(capacity, refill_rate_per_second)]; [now] is the
    reading [time.time()] gives it.  No argument is checked. *)
Definition TokenBucket_init (capacity refill_rate_per_second now : Q)
  : TokenBucket :=
  {| capacity := capacity;
     refill_rate_per_second := refill_rate_per_second;
     tokens := capacity;
     last_refill := now |}.

(** Body of [TokenBucket._refill] once [now = time.time()] is read.  The
    difference, the product and the sum are the exact ones, where the
    program rounds each to a double. *)
Definition refill_at (self : TokenBucket) (now : Q) : TokenBucket :=
  let elapsed := (now - last_refill self)%Q in
  {| capacity := capacity self;
     refill_rate_per_second := refill_rate_per_second self;
     tokens := Qmin (capacity self)
                    (tokens self + elapsed * refill_rate_per_second self)%Q;
     last_refill := now |}.

(** [TokenBucket._refill(self)]. *)
Definition _refill : M unit :=
  let! now := time_time in
  fun w => (Ret tt, set_rate_limiter (refill_at (rate_limiter w) now) w).

(** [self.tokens -= n]. *)
Definition deduct (self : TokenBucket) (n : Q) : TokenBucket :=
  {| capacity := capacity self;
     refill_rate_per_second := refill_rate_per_second self;
     tokens := (tokens self - n)%Q;
     last_refill := last_refill self |}.

(** The [while True] loop of [TokenBucket.acquire]; every turn reads the
    clock once, so [fuel] turns are enough when [fuel] exceeds the number of
    readings left.  The test, the deduction and the wait are computed on
    the exact count of [refill_at]. *)
Fixpoint acquire_loop (fuel : nat) (n : Q) : M unit :=
  match fuel with
  | O => fun w => (Stall, w)
  | S fuel' =>
      do! _refill in
      fun w =>
        let self := rate_limiter w in
        if Qle_bool n (tokens self) then
          (Ret tt, set_rate_limiter (deduct self n) w)
        else if Qeq_bool (refill_rate_per_second self) 0 then
          (* [(tokens - self.tokens) / self.refill_rate_per_second] *)
          (Raise (Exception "ZeroDivisionError"), w)
        else
          let wait_time := ((n - tokens self) / refill_rate_per_second self)%Q in
          (do! asyncio_sleep (Qmin wait_time (1 # 10)) in acquire_loop fuel' n) w
  end.

(** [TokenBucket.acquire(self, tokens=n)]. *)
Definition acquire (n : Q) : M unit := fun w =>
  acquire_loop (S (length (clock w))) n w.

(* ===================================================================== *)
(** ** kalshi_http.py: KalshiHttpClient                                   *)
(* ===================================================================== *)

(** The attributes of a client that the requests read.  [rate_limiter] lives
    in the world, since [acquire] mutates it. *)
Record KalshiHttpClient : Type := mkClient {
  base_url : string;
  api_key : option string
}.

(** [KalshiHttpClient.__init__]: the bucket built from the per-minute budget,
    [TokenBucket(capacity=rpm, refill_rate_per_second=rpm / 60.0)]. *)
Definition client_rate_limiter (rate_limit_per_minute : Z) (now : Q)
  : TokenBucket :=
  TokenBucket_init (inject_Z rate_limit_per_minute)
                   (inject_Z rate_limit_per_minute / 60)%Q now.

(** [KalshiHttpClient._headers]. *)
Definition _headers (self : KalshiHttpClient) : gmap string string :=
  let headers : gmap string string := {[ "Accept" := "application/json" ]} in
  match api_key self with
  | Some k =>
      if negb (String.eqb k "")
      then <[ "Authorization" := "Bearer " +:+ k ]> headers
      else headers
  | None => headers
  end.

(** [r = await self._client.request(...); r.raise_for_status(); r.json()]:
    the next scripted exchange, either the parsed body or the exception one
    of the three calls raises. *)
Definition client_request (req : Request) : M PyVal := fun w =>
  match net w with
  | [] => (Stall, w)
  | o :: rest =>
      let w' := set_sent (sent w ++ [req]) (set_net rest w) in
      match o with
      | inl e => (Raise e, w')
      | inr body => (Ret body, w')
      end
  end.

(** [range(n)]. *)
Definition range (n : Z) : list Z := map Z.of_nat (seq 0 (Z.to_nat n)).

(** [status_code in (429, 502, 503, 504)]. *)
Definition transient_status (status_code : Z) : bool :=
  bool_decide (status_code ∈ [429; 502; 503; 504]%Z).

(** The [for attempt in range(max_retries)] loop of [_request_with_retry],
    over the attempts still to run.  Falling off the loop ends the function
    without a [return], which yields [None]. *)
Fixpoint retry_loop (self : KalshiHttpClient) (method url : string)
    (params : option (gmap string PyVal)) (max_retries : Z) (base_backoff : Q)
    (attempts : list Z) : M PyVal :=
  match attempts with
  | [] => ret PNone
  | attempt :: rest =>
      let continue :=
        retry_loop self method url params max_retries base_backoff rest in
      try_except
        (client_request (mkRequest method url params (_headers self)))
        (fun e =>
           match e with
           | HTTPStatusError status_code =>
               Some (
                 if transient_status status_code then
                   if (attempt <? max_retries - 1)%Z then
                     let backoff := (base_backoff * 2 ^ attempt)%Q in
                     do! log (WarnTransientHTTP status_code backoff
                                                (attempt + 1) max_retries) in
                     do! asyncio_sleep backoff in
                     continue
                   else
                     do! log (ErrorHTTP status_code) in raise e
                 else
                   do! log (ErrorHTTP status_code) in raise e)
           | ConnectError | TimeoutException | AsyncTimeoutError =>
               Some (
                 if (attempt <? max_retries - 1)%Z then
                   let backoff := (base_backoff * 2 ^ attempt)%Q in
                   do! log (WarnNetwork e backoff (attempt + 1) max_retries) in
                   do! asyncio_sleep backoff in
                   continue
                 else
                   do! log (ErrorNetwork e) in raise e)
           | _ => None
           end)
  end.

(** [KalshiHttpClient._request_with_retry(method, url, params, max_retries,
    base_backoff)]. *)
Definition _request_with_retry (self : KalshiHttpClient) (method url : string)
    (params : option (gmap string PyVal)) (max_retries : Z) (base_backoff : Q)
  : M PyVal :=
  do! acquire 1 in
  retry_loop self method url params max_retries base_backoff (range max_retries).

(** Defaults of [_request_with_retry]'s keyword arguments. *)
Definition default_max_retries : Z := 3.
Definition default_base_backoff : Q := 1.

(** [KalshiHttpClient.get_markets(limit, cursor, mve_filter, min_created_ts)]. *)
Definition get_markets (self : KalshiHttpClient)
    (limit cursor mve_filter min_created_ts : PyVal) : M PyVal :=
  let url := base_url self +:+ "/markets" in
  let params : gmap string PyVal :=
    <[ "mve_filter" := mve_filter ]> {[ "limit" := limit ]} in
  let params :=
    if truthy cursor then <[ "cursor" := cursor ]> params else params in
  let params :=
    if truthy min_created_ts
    then <[ "min_created_ts" := min_created_ts ]> params else params in
  _request_with_retry self "GET" url (Some params)
                      default_max_retries default_base_backoff.

(** [KalshiHttpClient.get_events(limit, cursor)]. *)
Definition get_events (self : KalshiHttpClient) (limit cursor : PyVal)
  : M PyVal :=
  let url := base_url self +:+ "/events" in
  let params : gmap string PyVal := {[ "limit" := limit ]} in
  let params :=
    if truthy cursor then <[ "cursor" := cursor ]> params else params in
  _request_with_retry self "GET" url (Some params)
                      default_max_retries default_base_backoff.

(** Defaults of the page size: [limit=1000] for markets, [limit=200] for
    events. *)
Definition default_markets_limit : PyVal := PInt 1000.
Definition default_events_limit : PyVal := PInt 200.

(* ===================================================================== *)
(** ** db.py: field conversions                                           *)
(* ===================================================================== *)

(** The library calls the conversions and the statements rely on.  Each of
    the first seven either returns or raises an exception derived from
    [Exception], given by its class name.  The last one is the judgement of
    asyncpg and PostgreSQL on the arguments of an upsert,
    [conn.execute(query, *values)] for the statement
    [INSERT INTO t (col_names) VALUES (...) ON CONFLICT (key) ...]: whether
    every argument is of a Python type the driver encodes for the type of
    its column, lies in the range of that type, and is text the server reads
    as a value of it (JSON text for a JSONB column).  What it refuses makes
    the call raise. *)
Class PyRuntime : Type := {
  builtin_int : PyVal -> string + PyVal;            (* [int(v)]                     *)
  builtin_float : PyVal -> string + PyVal;          (* [float(v)]                   *)
  builtin_str : PyVal -> string + string;           (* [str(v)]                     *)
  Decimal : string -> string + PyVal;               (* [Decimal(s)]                 *)
  fromtimestamp : PyVal -> string + PyVal;          (* [datetime.fromtimestamp(v)]  *)
  fromisoformat : string -> string + PyVal;         (* [datetime.fromisoformat(s)]  *)
  json_dumps : PyVal -> string + string;            (* [json.dumps(v)]              *)
  execute_accepts : string -> list string -> list PyVal -> bool
}.

(** Outcome of a library call. *)
Definition call {A} (r : string + A) : res A :=
  match r with
  | inl cls => Raise (Exception cls)
  | inr a => Ret a
  end.

Definition res_bind {A B} (c : res A) (k : A -> res B) : res B :=
  match c with
  | Ret a => k a
  | Raise e => Raise e
  | Stall => Stall
  end.

Notation "'let?' x ':=' c 'in' k" := (res_bind c (fun x => k))
  (at level 10, x name, c at level 100, k at level 200) : py_scope.

(** [try: c  except Exception: h], for code that touches no state. *)
Definition try_except_Exception {A} (c : res A) (h : res A) : res A :=
  match c with
  | Raise e => if is_Exception e then h else Raise e
  | r => r
  end.

Fixpoint res_mapM {A B} (f : A -> res B) (l : list A) : res (list B) :=
  match l with
  | [] => Ret []
  | a :: l' =>
      let? b := f a in
      let? bs := res_mapM f l' in
      Ret (b :: bs)
  end.

(** [d.get(k)]; on an object that is no dict the attribute lookup fails. *)
Definition dict_get (d : PyVal) (k : string) : res PyVal :=
  match d with
  | PDict m => Ret (default PNone (m !! k))
  | _ => Raise (Exception "AttributeError")
  end.

(** [s.endswith("Z")] and [s[:-1]]. *)
Definition endswith_Z (s : string) : bool :=
  match String.length s with
  | O => false
  | S n => String.eqb (substring n 1 s) "Z"
  end.
Definition drop_last (s : string) : string :=
  substring 0 (String.length s - 1) s.

Section Db.
Context `{PyRuntime}.

(** [_serialize_jsonb(val)]. *)
Definition _serialize_jsonb (val : PyVal) : res PyVal :=
  match val with
  | PNone => Ret PNone
  | PStr _ => Ret val
  | _ => let? s := call (json_dumps val) in Ret (PStr s)
  end.

(** [_as_int(v)]. *)
Definition _as_int (v : PyVal) : res PyVal :=
  if is_None v then Ret PNone
  else
    try_except_Exception
      (call (builtin_int v))
      (try_except_Exception
         (let? f := call (builtin_float v) in call (builtin_int f))
         (Ret PNone)).

(** [_as_decimal(v)]. *)
Definition _as_decimal (v : PyVal) : res PyVal :=
  if is_None v then Ret PNone
  else
    try_except_Exception
      (let? s := call (builtin_str v) in call (Decimal s))
      (Ret PNone).

(** [isinstance(v, (int, float))]; [bool] is a subclass of [int]. *)
Definition is_int_or_float (v : PyVal) : bool :=
  match v with
  | PBool _ | PInt _ | PFloat _ => true
  | _ => false
  end.

(** [hasattr(v, "tzinfo")]. *)
Definition has_tzinfo (v : PyVal) : bool :=
  match v with
  | PDatetime _ => true
  | _ => false
  end.

(** [_as_datetime(v)]. *)
Definition _as_datetime (v : PyVal) : res PyVal :=
  if is_None v then Ret PNone
  else if is_int_or_float v then
    try_except_Exception (call (fromtimestamp v)) (Ret PNone)
  else if has_tzinfo v then Ret v
  else
    try_except_Exception
      (let? s := call (builtin_str v) in
       let s := if endswith_Z s then drop_last s +:+ "+00:00" else s in
       call (fromisoformat s))
      (Ret PNone).

(* =================================================================== *)
(** ** db.py: the batch upserts                                         *)
(* =================================================================== *)

(** How an entry of the [rec = {...}] literal is computed from [raw]: the
    identity key read before, [raw.get(col)] as it is, or one of the
    conversions applied to [raw.get(col)]. *)
Inductive conversion : Type := Key | Plain | AsInt | AsDecimal | AsDatetime.

(** The [rec] literal of [batch_upsert_markets], entry by entry. *)
Definition market_fields : list (string * conversion) :=
  [
    ("ticker", Key); ("event_ticker", Plain); ("market_type", Plain);
    ("title", Plain); ("subtitle", Plain); ("yes_sub_title", Plain);
    ("no_sub_title", Plain); ("created_time", AsDatetime);
    ("open_time", AsDatetime); ("close_time", AsDatetime);
    ("expiration_time", AsDatetime); ("latest_expiration_time", AsDatetime);
    ("expected_expiration_time", AsDatetime);
    ("settlement_timer_seconds", AsInt); ("status", Plain);
    ("response_price_units", Plain); ("yes_bid", AsInt);
    ("yes_bid_dollars", AsDecimal); ("yes_ask", AsInt);
    ("yes_ask_dollars", AsDecimal); ("no_bid", AsInt);
    ("no_bid_dollars", AsDecimal); ("no_ask", AsInt);
    ("no_ask_dollars", AsDecimal); ("last_price", AsInt);
    ("last_price_dollars", AsDecimal); ("volume", AsInt);
    ("volume_24h", AsInt); ("result", Plain); ("can_close_early", Plain);
    ("open_interest", AsInt); ("notional_value", AsInt);
    ("notional_value_dollars", AsDecimal); ("previous_yes_bid", AsInt);
    ("previous_yes_bid_dollars", AsDecimal); ("previous_yes_ask", AsInt);
    ("previous_yes_ask_dollars", AsDecimal); ("previous_price", AsInt);
    ("previous_price_dollars", AsDecimal); ("liquidity", AsInt);
    ("liquidity_dollars", AsDecimal); ("expiration_value", Plain);
    ("category", Plain); ("risk_limit_cents", AsInt); ("tick_size", AsInt);
    ("rules_primary", Plain); ("rules_secondary", Plain);
    ("price_level_structure", Plain); ("price_ranges", Plain);
    ("settlement_value", AsInt); ("settlement_value_dollars", AsDecimal);
    ("fee_waiver_expiration_time", AsDatetime);
    ("early_close_condition", Plain); ("strike_type", Plain);
    ("floor_strike", AsDecimal); ("cap_strike", AsDecimal);
    ("functional_strike", Plain); ("custom_strike", Plain);
    ("mve_collection_ticker", Plain); ("mve_selected_legs", Plain);
    ("primary_participant_key", Plain)
  ].

(** [col_names] of [batch_upsert_markets]. *)
Definition market_col_names : list string :=
  [
    "ticker"; "event_ticker"; "market_type"; "title"; "subtitle";
    "yes_sub_title"; "no_sub_title"; "created_time"; "open_time";
    "close_time"; "expiration_time"; "latest_expiration_time";
    "expected_expiration_time"; "settlement_timer_seconds"; "status";
    "response_price_units"; "yes_bid"; "yes_bid_dollars"; "yes_ask";
    "yes_ask_dollars"; "no_bid"; "no_bid_dollars"; "no_ask";
    "no_ask_dollars"; "last_price"; "last_price_dollars"; "volume";
    "volume_24h"; "result"; "can_close_early"; "open_interest";
    "notional_value"; "notional_value_dollars"; "previous_yes_bid";
    "previous_yes_bid_dollars"; "previous_yes_ask";
    "previous_yes_ask_dollars"; "previous_price"; "previous_price_dollars";
    "liquidity"; "liquidity_dollars"; "expiration_value"; "category";
    "risk_limit_cents"; "tick_size"; "rules_primary"; "rules_secondary";
    "price_level_structure"; "price_ranges"; "settlement_value";
    "settlement_value_dollars"; "fee_waiver_expiration_time";
    "early_close_condition"; "strike_type"; "floor_strike"; "cap_strike";
    "functional_strike"; "custom_strike"; "mve_collection_ticker";
    "mve_selected_legs"; "primary_participant_key"
  ].

Definition market_jsonb_cols : list string :=
  [ "price_ranges"; "custom_strike"; "mve_selected_legs" ].

(** The [rec] literal of [batch_upsert_events]. *)
Definition event_fields : list (string * conversion) :=
  [
    ("event_ticker", Key); ("series_ticker", Plain); ("sub_title", Plain);
    ("title", Plain); ("collateral_return_type", Plain);
    ("mutually_exclusive", Plain); ("category", Plain);
    ("available_on_brokers", Plain); ("product_metadata", Plain);
    ("strike_date", AsDatetime); ("strike_period", Plain);
    ("milestones", Plain)
  ].

(** [col_names] of [batch_upsert_events]. *)
Definition event_col_names : list string :=
  [
    "event_ticker"; "series_ticker"; "sub_title"; "title";
    "collateral_return_type"; "mutually_exclusive"; "category";
    "available_on_brokers"; "product_metadata"; "strike_date";
    "strike_period"; "milestones"
  ].

Definition event_jsonb_cols : list string :=
  [ "product_metadata"; "milestones" ].

(** One entry of the literal. *)
Definition project (key_value raw : PyVal) (f : string * conversion)
  : res (string * PyVal) :=
  let col := f.1 in
  match f.2 with
  | Key => Ret (col, key_value)
  | Plain => let? v := dict_get raw col in Ret (col, v)
  | AsInt => let? v := dict_get raw col in let? x := _as_int v in Ret (col, x)
  | AsDecimal =>
      let? v := dict_get raw col in let? x := _as_decimal v in Ret (col, x)
  | AsDatetime =>
      let? v := dict_get raw col in let? x := _as_datetime v in Ret (col, x)
  end.

(** The first loop: [for raw in raws: key = raw.get(...); if not key:
    continue; rec = {...}; records.append(rec)]. *)
Fixpoint build_records (key : string) (fields : list (string * conversion))
    (raws : list PyVal) : res (list (gmap string PyVal)) :=
  match raws with
  | [] => Ret []
  | raw :: rest =>
      let? key_value := dict_get raw key in
      if negb (truthy key_value) then build_records key fields rest
      else
        let? entries := res_mapM (project key_value raw) fields in
        let? records := build_records key fields rest in
        Ret (list_to_map entries :: records)
  end.

(** The arguments of one [conn.execute]: [rec.get(col)] for every column,
    JSONB columns serialized unless [None]. *)
Definition statement_values (jsonb_cols col_names : list string)
    (rec : gmap string PyVal) : res (list PyVal) :=
  res_mapM
    (fun col =>
       let val := default PNone (rec !! col) in
       if bool_decide (col ∈ jsonb_cols) && negb (is_None val)
       then _serialize_jsonb val
       else Ret val)
    col_names.

(** The SET clause: every column of [col_names] but the key; the statement
    adds [updated_at = now()] after them. *)
Definition update_sets (key : string) (col_names : list string)
  : list string :=
  filter (fun col => col ≠ key) col_names.

(** [INSERT INTO t (col_names) VALUES (values) ON CONFLICT (key) DO UPDATE
    SET c = EXCLUDED.c, ..., updated_at = now()] run at transaction time
    [now].  The driver and the server judge the arguments first: a value
    they do not take for its column makes the call raise, and nothing is
    written.  The key column is TEXT and the primary key: whatever else is
    accepted, an argument that is not a [str] is refused there.  A fresh
    key then inserts the row, [created_at] and [updated_at] taking their
    default [now()]; a known key keeps the row and its [created_at],
    overwrites the columns of the SET clause and sets [updated_at]. *)
Definition execute_upsert (key : string) (col_names : list string)
    (values : list PyVal) (now : Q) (table : gmap string Row)
  : res (gmap string Row) :=
  let excluded : gmap string PyVal := list_to_map (zip col_names values) in
  if negb (execute_accepts key col_names values)
  then Raise (Exception "DataError")
  else
    match excluded !! key with
    | Some (PStr k) =>
        match table !! k with
        | None => Ret (<[ k := mkRow excluded now now ]> table)
        | Some old =>
            let cols :=
              foldr (fun col cols =>
                       <[ col := default PNone (excluded !! col) ]> cols)
                    (row_cols old) (update_sets key col_names) in
            Ret (<[ k := mkRow cols (created_at old) now ]> table)
        end
    | _ => Raise (Exception "DataError")
    end.

(** The second loop: [for rec in records: values = [...];
    await conn.execute(query, *values)]. *)
Fixpoint execute_all (key : string) (jsonb_cols col_names : list string)
    (records : list (gmap string PyVal)) (now : Q) (table : gmap string Row)
  : res (gmap string Row) :=
  match records with
  | [] => Ret table
  | rec :: rest =>
      let? values := statement_values jsonb_cols col_names rec in
      let? table' := execute_upsert key col_names values now table in
      execute_all key jsonb_cols col_names rest now table'
  end.

(** [async with conn.transaction(): body]: the statements see one [now()];
    an exception rolls the table back and goes on to the caller. *)
Definition transaction (get : World -> gmap string Row)
    (set : gmap string Row -> World -> World)
    (body : Q -> gmap string Row -> res (gmap string Row)) : M unit :=
  fun w =>
    let now := dbnow w (txn w) in
    let w' := set_txn (S (txn w)) w in
    match body now (get w) with
    | Ret table' => (Ret tt, set table' w')
    | Raise e => (Raise e, w')
    | Stall => (Stall, w')
    end.

(** A computation that touches no state. *)
Definition lift {A} (c : res A) : M A := fun w => (c, w).

(** [len(l)]. *)
Definition len {A} (l : list A) : Z := Z.of_nat (length l).

(** [batch_upsert_markets(raw_markets)]. *)
Definition batch_upsert_markets (raw_markets : list PyVal) : M Z :=
  match raw_markets with
  | [] => ret 0%Z
  | _ =>
      let! records := lift (build_records "ticker" market_fields raw_markets) in
      match records with
      | [] => ret 0%Z
      | _ =>
          do! transaction markets set_markets
                (execute_all "ticker" market_jsonb_cols market_col_names
                             records) in
          ret (len records)
      end
  end.

(** [batch_upsert_events(raw_events)]. *)
Definition batch_upsert_events (raw_events : list PyVal) : M Z :=
  match raw_events with
  | [] => ret 0%Z
  | _ =>
      let! records :=
        lift (build_records "event_ticker" event_fields raw_events) in
      match records with
      | [] => ret 0%Z
      | _ =>
          do! transaction events set_events
                (execute_all "event_ticker" event_jsonb_cols event_col_names
                             records) in
          ret (len records)
      end
  end.

End Db.

(* ===================================================================== *)
(** ** db.py: create_tables                                               *)
(* ===================================================================== *)

(** The column types the DDL uses. *)
Inductive SqlType : Type :=
  | TEXT | TIMESTAMPTZ | INTEGER | BIGINT
  | NUMERIC (precision scale : Z)
  | BOOLEAN | JSONB.

(** A column definition: name, type, [PRIMARY KEY], [DEFAULT now()]. *)
Record Column : Type := mkColumn {
  column_name : string;
  column_type : SqlType;
  primary_key : bool;
  default_now : bool
}.

(** The columns of [CREATE TABLE IF NOT EXISTS markets]. *)
Definition markets_columns : list Column :=
  [
    mkColumn "ticker" TEXT true false;
    mkColumn "event_ticker" TEXT false false;
    mkColumn "market_type" TEXT false false;
    mkColumn "title" TEXT false false;
    mkColumn "subtitle" TEXT false false;
    mkColumn "yes_sub_title" TEXT false false;
    mkColumn "no_sub_title" TEXT false false;
    mkColumn "created_time" TIMESTAMPTZ false false;
    mkColumn "open_time" TIMESTAMPTZ false false;
    mkColumn "close_time" TIMESTAMPTZ false false;
    mkColumn "expiration_time" TIMESTAMPTZ false false;
    mkColumn "latest_expiration_time" TIMESTAMPTZ false false;
    mkColumn "expected_expiration_time" TIMESTAMPTZ false false;
    mkColumn "settlement_timer_seconds" INTEGER false false;
    mkColumn "status" TEXT false false;
    mkColumn "response_price_units" TEXT false false;
    mkColumn "yes_bid" BIGINT false false;
    mkColumn "yes_bid_dollars" (NUMERIC 18 4) false false;
    mkColumn "yes_ask" BIGINT false false;
    mkColumn "yes_ask_dollars" (NUMERIC 18 4) false false;
    mkColumn "no_bid" BIGINT false false;
    mkColumn "no_bid_dollars" (NUMERIC 18 4) false false;
    mkColumn "no_ask" BIGINT false false;
    mkColumn "no_ask_dollars" (NUMERIC 18 4) false false;
    mkColumn "last_price" BIGINT false false;
    mkColumn "last_price_dollars" (NUMERIC 18 4) false false;
    mkColumn "volume" BIGINT false false;
    mkColumn "volume_24h" BIGINT false false;
    mkColumn "result" TEXT false false;
    mkColumn "can_close_early" BOOLEAN false false;
    mkColumn "open_interest" BIGINT false false;
    mkColumn "notional_value" BIGINT false false;
    mkColumn "notional_value_dollars" (NUMERIC 18 4) false false;
    mkColumn "previous_yes_bid" BIGINT false false;
    mkColumn "previous_yes_bid_dollars" (NUMERIC 18 4) false false;
    mkColumn "previous_yes_ask" BIGINT false false;
    mkColumn "previous_yes_ask_dollars" (NUMERIC 18 4) false false;
    mkColumn "previous_price" BIGINT false false;
    mkColumn "previous_price_dollars" (NUMERIC 18 4) false false;
    mkColumn "liquidity" BIGINT false false;
    mkColumn "liquidity_dollars" (NUMERIC 18 4) false false;
    mkColumn "expiration_value" TEXT false false;
    mkColumn "category" TEXT false false;
    mkColumn "risk_limit_cents" BIGINT false false;
    mkColumn "tick_size" BIGINT false false;
    mkColumn "rules_primary" TEXT false false;
    mkColumn "rules_secondary" TEXT false false;
    mkColumn "price_level_structure" TEXT false false;
    mkColumn "price_ranges" JSONB false false;
    mkColumn "settlement_value" BIGINT false false;
    mkColumn "settlement_value_dollars" (NUMERIC 18 4) false false;
    mkColumn "fee_waiver_expiration_time" TIMESTAMPTZ false false;
    mkColumn "early_close_condition" TEXT false false;
    mkColumn "strike_type" TEXT false false;
    mkColumn "floor_strike" (NUMERIC 18 8) false false;
    mkColumn "cap_strike" (NUMERIC 18 8) false false;
    mkColumn "functional_strike" TEXT false false;
    mkColumn "custom_strike" JSONB false false;
    mkColumn "mve_collection_ticker" TEXT false false;
    mkColumn "mve_selected_legs" JSONB false false;
    mkColumn "primary_participant_key" TEXT false false;
    mkColumn "created_at" TIMESTAMPTZ false true;
    mkColumn "updated_at" TIMESTAMPTZ false true
  ].

(** The columns of [CREATE TABLE IF NOT EXISTS events]. *)
Definition events_columns : list Column :=
  [
    mkColumn "event_ticker" TEXT true false;
    mkColumn "series_ticker" TEXT false false;
    mkColumn "sub_title" TEXT false false;
    mkColumn "title" TEXT false false;
    mkColumn "collateral_return_type" TEXT false false;
    mkColumn "mutually_exclusive" BOOLEAN false false;
    mkColumn "category" TEXT false false;
    mkColumn "available_on_brokers" BOOLEAN false false;
    mkColumn "product_metadata" JSONB false false;
    mkColumn "strike_date" TIMESTAMPTZ false false;
    mkColumn "strike_period" TEXT false false;
    mkColumn "milestones" JSONB false false;
    mkColumn "created_at" TIMESTAMPTZ false true;
    mkColumn "updated_at" TIMESTAMPTZ false true
  ].

(** What the DDL reads and writes of a database: the tables with their
    columns, and the indexes, by name, with their table and column. *)
Record Schema : Type := mkSchema {
  schema_tables : gmap string (list Column);
  schema_indexes : gmap string (string * string)
}.

(** [CREATE TABLE IF NOT EXISTS name (cols)]. *)
Definition create_table_if_not_exists (name : string) (cols : list Column)
    (s : Schema) : Schema :=
  match schema_tables s !! name with
  | Some _ => s
  | None => mkSchema (<[ name := cols ]> (schema_tables s)) (schema_indexes s)
  end.

(** [CREATE INDEX IF NOT EXISTS name ON table(col)]: an index of that name
    is left as it is; a new one needs the table and the column. *)
Definition create_index_if_not_exists (name tbl col : string) (s : Schema)
  : res Schema :=
  match schema_indexes s !! name with
  | Some _ => Ret s
  | None =>
      match schema_tables s !! tbl with
      | None => Raise (Exception "UndefinedTableError")
      | Some cols =>
          if bool_decide (col ∈ map column_name cols)
          then Ret (mkSchema (schema_tables s)
                             (<[ name := (tbl, col) ]> (schema_indexes s)))
          else Raise (Exception "UndefinedColumnError")
      end
  end.

(** [create_tables()]: the five statements of the one [conn.execute], in
    order, on a connection that [get_pool()] has given.  They run as one
    transaction: when one raises, the database stays as it was. *)
Definition create_tables (s : Schema) : res Schema :=
  let s := create_table_if_not_exists "markets" markets_columns s in
  let s := create_table_if_not_exists "events" events_columns s in
  let? s :=
    create_index_if_not_exists "idx_markets_event_ticker" "markets"
                               "event_ticker" s in
  let? s := create_index_if_not_exists "idx_markets_status" "markets"
                                       "status" s in
  create_index_if_not_exists "idx_events_series_ticker" "events"
                             "series_ticker" s.

(* ===================================================================== *)
(** ** auto_ingest.py: the polling passes                                 *)
(* ===================================================================== *)

(** [DEFAULT_BATCH_SIZE]. *)
Definition DEFAULT_BATCH_SIZE : Z := 500.

(** The elements [list.extend(v)] appends: those of a list, the characters of
    a string, the keys of a dict (here in key order); other objects are not
    iterable. *)
Definition iterate (v : PyVal) : res (list PyVal) :=
  match v with
  | PList xs => Ret xs
  | PStr s => Ret (map (fun a => PStr (String a "")) (list_ascii_of_string s))
  | PDict d => Ret (map (fun kv => PStr kv.1) (map_to_list d))
  | _ => Raise (Exception "TypeError")
  end.

Section AutoIngest.
Context `{PyRuntime}.

(** The [while True] pagination loop over [/markets]; it returns
    [markets_batch] and [total_markets] as they are at the [break].  Every
    turn that goes on has consumed an HTTP exchange, so [fuel] turns are
    enough when [fuel] exceeds the number of exchanges left. *)
Fixpoint markets_loop (fuel : nat) (client : KalshiHttpClient)
    (min_created_ts : PyVal) (batch_size : Z)
    (cursor : PyVal) (markets_batch : list PyVal) (total_markets : Z)
  : M (list PyVal * Z) :=
  match fuel with
  | O => fun w => (Stall, w)
  | S fuel' =>
      let! res := get_markets client default_markets_limit cursor
                              (PStr "exclude") min_created_ts in
      let! page := lift (dict_get res "markets") in
      let markets := py_or page (PList []) in
      let! items := lift (iterate markets) in
      let markets_batch := markets_batch ++ items in
      let total_markets := (total_markets + len items)%Z in
      let! markets_batch :=
        if (len markets_batch >=? batch_size)%Z then
          let! flushed := batch_upsert_markets markets_batch in
          do! log (InfoFlushed "markets" flushed) in
          ret []
        else ret markets_batch in
      let! cursor := lift (dict_get res "cursor") in
      if negb (truthy cursor) then ret (markets_batch, total_markets)
      else markets_loop fuel' client min_created_ts batch_size
                        cursor markets_batch total_markets
  end.

(** The markets part of one cycle: pagination from [cursor = None], then
    [if markets_batch: flush], then the total is logged. *)
Definition poll_markets (client : KalshiHttpClient) (min_created_ts : PyVal)
    (batch_size : Z) : M unit :=
  fun w =>
    (let! r := markets_loop (S (length (net w))) client min_created_ts
                            batch_size PNone [] 0%Z in
     let markets_batch := r.1 in
     let total_markets := r.2 in
     do! match markets_batch with
         | [] => ret tt
         | _ =>
             let! flushed := batch_upsert_markets markets_batch in
             log (InfoFlushed "markets" flushed)
         end in
     log (InfoIngested "markets" total_markets)) w.

(** The [while True] pagination loop over [/events]. *)
Fixpoint events_loop (fuel : nat) (client : KalshiHttpClient)
    (batch_size : Z)
    (cursor : PyVal) (events_batch : list PyVal) (total_events : Z)
  : M (list PyVal * Z) :=
  match fuel with
  | O => fun w => (Stall, w)
  | S fuel' =>
      let! res := get_events client default_events_limit cursor in
      let! page := lift (dict_get res "events") in
      let events := py_or page (PList []) in
      let! items := lift (iterate events) in
      let events_batch := events_batch ++ items in
      let total_events := (total_events + len items)%Z in
      let! events_batch :=
        if (len events_batch >=? batch_size)%Z then
          let! flushed := batch_upsert_events events_batch in
          do! log (InfoFlushed "events" flushed) in
          ret []
        else ret events_batch in
      let! cursor := lift (dict_get res "cursor") in
      if negb (truthy cursor) then ret (events_batch, total_events)
      else events_loop fuel' client batch_size
                       cursor events_batch total_events
  end.

(** The events part of one cycle. *)
Definition poll_events (client : KalshiHttpClient) (batch_size : Z)
  : M unit :=
  fun w =>
    (let! r := events_loop (S (length (net w))) client batch_size
                           PNone [] 0%Z in
     let events_batch := r.1 in
     let total_events := r.2 in
     do! match events_batch with
         | [] => ret tt
         | _ =>
             let! flushed := batch_upsert_events events_batch in
             log (InfoFlushed "events" flushed)
         end in
     log (InfoIngested "events" total_events)) w.

(** One turn of the outer [while True]: the [try] body, then the two
    handlers.  The result tells whether the loop goes on ([break] on
    [CancelledError]). *)
Definition poll_cycle (client : KalshiHttpClient) (poll_interval : Q)
    (min_created_ts : PyVal) (batch_size : Z) : M bool :=
  try_except
    (do! poll_markets client min_created_ts batch_size in
     do! poll_events client batch_size in
     do! asyncio_sleep poll_interval in
     ret true)
    (fun e =>
       match e with
       | CancelledError => Some (ret false)
       | _ =>
           Some (do! log (ExceptionInLoop e) in
                 do! asyncio_sleep poll_interval in
                 ret true)
       end).

End AutoIngest.

(* ===================================================================== *)
(** ** auto_ingest.py: start_ingestion / stop_ingestion                   *)
(* ===================================================================== *)

(** Where a task created for [_poll_markets_and_events] stands.  A pending
    task is suspended before the loop ([create_tables], or not started yet),
    inside the [try] of a cycle, or in the sleep of the [except Exception]
    handler.  A done task has returned ([create_tables] raised, or the
    cycle's [except asyncio.CancelledError: break] ran) or was cancelled:
    inside a cycle every [Exception] is caught, so the coroutine has no
    other way to end ([KalshiHttpClient()], which runs before the [try], is
    taken to return). *)
Inductive TaskState : Type :=
  | PendingSetup
  | PendingInCycle
  | PendingInHandler
  | Returned
  | Cancelled.

(** [task.done()]. *)
Definition done (s : TaskState) : bool :=
  match s with
  | PendingSetup | PendingInCycle | PendingInHandler => false
  | Returned | Cancelled => true
  end.

(** The moves a task makes by itself: [create_tables] returns and the loop
    starts, or it raises and the coroutine returns; a cycle fails and its
    handler sleeps; the handler's sleep ends and the next cycle starts. *)
Definition moves (s s' : TaskState) : bool :=
  match s, s' with
  | PendingSetup, PendingInCycle
  | PendingSetup, Returned
  | PendingInCycle, PendingInHandler
  | PendingInHandler, PendingInCycle => true
  | _, _ => false
  end.

(** The arguments a task was created with. *)
Record TaskArgs : Type := mkTaskArgs {
  arg_poll_interval : Z;
  arg_min_created_ts : PyVal;
  arg_batch_size : Z
}.

(** The event loop's tasks (every task [asyncio.create_task] made, in
    order), the module global [_INGEST_TASK] (an index into them), the
    environment variable the start reads and the module's log. *)
Record Supervisor : Type := mkSupervisor {
  tasks : list (TaskArgs * TaskState);
  _INGEST_TASK : option nat;
  INGEST_MIN_CREATED_TS : option string;
  sup_logged : list LogRecord
}.

Definition task_state (sv : Supervisor) (i : nat) : option TaskState :=
  snd <$> tasks sv !! i.

(** What [task.cancel()] does to the task, at the task's next turn: the
    [CancelledError] thrown into a pending task is caught by the cycle's
    [except asyncio.CancelledError: break], which lets the coroutine return;
    anywhere else it ends the task as cancelled.  A done task is left as it
    is. *)
Definition cancel_and_finish (s : TaskState) : TaskState :=
  match s with
  | PendingInCycle => Returned
  | PendingSetup | PendingInHandler => Cancelled
  | _ => s
  end.

(** [start_ingestion(poll_interval, selected_markets, min_created_ts,
    batch_size)]; [selected_markets] is ignored by the source. *)
Definition start_ingestion (poll_interval : Z) (min_created_ts : PyVal)
    (batch_size : Z) (sv : Supervisor) : res unit * Supervisor :=
  let running :=
    match _INGEST_TASK sv with
    | Some i =>
        match task_state sv i with
        | Some s => negb (done s)
        | None => false
        end
    | None => false
    end in
  if running then (Ret tt, sv)
  else
    let min_created_ts :=
      if is_None min_created_ts then
        match INGEST_MIN_CREATED_TS sv with
        | Some s => PStr s
        | None => PNone
        end
      else min_created_ts in
    let record :=
      if truthy min_created_ts then InfoIncremental min_created_ts
      else InfoNoFilter in
    (Ret tt,
     {| tasks := tasks sv ++
                 [(mkTaskArgs poll_interval min_created_ts batch_size,
                   PendingSetup)];
        _INGEST_TASK := Some (length (tasks sv));
        INGEST_MIN_CREATED_TS := INGEST_MIN_CREATED_TS sv;
        sup_logged := sup_logged sv ++ [record] |}).

(** The event loop around the supervisor: the tasks [cancel()] was called
    on and that have not run since (the [CancelledError] is thrown into
    them at their next turn), and the [stop_ingestion] calls suspended in
    [await _INGEST_TASK], each given by the task it awaits. *)
Record Loop : Type := mkLoop {
  supervisor : Supervisor;
  cancel_requested : list nat;
  awaiting : list nat
}.

(** [_INGEST_TASK = h]. *)
Definition set_handle (h : option nat) (sv : Supervisor) : Supervisor :=
  mkSupervisor (tasks sv) h (INGEST_MIN_CREATED_TS sv) (sup_logged sv).

(** [stop_ingestion()], from the call to its [await].  Without a handle it
    returns.  On a task that is done, [cancel()] does nothing and the
    [await] ends at once, with the task's result or with a [CancelledError]
    that is caught: the call goes on to [_INGEST_TASK = None] and returns.
    On a pending task [cancel()] asks for the cancellation and the [await]
    suspends the call.  The boolean tells whether the call has returned. *)
Definition stop_ingestion (l : Loop) : bool * Loop :=
  let sv := supervisor l in
  match _INGEST_TASK sv with
  | None => (true, l)
  | Some i =>
      match task_state sv i with
      | Some s =>
          if done s
          then (true, mkLoop (set_handle None sv) (cancel_requested l)
                             (awaiting l))
          else (false, mkLoop sv (i :: cancel_requested l)
                              (awaiting l ++ [i]))
      | None => (false, l)
      end
  end.

(** [l] without the first occurrence of [i]. *)
Fixpoint drop_first (i : nat) (l : list nat) : list nat :=
  match l with
  | [] => []
  | j :: l' => if Nat.eqb i j then l' else j :: drop_first i l'
  end.

(** The rest of a [stop_ingestion()] call that awaits task [i], run when
    the event loop resumes it, the task being done: the [await] ends (a
    [CancelledError] is caught) and [_INGEST_TASK = None] follows, whatever
    the handle refers to by then. *)
Definition stop_ingestion_resumes (i : nat) (l : Loop) : Loop :=
  match task_state (supervisor l) i with
  | Some s =>
      if done s && bool_decide (i ∈ awaiting l)
      then mkLoop (set_handle None (supervisor l)) (cancel_requested l)
                  (drop_first i (awaiting l))
      else l
  | None => l
  end.

(** A move of task [i] to [s] by itself (ignored when the task cannot make
    it). *)
Definition task_moves (i : nat) (s : TaskState) (sv : Supervisor)
  : Supervisor :=
  mkSupervisor
    (alter (fun t => if moves t.2 s then (t.1, s) else t) i (tasks sv))
    (_INGEST_TASK sv) (INGEST_MIN_CREATED_TS sv) (sup_logged sv).

(** A turn of task [i]: with a cancellation requested, the
    [CancelledError] is thrown into it and ends it; otherwise it makes its
    move to [s]. *)
Definition task_turn (i : nat) (s : TaskState) (l : Loop) : Loop :=
  let sv := supervisor l in
  if bool_decide (i ∈ cancel_requested l) then
    mkLoop
      (mkSupervisor
         (alter (fun t => (t.1, cancel_and_finish t.2)) i (tasks sv))
         (_INGEST_TASK sv) (INGEST_MIN_CREATED_TS sv) (sup_logged sv))
      (filter (fun j => j ≠ i) (cancel_requested l)) (awaiting l)
  else mkLoop (task_moves i s sv) (cancel_requested l) (awaiting l).

(** What happens in the event loop: a call of [start_ingestion] (which has
    no [await] and so runs to its end), a call of [stop_ingestion] up to
    its [await], the resumption of a suspended [stop_ingestion], a turn of
    a task. *)
Inductive LoopStep : Type :=
  | Starts (poll_interval : Z) (min_created_ts : PyVal) (batch_size : Z)
  | Stops
  | Resumes (i : nat)
  | Turn (i : nat) (s : TaskState).

Definition loop_step (st : LoopStep) (l : Loop) : Loop :=
  match st with
  | Starts p m b =>
      mkLoop (start_ingestion p m b (supervisor l)).2 (cancel_requested l)
             (awaiting l)
  | Stops => (stop_ingestion l).2
  | Resumes i => stop_ingestion_resumes i l
  | Turn i s => task_turn i s l
  end.

Definition loop_run (steps : list LoopStep) (l : Loop) : Loop :=
  foldl (fun l st => loop_step st l) l steps.

(** A [stop_ingestion()] call that no other lifecycle call overlaps: the
    call up to its [await] and, when that suspends it, the turn of the
    task it awaits and the rest of the call. *)
Definition stop_ingestion_alone (sv : Supervisor) : res unit * Supervisor :=
  match stop_ingestion (mkLoop sv [] []) with
  | (true, l) => (Ret tt, supervisor l)
  | (false, l) =>
      match awaiting l with
      | i :: _ =>
          let l' := stop_ingestion_resumes i (task_turn i PendingSetup l) in
          (match awaiting l' with [] => Ret tt | _ => Stall end,
           supervisor l')
      | [] => (Stall, supervisor l)
      end
  end.

(** Lifecycle calls that do not overlap, and the moves of the tasks in
    between: a call of [start_ingestion], a call of [stop_ingestion] that
    runs to its end before the next call, and a move of task [i] to [s]. *)
Inductive Step : Type :=
  | CallStart (poll_interval : Z) (min_created_ts : PyVal) (batch_size : Z)
  | CallStop
  | TaskMoves (i : nat) (s : TaskState).

Definition step (st : Step) (sv : Supervisor) : Supervisor :=
  match st with
  | CallStart p m b => (start_ingestion p m b sv).2
  | CallStop => (stop_ingestion_alone sv).2
  | TaskMoves i s => task_moves i s sv
  end.

Definition run (steps : list Step) (sv : Supervisor) : Supervisor :=
  foldl (fun sv st => step st sv) sv steps.

(** The module as imported: [_INGEST_TASK = None], no task. *)
Definition initial (env : option string) : Supervisor :=
  mkSupervisor [] None env [].

(** Number of polling tasks that are not done. *)
Definition live_tasks (sv : Supervisor) : nat :=
  length (filter (fun t => done t.2 = false) (tasks sv)).

(* ===================================================================== *)
(** ** A runtime for the examples                                         *)
(* ===================================================================== *)

(** The theorems below hold for every [PyRuntime].  The examples run on this
    one, which covers the library calls on plain inputs: integers, booleans,
    finite floats, text in plain decimal notation, timestamps written as
    [YYYY-MM-DDTHH:MM:SS+HH:MM], and a database that checks every argument
    against the type of its column.  It refuses what it does not cover. *)
Module ExampleRuntime.

Definition digit_of (a : ascii) : option N :=
  let n := N_of_ascii a in
  if ((48 <=? n) && (n <=? 57))%N then Some (n - 48)%N else None.

Fixpoint digits_acc (s : string) (acc : N) : option N :=
  match s with
  | EmptyString => Some acc
  | String a s' =>
      match digit_of a with
      | Some d => digits_acc s' (acc * 10 + d)%N
      | None => None
      end
  end.

Definition digits (s : string) : option N :=
  match s with
  | EmptyString => None
  | _ => digits_acc s 0
  end.

Definition signed (s : string) : bool * string :=
  match s with
  | String "-" r => (true, r)
  | String "+" r => (false, r)
  | _ => (false, s)
  end.

Definition int_of_text (s : string) : option Z :=
  let (neg, body) := signed s in
  match digits body with
  | Some n => Some (if neg then - Z.of_N n else Z.of_N n)%Z
  | None => None
  end.

Definition decimal_of_text (s : string) : option decimal :=
  let (neg, body) := signed s in
  match index 0 "." body with
  | None =>
      match digits body with
      | Some n => Some (DFinite neg n 0)
      | None => None
      end
  | Some i =>
      let whole := substring 0 i body in
      let frac := substring (S i) (String.length body - S i) body in
      match digits (whole +:+ frac), digits frac with
      | Some n, Some _ =>
          Some (DFinite neg n (- Z.of_nat (String.length frac)))
      | _, _ => None
      end
  end.

Definition is_digit (a : ascii) : bool :=
  match digit_of a with Some _ => true | None => false end.

(** [d] for a digit, any other character for itself. *)
Fixpoint matches (pattern s : string) : bool :=
  match pattern, s with
  | EmptyString, EmptyString => true
  | String p pattern', String a s' =>
      (if Ascii.eqb p "d" then is_digit a else Ascii.eqb p a)
      && matches pattern' s'
  | _, _ => false
  end.

Definition int_ (v : PyVal) : string + PyVal :=
  match v with
  | PInt n => inr (PInt n)
  | PBool b => inr (PInt (if b then 1 else 0))
  | PFloat (FFinite x) => inr (PInt (Z.quot (Qnum x) (Zpos (Qden x))))
  | PFloat (FInf _) => inl "OverflowError"
  | PFloat FNaN => inl "ValueError"
  | PStr s =>
      match int_of_text s with
      | Some n => inr (PInt n)
      | None => inl "ValueError"
      end
  | _ => inl "TypeError"
  end.

Definition float_ (v : PyVal) : string + PyVal :=
  match v with
  | PInt n => inr (PFloat (FFinite (inject_Z n)))
  | PBool b => inr (PFloat (FFinite (if b then 1 else 0)))
  | PFloat x => inr (PFloat x)
  | PStr s =>
      match decimal_of_text s with
      | Some (DFinite neg n e) =>
          let x := (inject_Z (Z.of_N n) * 10 ^ e)%Q in
          inr (PFloat (FFinite (if neg then - x else x)%Q))
      | _ => inl "ValueError"
      end
  | _ => inl "TypeError"
  end.

Definition str_ (v : PyVal) : string + string :=
  match v with
  | PStr s => inr s
  | PInt n => inr (pretty n)
  | PBool b => inr (if b then "True" else "False")
  | PNone => inr "None"
  | _ => inl "NotImplementedError"
  end.

Definition Decimal_ (s : string) : string + PyVal :=
  match decimal_of_text s with
  | Some d => inr (PDecimal d)
  | None => inl "InvalidOperation"
  end.

Definition fromtimestamp_ (v : PyVal) : string + PyVal :=
  match v with
  | PInt n => inr (PDatetime ("@" +:+ pretty n))
  | PBool b => inr (PDatetime (if b then "@1" else "@0"))
  | _ => inl "NotImplementedError"
  end.

Definition fromisoformat_ (s : string) : string + PyVal :=
  if matches "dddd-dd-ddTdd:dd:dd+dd:dd" s then inr (PDatetime s)
  else inl "ValueError".

Definition json_dumps_ (v : PyVal) : string + string :=
  match v with
  | PNone => inr "null"
  | PBool b => inr (if b then "true" else "false")
  | PInt n => inr (pretty n)
  | PList [] => inr "[]"
  | _ => inl "NotImplementedError"
  end.

(** The JSON texts the example [json.dumps] produces. *)
Definition is_json_ (s : string) : bool :=
  bool_decide (s ∈ ["null"; "true"; "false"; "[]"])
  || match int_of_text s with Some _ => true | None => false end.

(** What the example database takes for a column of a type: [None]
    anywhere; a [str] for TEXT; a [bool] for BOOLEAN; an [int] of 32 or 64
    bits for INTEGER and BIGINT; for NUMERIC(p, s) a [Decimal] without
    positive exponent of at most p - s digits; a [datetime] for
    TIMESTAMPTZ; for JSONB a [str] that is one of the JSON texts above. *)
Definition takes_ (ty : SqlType) (v : PyVal) : bool :=
  match v, ty with
  | PNone, _ => true
  | PStr _, TEXT => true
  | PStr s, JSONB => is_json_ s
  | PBool _, BOOLEAN => true
  | PInt n, INTEGER => ((- 2 ^ 31 <=? n) && (n <? 2 ^ 31))%Z
  | PInt n, BIGINT => ((- 2 ^ 63 <=? n) && (n <? 2 ^ 63))%Z
  | PDecimal (DFinite _ n e), NUMERIC precision scale =>
      ((e <=? 0) && (Z.of_N n <? 10 ^ (precision - scale)))%Z
  | PDatetime _, TIMESTAMPTZ => true
  | _, _ => false
  end.

(** The arguments of an upsert, column by column against the DDL of the
    table the conflict key belongs to. *)
Definition execute_accepts_ (key : string) (col_names : list string)
    (values : list PyVal) : bool :=
  let ddl :=
    if String.eqb key "ticker" then markets_columns else events_columns in
  (length col_names =? length values)%nat
  && forallb
       (fun cv : string * PyVal =>
          match find (fun c => String.eqb (column_name c) cv.1) ddl with
          | Some c => takes_ (column_type c) cv.2
          | None => false
          end)
       (zip col_names values).

Definition runtime : PyRuntime :=
  {| builtin_int := int_;
     builtin_float := float_;
     builtin_str := str_;
     Decimal := Decimal_;
     fromtimestamp := fromtimestamp_;
     fromisoformat := fromisoformat_;
     json_dumps := json_dumps_;
     execute_accepts := execute_accepts_ |}.

End ExampleRuntime.

(* ===================================================================== *)
(** ** Vocabulary of the statements                                       *)
(* ===================================================================== *)

(** [self.rate_limiter = TokenBucket(capacity, refill_rate_per_second)], as
    [KalshiHttpClient.__init__] runs it. *)
Definition new_TokenBucket (capacity refill_rate_per_second : Q) : M unit :=
  let! now := time_time in
  fun w =>
    (Ret tt,
     set_rate_limiter (TokenBucket_init capacity refill_rate_per_second now) w).

(** A call on the bucket. *)
Inductive BucketCall : Type :=
  | CallRefill
  | CallAcquire (n : Q).

Definition bucket_call (c : BucketCall) : M unit :=
  match c with
  | CallRefill => _refill
  | CallAcquire n => acquire n
  end.

(** The world after a sequence of calls, whatever each one's outcome. *)
Definition bucket_calls (cs : list BucketCall) (w : World) : World :=
  foldl (fun w c => (bucket_call c w).2) w cs.

(** The readings never go back from [t]: every elapsed time is
    non-negative. *)
Fixpoint nondecreasing (t : Q) (readings : list Q) : Prop :=
  match readings with
  | [] => True
  | t' :: rest => (t <= t')%Q /\ nondecreasing t' rest
  end.

(** No call asks for a negative number of tokens. *)
Definition amount_ok (c : BucketCall) : Prop :=
  match c with
  | CallRefill => True
  | CallAcquire n => (0 <= n)%Q
  end.

(** The token count lies between 0 and the capacity. *)
Definition in_bounds (b : TokenBucket) : Prop :=
  (0 <= tokens b)%Q /\ (tokens b <= capacity b)%Q.

(** What a call on the bucket keeps: bounds, a non-negative capacity and
    rate, a clock that does not go back. *)
Definition steady (w : World) : Prop :=
  (0 <= capacity (rate_limiter w))%Q /\
  (0 <= refill_rate_per_second (rate_limiter w))%Q /\
  in_bounds (rate_limiter w) /\
  nondecreasing (last_refill (rate_limiter w)) (clock w).

(** A world with bucket [b] and clock readings [readings], nothing else. *)
Definition bucket_world (b : TokenBucket) (readings : list Q) : World :=
  mkWorld b readings [] [] [] [] ∅ ∅ (fun _ => 0%Q) 0.

(** The bucket after refills at the given readings, nothing deducted. *)
Definition refilled (b : TokenBucket) (readings : list Q) : TokenBucket :=
  foldl refill_at b readings.

(** The outcomes [_request_with_retry] retries on: the four statuses, and
    the connection and timeout failures. *)
Definition transient (o : exn + PyVal) : bool :=
  match o with
  | inl (HTTPStatusError status_code) => transient_status status_code
  | inl ConnectError | inl TimeoutException | inl AsyncTimeoutError => true
  | _ => false
  end.

(** What a call ends with when the exchange [o] is its last one. *)
Definition outcome (o : exn + PyVal) : res PyVal :=
  match o with
  | inl e => Raise e
  | inr body => Ret body
  end.

(** The attempts [a, a+1, ...], [k] of them. *)
Fixpoint range_from (a : Z) (k : nat) : list Z :=
  match k with
  | O => []
  | S k' => a :: range_from (a + 1) k'
  end.

(** The sleeps between attempts [a, a+1, ..., a+k]. *)
Fixpoint backoffs (base_backoff : Q) (a : Z) (k : nat) : list Q :=
  match k with
  | O => []
  | S k' => (base_backoff * 2 ^ a)%Q :: backoffs base_backoff (a + 1) k'
  end.

(** The warnings logged for the failed attempts [a, a+1, ...]. *)
Fixpoint warnings (base_backoff : Q) (max_retries a : Z)
    (failed : list (exn + PyVal)) : list LogRecord :=
  match failed with
  | [] => []
  | o :: failed' =>
      match o with
      | inl (HTTPStatusError status_code) =>
          [WarnTransientHTTP status_code (base_backoff * 2 ^ a)%Q (a + 1)
                             max_retries]
      | inl e => [WarnNetwork e (base_backoff * 2 ^ a)%Q (a + 1) max_retries]
      | inr _ => []
      end ++ warnings base_backoff max_retries (a + 1) failed'
  end.

(** The error logged when the exchange [o] ends the call. *)
Definition final_log (o : exn + PyVal) : list LogRecord :=
  match o with
  | inl (HTTPStatusError status_code) => [ErrorHTTP status_code]
  | inl ConnectError => [ErrorNetwork ConnectError]
  | inl TimeoutException => [ErrorNetwork TimeoutException]
  | inl AsyncTimeoutError => [ErrorNetwork AsyncTimeoutError]
  | _ => []
  end.

(** A client and a world for the examples: the default budget of 120
    requests per minute, a clock ticking every second. *)
Definition example_client : KalshiHttpClient :=
  mkClient "https://api.example/trade-api/v2" None.

Definition example_world (script : list (exn + PyVal)) : World :=
  mkWorld (client_rate_limiter 120 0) [1; 2; 3; 4; 5; 6; 7; 8]%Q [] script
          [] [] ∅ ∅ (fun n => inject_Z (Z.of_nat n)) 0.

(** The sink read as a function of the batch. *)
Section SinkVocabulary.
Context `{PyRuntime}.

(** The value a call returns, [None] standing for the rest. *)
Definition value (r : res PyVal) : PyVal :=
  match r with
  | Ret v => v
  | _ => PNone
  end.

(** The entry of [rec] for one field of a raw record [d]. *)
Definition field_value (key_value : PyVal) (d : gmap string PyVal)
    (f : string * conversion) : PyVal :=
  let v := default PNone (d !! f.1) in
  match f.2 with
  | Key => key_value
  | Plain => v
  | AsInt => value (_as_int v)
  | AsDecimal => value (_as_decimal v)
  | AsDatetime => value (_as_datetime v)
  end.

(** The typed record [rec] built from a raw record [d]. *)
Definition typed_record (key : string) (fields : list (string * conversion))
    (d : gmap string PyVal) : gmap string PyVal :=
  list_to_map
    (map (fun f => (f.1, field_value (default PNone (d !! key)) d f))
         fields).

(** The statement's argument for one column. *)
Definition argument (jsonb_cols : list string) (rec : gmap string PyVal)
    (col : string) : PyVal :=
  let val := default PNone (rec !! col) in
  if bool_decide (col ∈ jsonb_cols) && negb (is_None val)
  then value (_serialize_jsonb val)
  else val.

(** The row a raw record proposes: column by column, what the statement
    sends for it ([EXCLUDED] in the SET clause). *)
Definition excluded_row (key : string) (fields : list (string * conversion))
    (jsonb_cols col_names : list string) (d : gmap string PyVal)
  : gmap string PyVal :=
  list_to_map
    (zip col_names
         (map (argument jsonb_cols (typed_record key fields d)) col_names)).

(** The raw record is a dict. *)
Definition is_dict (raw : PyVal) : bool :=
  match raw with
  | PDict _ => true
  | _ => false
  end.

(** The raw record is a dict that carries its identity key: [raw.get(key)]
    is truthy. *)
Definition keyed (key : string) (raw : PyVal) : bool :=
  match raw with
  | PDict d => truthy (default PNone (d !! key))
  | _ => false
  end.

(** The identity key of a keyed record whose key is a string. *)
Definition key_of (key : string) (raw : PyVal) : option string :=
  match raw with
  | PDict d =>
      match default PNone (d !! key) with
      | PStr k => if truthy (PStr k) then Some k else None
      | _ => None
      end
  | _ => None
  end.

(** The raw record can be stored or dropped: it is a dict and, if it has
    an identity key, the key is a string, [json.dumps] accepts what the
    record holds for the JSONB columns, and the driver and the server take
    the arguments of its statement: the values it holds, once converted,
    fit the columns of the table. *)
Definition storable (key : string) (fields : list (string * conversion))
    (jsonb_cols col_names : list string) (raw : PyVal) : bool :=
  match raw with
  | PDict d =>
      let k := default PNone (d !! key) in
      if truthy k then
        match k with
        | PStr _ =>
            forallb
              (fun col =>
                 match _serialize_jsonb (default PNone (d !! col)) with
                 | Ret _ => true
                 | _ => false
                 end)
              jsonb_cols
            && execute_accepts key col_names
                 (map (argument jsonb_cols (typed_record key fields d))
                      col_names)
        | _ => false
        end
      else true
  | _ => false
  end.

(** The table after the upsert of one row under key [k]. *)
Definition upsert_row (key : string) (col_names : list string) (k : string)
    (excluded : gmap string PyVal) (now : Q) (table : gmap string Row)
  : gmap string Row :=
  match table !! k with
  | None => <[ k := mkRow excluded now now ]> table
  | Some old =>
      <[ k := mkRow
                (foldr (fun col cols =>
                          <[ col := default PNone (excluded !! col) ]> cols)
                       (row_cols old) (update_sets key col_names))
                (created_at old) now ]> table
  end.

(** The table after the upserts of a batch, dropped records skipped. *)
Definition table_after (key : string) (fields : list (string * conversion))
    (jsonb_cols col_names : list string) (raws : list PyVal) (now : Q)
    (table : gmap string Row) : gmap string Row :=
  foldl
    (fun table raw =>
       match raw, key_of key raw with
       | PDict d, Some k =>
           upsert_row key col_names k
                      (excluded_row key fields jsonb_cols col_names d)
                      now table
       | _, _ => table
       end)
    table raws.

(** What ties a table's constants together: the entries of [rec] have
    distinct names, the key is one of them and is a column, and the JSONB
    columns are copied from the raw record as they are. *)
Definition table_ok (key : string) (fields : list (string * conversion))
    (jsonb_cols col_names : list string) : Prop :=
  NoDup (map fst fields) /\
  (key, Key) ∈ fields /\
  key ∈ col_names /\
  (key ∉ jsonb_cols) /\
  Forall (fun col => (col, Plain) ∈ fields) jsonb_cols.

(** The shape the two batch upserts share. *)
Definition batch_upsert (key : string)
    (fields : list (string * conversion)) (jsonb_cols col_names : list string)
    (get : World -> gmap string Row)
    (set : gmap string Row -> World -> World) (raws : list PyVal) : M Z :=
  match raws with
  | [] => ret 0%Z
  | _ =>
      let! records := lift (build_records key fields raws) in
      match records with
      | [] => ret 0%Z
      | _ =>
          do! transaction get set
                (execute_all key jsonb_cols col_names records) in
          ret (len records)
      end
  end.

(** The typed records of a batch, dropped records left out. *)
Definition records_of (key : string) (fields : list (string * conversion))
    (raws : list PyVal) : list (gmap string PyVal) :=
  omap (fun raw =>
          match raw with
          | PDict d =>
              if truthy (default PNone (d !! key))
              then Some (typed_record key fields d)
              else None
          | _ => None
          end)
       raws.

End SinkVocabulary.


(** The records of the repository's upsert test, cut down to the fields that
    differ: a market, the same market with a new title and bid, a record
    without a ticker, and an event. *)
Definition market_original : gmap string PyVal :=
  <[ "ticker" := PStr "TEST-UPSERT-001" ]>
    (<[ "title" := PStr "Original Title" ]>
       (<[ "yes_bid" := PInt 50 ]>
          (<[ "yes_bid_dollars" := PStr "0.5000" ]>
             (<[ "created_time" := PStr "2025-12-11T12:00:00Z" ]> ∅)))).

Definition market_updated : gmap string PyVal :=
  <[ "ticker" := PStr "TEST-UPSERT-001" ]>
    (<[ "title" := PStr "Updated Title" ]>
       (<[ "yes_bid" := PInt 60 ]>
          (<[ "yes_bid_dollars" := PStr "0.5000" ]>
             (<[ "created_time" := PStr "2025-12-11T12:00:00Z" ]> ∅)))).

Definition market_without_ticker : gmap string PyVal :=
  <[ "title" := PStr "No ticker" ]> (<[ "yes_bid" := PInt 10 ]> ∅).

Definition event_original : gmap string PyVal :=
  <[ "event_ticker" := PStr "TEST-EVENT-001" ]>
    (<[ "title" := PStr "Test Event" ]>
       (<[ "strike_date" := PStr "2025-12-25T00:00:00Z" ]> ∅)).

Definition event_without_ticker : gmap string PyVal :=
  <[ "title" := PStr "No ticker" ]> ∅.

(** The polling passes read as functions of the pages served. *)
Section PollVocabulary.
Context `{PyRuntime}.

(** The body the API serves for a page: the record array under the
    resource's name, and the next cursor. *)
Definition page_response (resource : string) (page : list PyVal * PyVal)
  : PyVal :=
  PDict (<[ resource := PList page.1 ]> {[ "cursor" := page.2 ]}).

(** [k] calls of [acquire(1)] in a row, from bucket [b] and the clock
    readings to come: when every call returns, the bucket and the readings
    they leave, and the sleeps they made while waiting. *)
Fixpoint limiter_serves (k : nat) (b : TokenBucket) (readings : list Q)
  : option (TokenBucket * list Q * list Q) :=
  match k with
  | O => Some (b, readings, [])
  | S k' =>
      let r := acquire 1 (bucket_world b readings) in
      match r.1 with
      | Ret _ =>
          match limiter_serves k' (rate_limiter r.2) (clock r.2) with
          | Some st => Some (st.1.1, st.1.2, slept r.2 ++ st.2)
          | None => None
          end
      | _ => None
      end
  end.

(** The request [get_markets] sends for a cursor. *)
Definition markets_request (client : KalshiHttpClient)
    (min_created_ts cursor : PyVal) : Request :=
  let params : gmap string PyVal :=
    <[ "mve_filter" := PStr "exclude" ]>
      {[ "limit" := default_markets_limit ]} in
  let params :=
    if truthy cursor then <[ "cursor" := cursor ]> params else params in
  let params :=
    if truthy min_created_ts
    then <[ "min_created_ts" := min_created_ts ]> params else params in
  mkRequest "GET" (base_url client +:+ "/markets") (Some params)
            (_headers client).

(** The request [get_events] sends for a cursor. *)
Definition events_request (client : KalshiHttpClient) (cursor : PyVal)
  : Request :=
  let params : gmap string PyVal := {[ "limit" := default_events_limit ]} in
  let params :=
    if truthy cursor then <[ "cursor" := cursor ]> params else params in
  mkRequest "GET" (base_url client +:+ "/events") (Some params)
            (_headers client).

(** The batches flushed while the pages come in, and the buffer left at
    the end: a page is appended whole, and the buffer is flushed whole
    once it holds [batch_size] records or more. *)
Fixpoint sink_batches (batch_size : Z) (buffer : list PyVal)
    (pages : list (list PyVal)) : list (list PyVal) * list PyVal :=
  match pages with
  | [] => ([], buffer)
  | page :: rest =>
      let buffer := buffer ++ page in
      if (len buffer >=? batch_size)%Z then
        let r := sink_batches batch_size [] rest in (buffer :: r.1, r.2)
      else sink_batches batch_size buffer rest
  end.

(** All the batches of a pass: the flushed ones, then what is left, if
    anything. *)
Definition all_batches (batch_size : Z) (pages : list (list PyVal))
  : list (list PyVal) :=
  let r := sink_batches batch_size [] pages in
  r.1 ++ match r.2 with
         | [] => []
         | _ => [r.2]
         end.

(** [flushed = await sink(batch); logger.info(f"Flushed ...")]. *)
Definition flush (sink : list PyVal -> M Z) (resource : string)
    (batch : list PyVal) : M unit :=
  let! flushed := sink batch in
  log (InfoFlushed resource flushed).


(** The shape the two pagination loops share. *)
Fixpoint page_loop (fetch : PyVal -> M PyVal) (sink : list PyVal -> M Z)
    (resource : string) (batch_size : Z) (fuel : nat)
    (cursor : PyVal) (batch : list PyVal) (total : Z)
  : M (list PyVal * Z) :=
  match fuel with
  | O => fun w => (Stall, w)
  | S fuel' =>
      let! res := fetch cursor in
      let! page := lift (dict_get res resource) in
      let! items := lift (iterate (py_or page (PList []))) in
      let batch := batch ++ items in
      let total := (total + len items)%Z in
      let! batch :=
        if (len batch >=? batch_size)%Z then
          let! flushed := sink batch in
          do! log (InfoFlushed resource flushed) in
          ret []
        else ret batch in
      let! cursor := lift (dict_get res "cursor") in
      if negb (truthy cursor) then ret (batch, total)
      else page_loop fetch sink resource batch_size fuel' cursor batch total
  end.

(** The shape the two passes share. *)
Definition poll_pass (fetch : PyVal -> M PyVal) (sink : list PyVal -> M Z)
    (resource : string) (batch_size : Z) : M unit :=
  fun w =>
    (let! r := page_loop fetch sink resource batch_size
                         (S (length (net w))) PNone [] 0%Z in
     do! match r.1 with
         | [] => ret tt
         | _ =>
             let! flushed := sink r.1 in
             log (InfoFlushed resource flushed)
         end in
     log (InfoIngested resource r.2)) w.

(** What the transport layer holds. *)
Definition transport (w : World)
  : TokenBucket * list Q * list Q * list (exn + PyVal) * list Request :=
  (rate_limiter w, clock w, slept w, net w, sent w).

(** What a flush of a storable batch does to a table, the transaction
    count and the log. *)
Definition flush_db (key : string) (fields : list (string * conversion))
    (jsonb_cols col_names : list string) (resource : string)
    (dbnow : nat -> Q) (st : gmap string Row * nat * list LogRecord)
    (batch : list PyVal) : gmap string Row * nat * list LogRecord :=
  match filter (keyed key) batch with
  | [] => (st.1.1, st.1.2, st.2 ++ [InfoFlushed resource 0])
  | kept =>
      (table_after key fields jsonb_cols col_names batch
                   (dbnow st.1.2) st.1.1,
       S st.1.2,
       st.2 ++ [InfoFlushed resource (len kept)])
  end.

End PollVocabulary.

(** The two resources a cycle polls, and what each pass is made of. *)
Inductive Resource : Type := Markets | Events.

Section Resources.
Context `{PyRuntime}.

Definition resource_name (r : Resource) : string :=
  match r with Markets => "markets" | Events => "events" end.

Definition key_name (r : Resource) : string :=
  match r with Markets => "ticker" | Events => "event_ticker" end.

Definition fields_of (r : Resource) : list (string * conversion) :=
  match r with Markets => market_fields | Events => event_fields end.

Definition jsonb_cols_of (r : Resource) : list string :=
  match r with Markets => market_jsonb_cols | Events => event_jsonb_cols end.

Definition col_names_of (r : Resource) : list string :=
  match r with Markets => market_col_names | Events => event_col_names end.

Definition table (r : Resource) (w : World) : gmap string Row :=
  match r with Markets => markets w | Events => events w end.

Definition other_table (r : Resource) (w : World) : gmap string Row :=
  match r with Markets => events w | Events => markets w end.

Definition set_table (r : Resource) (m : gmap string Row) (w : World)
  : World :=
  match r with Markets => set_markets m w | Events => set_events m w end.

Definition sink_of (r : Resource) : list PyVal -> M Z :=
  match r with
  | Markets => batch_upsert_markets
  | Events => batch_upsert_events
  end.

Definition fetch_of (r : Resource) (client : KalshiHttpClient)
    (min_created_ts : PyVal) (cursor : PyVal) : M PyVal :=
  match r with
  | Markets => get_markets client default_markets_limit cursor
                           (PStr "exclude") min_created_ts
  | Events => get_events client default_events_limit cursor
  end.

Definition request_of (r : Resource) (client : KalshiHttpClient)
    (min_created_ts : PyVal) (cursor : PyVal) : Request :=
  match r with
  | Markets => markets_request client min_created_ts cursor
  | Events => events_request client cursor
  end.

(** The pass over a resource, as the cycle runs it. *)
Definition poll (r : Resource) (client : KalshiHttpClient)
    (min_created_ts : PyVal) (batch_size : Z) : M unit :=
  match r with
  | Markets => poll_markets client min_created_ts batch_size
  | Events => poll_events client batch_size
  end.

(** A record of the resource can be stored or dropped. *)
Definition storable_in (r : Resource) (raw : PyVal) : bool :=
  storable (key_name r) (fields_of r) (jsonb_cols_of r) (col_names_of r) raw.

(** A flush of the resource's sink, on table, transaction count and log. *)
Definition flush_in (r : Resource) (dbnow : nat -> Q)
    (st : gmap string Row * nat * list LogRecord) (batch : list PyVal)
  : gmap string Row * nat * list LogRecord :=
  flush_db (key_name r) (fields_of r) (jsonb_cols_of r) (col_names_of r)
           (resource_name r) dbnow st batch.

End Resources.

(** Three more markets for the examples. *)
Definition market_named (ticker : string) : PyVal :=
  PDict (<[ "ticker" := PStr ticker ]> (<[ "title" := PStr "A market" ]> ∅)).

(** The handle refers to a pending task. *)
Definition running (sv : Supervisor) : Prop :=
  exists i s,
    _INGEST_TASK sv = Some i /\ task_state sv i = Some s /\ done s = false.

(** What the lifecycle calls keep: the handle, if set, refers to a task; the
    tasks before the last one are done; and a last task that is pending is
    the one the handle refers to. *)
Definition supervised (sv : Supervisor) : Prop :=
  (forall i, _INGEST_TASK sv = Some i -> (i < length (tasks sv))%nat) /\
  (tasks sv = [] \/
   exists earlier t,
     tasks sv = earlier ++ [t] /\
     Forall (fun t' => done t'.2 = true) earlier /\
     (done t.2 = false -> _INGEST_TASK sv = Some (length earlier))).

(** Equality of conversions is decidable. *)
#[local] Instance conversion_eq_dec : EqDecision conversion.
Proof. solve_decision. Defined.

(* ===================================================================== *)
(** ** kalshi_http.py: the third endpoint                                 *)
(* ===================================================================== *)

(** [KalshiHttpClient.get_orderbook(ticker)]. *)
Definition get_orderbook (self : KalshiHttpClient) (ticker : string)
  : M PyVal :=
  let url := base_url self +:+ "/markets/" +:+ ticker +:+ "/orderbook" in
  _request_with_retry self "GET" url None
                      default_max_retries default_base_backoff.

(** A call of one of the client's three endpoints. *)
Inductive ClientCall : Type :=
  | GetMarkets (limit cursor mve_filter min_created_ts : PyVal)
  | GetEvents (limit cursor : PyVal)
  | GetOrderbook (ticker : string).

Definition client_call (self : KalshiHttpClient) (c : ClientCall) : M PyVal :=
  match c with
  | GetMarkets limit cursor mve_filter min_created_ts =>
      get_markets self limit cursor mve_filter min_created_ts
  | GetEvents limit cursor => get_events self limit cursor
  | GetOrderbook ticker => get_orderbook self ticker
  end.

(** The world after a sequence of calls, whatever each one's outcome. *)
Definition client_calls (self : KalshiHttpClient) (cs : list ClientCall)
    (w : World) : World :=
  foldl (fun w c => (client_call self c w).2) w cs.

(* ===================================================================== *)
(** ** models.py: normalize_price                                         *)
(* ===================================================================== *)

(** [a < b] on floats: false as soon as one of them is a NaN. *)
Definition float_lt (a b : pyfloat) : bool :=
  match a, b with
  | FNaN, _ | _, FNaN => false
  | FFinite x, FFinite y => negb (Qle_bool y x)
  | FFinite _, FInf negative => negb negative
  | FInf negative, FFinite _ => negative
  | FInf na, FInf nb => na && negb nb
  end.

(** [min(a, b)] and [max(a, b)] of two floats: the first argument, unless
    the second is smaller (greater). *)
Definition float_min (a b : pyfloat) : pyfloat :=
  if float_lt b a then b else a.
Definition float_max (a b : pyfloat) : pyfloat :=
  if float_lt a b then b else a.

(** [p / d] for a finite divisor [d] above zero. *)
Definition float_div (p : pyfloat) (d : Q) : pyfloat :=
  match p with
  | FFinite x => FFinite (x / d)
  | _ => p
  end.

Section Models.
(** [float(v)]: the float, or the class of the exception raised; and
    [s.lower()]. *)
Variable float_of : PyVal -> string + pyfloat.
Variable lower : string -> string.

(** [normalize_price(platform, price)]. *)
Definition normalize_price (platform : string) (price : PyVal)
  : res pyfloat :=
  let? p := try_except_Exception (call (float_of price))
                                 (Raise (Exception "ValueError")) in
  let platform := lower platform in
  if String.eqb platform "polymarket" then
    Ret (float_max (FFinite 0) (float_min (FFinite 1) p))
  else if String.eqb platform "kalshi" then
    if float_lt (FFinite 1) p then
      Ret (float_max (FFinite 0) (float_min (FFinite 1) (float_div p 100)))
    else Ret (float_max (FFinite 0) (float_min (FFinite 1) p))
  else Ret (float_max (FFinite 0) (float_min (FFinite 1) p)).

End Models.

(* ===================================================================== *)
(** ** api/main.py: lifespan                                              *)
(* ===================================================================== *)

Section Lifespan.
(** [int(s)] on a string: the integer, or the class of the exception
    raised. *)
Variable int_of_str : string -> string + Z.

(** [try: c  except Exception: pass], for the lifecycle calls. *)
Definition try_pass (r : res unit * Supervisor) : res unit * Supervisor :=
  match r with
  | (Raise e, sv) => if is_Exception e then (Ret tt, sv) else r
  | _ => r
  end.

(** The part of [lifespan] before the [yield]; [INGEST_POLL_INTERVAL] is
    the environment variable of that name, if set. *)
Definition lifespan_startup (INGEST_POLL_INTERVAL : option string)
    (sv : Supervisor) : res unit * Supervisor :=
  try_pass
    match call (int_of_str (default "60" INGEST_POLL_INTERVAL)) with
    | Ret poll =>
        let min_created :=
          match INGEST_MIN_CREATED_TS sv with
          | Some s => PStr s
          | None => PNone
          end in
        start_ingestion poll min_created DEFAULT_BATCH_SIZE sv
    | Raise e => (Raise e, sv)
    | Stall => (Stall, sv)
    end.

(** The part of [lifespan] after the [yield], no other lifecycle call
    running while it awaits the task. *)
Definition lifespan_shutdown (sv : Supervisor) : res unit * Supervisor :=
  try_pass (stop_ingestion_alone sv).

End Lifespan.

(* ===================================================================== *)
(** ** api/_ingest_routes.py                                              *)
(* ===================================================================== *)

(** What a route call ends with: the response body, the [HTTPException] it
    raises (with the exception that caused it, which makes its [detail]),
    an exception that goes through uncaught, or no end within the script. *)
Inductive RouteOutcome : Type :=
  | Responds (body : PyVal)
  | HTTPException (status_code : Z) (cause : exn)
  | Escapes (e : exn)
  | Hangs.

(** A route call: its outcome, the world it leaves, and whether it has
    closed the client it built ([client.close()], where it is reached, is
    taken to return). *)
Record RouteRun : Type := mkRouteRun {
  route_outcome : RouteOutcome;
  route_world : World;
  client_closed : bool
}.

Section IngestRoutes.
(** The module constants of [kalshi_http], read from the environment at
    import. *)
Variables (BASE_URL : string) (API_KEY : option string)
          (RATE_LIMIT_PER_MINUTE : Z).

(** [a or b] for an optional string [a]. *)
Definition str_or {A} (a : option string) (b : A) (some : string -> A) : A :=
  match a with
  | Some s => if negb (String.eqb s "") then some s else b
  | None => b
  end.

(** [KalshiHttpClient(base_url, api_key, rate_limit_per_minute)]: the
    attributes, and the bucket built at the clock's reading. *)
Definition KalshiHttpClient_init (base_url api_key : option string)
    (rate_limit_per_minute : Z) : M KalshiHttpClient :=
  let base_url := str_or base_url BASE_URL id in
  let api_key := str_or api_key API_KEY Some in
  do! new_TokenBucket (inject_Z rate_limit_per_minute)
                      (inject_Z rate_limit_per_minute / 60) in
  ret (mkClient base_url api_key).

(** The client of a route call is local to it, and its bucket with it: the
    bucket of the world, the polling client's, is as it was. *)
Definition leave (before after : World) : World :=
  set_rate_limiter (rate_limiter before) after.

(** [kalshi_markets(cursor, limit)]. *)
Definition kalshi_markets (cursor limit : PyVal) (w : World) : RouteRun :=
  match KalshiHttpClient_init None None RATE_LIMIT_PER_MINUTE w with
  | (Ret client, w1) =>
      match get_markets client limit cursor (PStr "exclude") PNone w1 with
      | (Ret result, w2) => mkRouteRun (Responds result) (leave w w2) true
      | (Raise e, w2) =>
          mkRouteRun (if is_Exception e then HTTPException 503 e
                      else Escapes e)
                     (leave w w2) false
      | (Stall, w2) => mkRouteRun Hangs (leave w w2) false
      end
  | (Raise e, w1) => mkRouteRun (Escapes e) (leave w w1) false
  | (Stall, w1) => mkRouteRun Hangs (leave w w1) false
  end.

(** [kalshi_events(cursor, limit)]. *)
Definition kalshi_events (cursor limit : PyVal) (w : World) : RouteRun :=
  match KalshiHttpClient_init None None RATE_LIMIT_PER_MINUTE w with
  | (Ret client, w1) =>
      match get_events client limit cursor w1 with
      | (Ret result, w2) => mkRouteRun (Responds result) (leave w w2) true
      | (Raise e, w2) =>
          mkRouteRun (if is_Exception e then HTTPException 503 e
                      else Escapes e)
                     (leave w w2) false
      | (Stall, w2) => mkRouteRun Hangs (leave w w2) false
      end
  | (Raise e, w1) => mkRouteRun (Escapes e) (leave w w1) false
  | (Stall, w1) => mkRouteRun Hangs (leave w w1) false
  end.

(** The two routes, by resource. *)
Definition route (r : Resource) : PyVal -> PyVal -> World -> RouteRun :=
  match r with
  | Markets => kalshi_markets
  | Events => kalshi_events
  end.

(** The client a route builds, and the request it sends. *)
Definition route_client : KalshiHttpClient :=
  mkClient BASE_URL (str_or None API_KEY Some).

Definition route_request (r : Resource) (cursor limit : PyVal) : Request :=
  match r with
  | Markets =>
      let params : gmap string PyVal :=
        <[ "mve_filter" := PStr "exclude" ]> {[ "limit" := limit ]} in
      let params :=
        if truthy cursor then <[ "cursor" := cursor ]> params else params in
      mkRequest "GET" (BASE_URL +:+ "/markets") (Some params)
                (_headers route_client)
  | Events =>
      let params : gmap string PyVal := {[ "limit" := limit ]} in
      let params :=
        if truthy cursor then <[ "cursor" := cursor ]> params else params in
      mkRequest "GET" (BASE_URL +:+ "/events") (Some params)
                (_headers route_client)
  end.

End IngestRoutes.

(* ===================================================================== *)
(** ** db.py: the connection pool                                         *)
(* ===================================================================== *)

(** The module global [_pool] (a pool is named by its rank among the pools
    created), the pools [asyncpg.create_pool] has returned so far, those
    closed, and the outcomes of the [create_pool] calls to come ([None]: a
    pool is returned). *)
Record Pools : Type := mkPools {
  _pool : option nat;
  pools_created : nat;
  pools_closed : list nat;
  create_pool_outcomes : list (option exn)
}.

(** [get_pool()]. *)
Definition get_pool (s : Pools) : res nat * Pools :=
  match _pool s with
  | Some p => (Ret p, s)
  | None =>
      match create_pool_outcomes s with
      | [] => (Stall, s)
      | Some e :: rest =>
          (Raise e, mkPools None (pools_created s) (pools_closed s) rest)
      | None :: rest =>
          let p := pools_created s in
          (Ret p, mkPools (Some p) (S p) (pools_closed s) rest)
      end
  end.

(** [close_pool()]; [_pool.close()] is taken to return. *)
Definition close_pool (s : Pools) : res unit * Pools :=
  match _pool s with
  | Some p =>
      (Ret tt, mkPools None (pools_created s) (p :: pools_closed s)
                       (create_pool_outcomes s))
  | None => (Ret tt, s)
  end.

(* ===================================================================== *)
(** ** db.py: the single-record upserts                                   *)
(* ===================================================================== *)

(** How an entry of the [values] literal is computed from [raw]: like an
    entry of the batch's [rec] literal, or as
    [json.dumps(raw.get(col)) if raw.get(col) is not None else None]. *)
Inductive single_conversion : Type := Like (c : conversion) | Dumps.

(** The [values] literal of [upsert_market], entry by entry. *)
Definition upsert_market_values : list (string * single_conversion) :=
  [
    ("ticker", Like Key); ("event_ticker", Like Plain);
    ("market_type", Like Plain); ("title", Like Plain);
    ("subtitle", Like Plain); ("yes_sub_title", Like Plain);
    ("no_sub_title", Like Plain); ("created_time", Like Plain);
    ("open_time", Like Plain); ("close_time", Like Plain);
    ("expiration_time", Like Plain); ("latest_expiration_time", Like Plain);
    ("expected_expiration_time", Like Plain);
    ("settlement_timer_seconds", Like AsInt); ("status", Like Plain);
    ("response_price_units", Like Plain); ("yes_bid", Like AsInt);
    ("yes_bid_dollars", Like AsDecimal); ("yes_ask", Like AsInt);
    ("yes_ask_dollars", Like AsDecimal); ("no_bid", Like AsInt);
    ("no_bid_dollars", Like AsDecimal); ("no_ask", Like AsInt);
    ("no_ask_dollars", Like AsDecimal); ("last_price", Like AsInt);
    ("last_price_dollars", Like AsDecimal); ("volume", Like AsInt);
    ("volume_24h", Like AsInt); ("result", Like Plain);
    ("can_close_early", Like Plain); ("open_interest", Like AsInt);
    ("notional_value", Like AsInt); ("notional_value_dollars", Like AsDecimal);
    ("previous_yes_bid", Like AsInt);
    ("previous_yes_bid_dollars", Like AsDecimal);
    ("previous_yes_ask", Like AsInt);
    ("previous_yes_ask_dollars", Like AsDecimal);
    ("previous_price", Like AsInt); ("previous_price_dollars", Like AsDecimal);
    ("liquidity", Like AsInt); ("liquidity_dollars", Like AsDecimal);
    ("expiration_value", Like Plain); ("category", Like Plain);
    ("risk_limit_cents", Like AsInt); ("tick_size", Like AsInt);
    ("rules_primary", Like Plain); ("rules_secondary", Like Plain);
    ("price_level_structure", Like Plain); ("price_ranges", Like Plain);
    ("settlement_value", Like AsInt);
    ("settlement_value_dollars", Like AsDecimal);
    ("fee_waiver_expiration_time", Like AsDatetime);
    ("early_close_condition", Like Plain); ("strike_type", Like Plain);
    ("floor_strike", Like AsDecimal); ("cap_strike", Like AsDecimal);
    ("functional_strike", Like Plain); ("custom_strike", Dumps);
    ("mve_collection_ticker", Like Plain); ("mve_selected_legs", Like Plain);
    ("primary_participant_key", Like Plain)
  ].

(** [cols] of [upsert_market]. *)
Definition upsert_market_cols : list string :=
  [
    "ticker"; "event_ticker"; "market_type"; "title"; "subtitle";
    "yes_sub_title"; "no_sub_title"; "created_time"; "open_time"; "close_time";
    "expiration_time"; "latest_expiration_time"; "expected_expiration_time";
    "settlement_timer_seconds"; "status"; "response_price_units"; "yes_bid";
    "yes_bid_dollars"; "yes_ask"; "yes_ask_dollars"; "no_bid";
    "no_bid_dollars"; "no_ask"; "no_ask_dollars"; "last_price";
    "last_price_dollars"; "volume"; "volume_24h"; "result"; "can_close_early";
    "open_interest"; "notional_value"; "notional_value_dollars";
    "previous_yes_bid"; "previous_yes_bid_dollars"; "previous_yes_ask";
    "previous_yes_ask_dollars"; "previous_price"; "previous_price_dollars";
    "liquidity"; "liquidity_dollars"; "expiration_value"; "category";
    "risk_limit_cents"; "tick_size"; "rules_primary"; "rules_secondary";
    "price_level_structure"; "price_ranges"; "settlement_value";
    "settlement_value_dollars"; "fee_waiver_expiration_time";
    "early_close_condition"; "strike_type"; "floor_strike"; "cap_strike";
    "functional_strike"; "custom_strike"; "mve_collection_ticker";
    "mve_selected_legs"; "primary_participant_key"
  ].

(** The columns of the [for dt_col in (...)] loop. *)
Definition upsert_market_dt_cols : list string :=
  [
    "created_time"; "open_time"; "close_time"; "expiration_time";
    "latest_expiration_time"; "expected_expiration_time"
  ].

(** The [values] literal of [upsert_event]. *)
Definition upsert_event_values : list (string * single_conversion) :=
  [
    ("event_ticker", Like Key); ("series_ticker", Like Plain);
    ("sub_title", Like Plain); ("title", Like Plain);
    ("collateral_return_type", Like Plain); ("mutually_exclusive", Like Plain);
    ("category", Like Plain); ("available_on_brokers", Like Plain);
    ("product_metadata", Like Plain); ("strike_date", Like AsDatetime);
    ("strike_period", Like Plain); ("milestones", Like Plain)
  ].

(** The columns of the INSERT of [upsert_event], [updated_at] left out; the
    arguments are [values[col]] in this order, and the SET clause lists every
    one of them but the key. *)
Definition upsert_event_cols : list string :=
  [
    "event_ticker"; "series_ticker"; "sub_title"; "title";
    "collateral_return_type"; "mutually_exclusive"; "category";
    "available_on_brokers"; "product_metadata"; "strike_date"; "strike_period";
    "milestones"
  ].

Section SingleUpserts.
Context `{PyRuntime}.

(** One entry of the literal. *)
Definition project_single (key_value raw : PyVal)
    (f : string * single_conversion) : res (string * PyVal) :=
  match f.2 with
  | Like c => project key_value raw (f.1, c)
  | Dumps =>
      let? v := dict_get raw f.1 in
      if is_None v then Ret (f.1, PNone)
      else let? s := call (json_dumps v) in Ret (f.1, PStr s)
  end.

(** [for dt_col in (...): if values.get(dt_col) is not None:
    values[dt_col] = _as_datetime(values[dt_col])]. *)
Fixpoint convert_datetimes (dt_cols : list string)
    (values : gmap string PyVal) : res (gmap string PyVal) :=
  match dt_cols with
  | [] => Ret values
  | dt_col :: rest =>
      let v := default PNone (values !! dt_col) in
      if is_None v then convert_datetimes rest values
      else
        let? x := _as_datetime v in
        convert_datetimes rest (<[ dt_col := x ]> values)
  end.

(** [vals] of [upsert_market]: the literal, the datetime loop, then
    [[values.get(c) for c in cols]]. *)
Definition upsert_market_arguments (ticker raw : PyVal) : res (list PyVal) :=
  let? entries := res_mapM (project_single ticker raw) upsert_market_values in
  let? values :=
    convert_datetimes upsert_market_dt_cols (list_to_map entries) in
  Ret (map (fun c => default PNone (values !! c)) upsert_market_cols).

(** [upsert_market(raw)], on a connection that [get_pool()] has given.
    The statement is the batch's, run on its own (a statement outside a
    transaction block is its own transaction, and [updated_at] is given as
    [now()]); as there, of the driver's checks of the arguments only the
    one of the key is modelled. *)
Definition upsert_market (raw : PyVal) : M unit :=
  let! ticker := lift (dict_get raw "ticker") in
  if negb (truthy ticker) then ret tt
  else
    let! vals := lift (upsert_market_arguments ticker raw) in
    transaction markets set_markets
                (execute_upsert "ticker" upsert_market_cols vals).

(** The arguments of the statement of [upsert_event]: the literal, then
    [values[col]] column by column. *)
Definition upsert_event_arguments (event_ticker raw : PyVal)
  : res (list PyVal) :=
  let? entries :=
    res_mapM (project_single event_ticker raw) upsert_event_values in
  let values : gmap string PyVal := list_to_map entries in
  Ret (map (fun c => default PNone (values !! c)) upsert_event_cols).

(** [upsert_event(raw)]. *)
Definition upsert_event (raw : PyVal) : M unit :=
  let! event_ticker := lift (dict_get raw "event_ticker") in
  if negb (truthy event_ticker) then ret tt
  else
    let! vals := lift (upsert_event_arguments event_ticker raw) in
    transaction events set_events
                (execute_upsert "event_ticker" upsert_event_cols vals).

End SingleUpserts.

(* ===================================================================== *)
(** ** Vocabulary of the further statements                               *)
(* ===================================================================== *)

(** What a call of [acquire(n)] with outcome [r] was granted. *)
Definition grant (n : Q) (r : res unit) : Q :=
  match r with
  | Ret _ => n
  | _ => 0
  end.

(** The sum of a list of durations. *)
Definition total (l : list Q) : Q := foldr Qplus 0%Q l.

Section BatchVocabulary.
Context `{PyRuntime}.

(** The last record of a batch that carries the key [k]. *)
Definition last_with_key (key k : string) (raws : list PyVal)
  : option PyVal :=
  last (filter (fun raw => key_of key raw = Some k) raws).

(** The SET clause applied to the columns of a stored row. *)
Definition overwrite (key : string) (col_names : list string)
    (excluded cols : gmap string PyVal) : gmap string PyVal :=
  foldr (fun col cols => <[ col := default PNone (excluded !! col) ]> cols)
        cols (update_sets key col_names).

(** The row a key holds once the record [d] was upserted at [now], [old]
    being what the key held before. *)
Definition row_after (key : string) (fields : list (string * conversion))
    (jsonb_cols col_names : list string) (now : Q) (old : option Row)
    (d : gmap string PyVal) : Row :=
  let excluded := excluded_row key fields jsonb_cols col_names d in
  match old with
  | Some old =>
      mkRow (overwrite key col_names excluded (row_cols old))
            (created_at old) now
  | None => mkRow excluded now now
  end.

End BatchVocabulary.

(** The data a table holds: the columns of every row, its two timestamps
    left out. *)
Definition columns (table : gmap string Row)
  : gmap string (gmap string PyVal) :=
  row_cols <$> table.

(** The cursors of the requests for a run of pages, the first one asked
    with [cursor], and the cursor the run leaves for the next request. *)
Fixpoint cursors_sent (cursor : PyVal) (pages : list (list PyVal * PyVal))
  : list PyVal :=
  match pages with
  | [] => []
  | p :: rest => cursor :: cursors_sent p.2 rest
  end.

Fixpoint next_cursor (cursor : PyVal) (pages : list (list PyVal * PyVal))
  : PyVal :=
  match pages with
  | [] => cursor
  | p :: rest => next_cursor p.2 rest
  end.

(** A float that [max(0.0, min(1.0, p))] can yield: 0.0, 1.0, or a value
    strictly between them. *)
Definition unit_price (p : pyfloat) : Prop :=
  match p with
  | FFinite x => x = 0%Q \/ x = 1%Q \/ (0 < x)%Q /\ (x < 1)%Q
  | _ => False
  end.

(** [float] and [lower] for the examples: numbers and plain decimal text;
    ASCII letters. *)
Definition example_float (v : PyVal) : string + pyfloat :=
  match ExampleRuntime.float_ v with
  | inr (PFloat x) => inr x
  | inr _ => inl "TypeError"
  | inl cls => inl cls
  end.

Definition ascii_lower (a : ascii) : ascii :=
  let n := N_of_ascii a in
  if ((65 <=? n) && (n <=? 90))%N then ascii_of_N (n + 32) else a.

Fixpoint example_lower (s : string) : string :=
  match s with
  | EmptyString => EmptyString
  | String a s' => String (ascii_lower a) (example_lower s')
  end.

(** [int] for the examples: plain decimal text. *)
Definition example_int (s : string) : string + Z :=
  match ExampleRuntime.int_of_text s with
  | Some n => inr n
  | None => inl "ValueError"
  end.


(** Whether the [acquire(1)] of a call from [w] returns, as a number; and
    the calls of a sequence whose [acquire(1)] returned. *)
Definition granted_call (w : World) : nat :=
  match (acquire 1 w).1 with
  | Ret _ => 1
  | _ => 0
  end.

Fixpoint granted_calls (self : KalshiHttpClient) (cs : list ClientCall)
    (w : World) : nat :=
  match cs with
  | [] => 0
  | c :: cs' =>
      granted_call w + granted_calls self cs' (client_call self c w).2
  end.

(** Calls of the two functions, one after the other. *)
Inductive PoolCall : Type := CallGetPool | CallClosePool.

Definition pool_call (c : PoolCall) (s : Pools) : Pools :=
  match c with
  | CallGetPool => (get_pool s).2
  | CallClosePool => (close_pool s).2
  end.

Definition pool_calls (cs : list PoolCall) (s : Pools) : Pools :=
  foldl (fun s c => pool_call c s) s cs.

(** The module as imported. *)
Definition no_pool (outcomes : list (option exn)) : Pools :=
  mkPools None 0 [] outcomes.

(** The pools created and not closed. *)
Definition open_pools (s : Pools) : list nat :=
  filter (fun p => p ∉ pools_closed s) (seq 0 (pools_created s)).

(** What the calls keep: the open pools are the current one, if any, and
    only pools that were created are closed. *)
Definition pooled (s : Pools) : Prop :=
  open_pools s = match _pool s with Some p => [p] | None => [] end /\
  Forall (fun p => (p < pools_created s)%nat) (pools_closed s).

(* --------------------------------------------------------------------- *)
(** ** Vocabulary: the single-record upserts and the schema               *)
(* --------------------------------------------------------------------- *)

#[local] Instance single_conversion_eq_dec : EqDecision single_conversion.
Proof. solve_decision. Defined.

#[local] Instance SqlType_eq_dec : EqDecision SqlType.
Proof. solve_decision. Defined.

(** The conversion a column has gone through once the [values] literal and
    the datetime loop are done. *)
Definition batch_conversion (dt_cols : list string)
    (f : string * single_conversion) : conversion :=
  match f.2 with
  | Like Plain => if bool_decide (f.1 ∈ dt_cols) then AsDatetime else Plain
  | Like c => c
  | Dumps => Plain
  end.

(** What ties the constants of a single-record upsert to those of the batch
    upsert of the same table: the same columns in the same order; entry by
    entry the same conversion, where the datetime loop counts as
    [_as_datetime] and [json.dumps] as no conversion; the loop runs over
    distinct entries copied from the raw record, none of them a JSONB
    column; [json.dumps] is applied to JSONB columns only. *)
Definition single_ok (fields : list (string * conversion))
    (jsonb_cols col_names : list string)
    (sfields : list (string * single_conversion))
    (dt_cols cols : list string) : Prop :=
  cols = col_names /\
  map (fun f => (f.1, batch_conversion dt_cols f)) sfields = fields /\
  NoDup dt_cols /\
  Forall (fun c => (c, Like Plain) ∈ sfields /\ c ∉ jsonb_cols) dt_cols /\
  Forall (fun f => f.2 = Dumps -> f.1 ∈ jsonb_cols) sfields.

(** [isinstance(v, str)]. *)
Definition is_str (v : PyVal) : bool :=
  match v with
  | PStr _ => true
  | _ => false
  end.

Section SingleVocabulary.
Context `{PyRuntime}.

(** The shape the two argument lists share ([upsert_event] has no datetime
    loop). *)
Definition single_arguments (sfields : list (string * single_conversion))
    (dt_cols cols : list string) (key_value raw : PyVal)
  : res (list PyVal) :=
  let? entries := res_mapM (project_single key_value raw) sfields in
  let? values := convert_datetimes dt_cols (list_to_map entries) in
  Ret (map (fun c => default PNone (values !! c)) cols).

(** The shape the two single-record upserts share. *)
Definition single_upsert (key : string)
    (sfields : list (string * single_conversion))
    (dt_cols cols : list string) (get : World -> gmap string Row)
    (set : gmap string Row -> World -> World) (raw : PyVal) : M unit :=
  let! key_value := lift (dict_get raw key) in
  if negb (truthy key_value) then ret tt
  else
    let! vals := lift (single_arguments sfields dt_cols cols key_value raw) in
    transaction get set (execute_upsert key cols vals).

(** [json.dumps(v) if v is not None else None], [None] standing for a
    refusal of [json.dumps]. *)
Definition dumped (v : PyVal) : PyVal :=
  if is_None v then PNone
  else value (let? s := call (json_dumps v) in Ret (PStr s)).

(** The entry of [values] for one field of a raw record [d]. *)
Definition single_field_value (key_value : PyVal) (d : gmap string PyVal)
    (f : string * single_conversion) : PyVal :=
  match f.2 with
  | Like c => field_value key_value d (f.1, c)
  | Dumps => dumped (default PNone (d !! f.1))
  end.

(** [json.dumps] accepts what the record holds for the entries it is
    applied to. *)
Definition dumps_accepted (sfields : list (string * single_conversion))
    (d : gmap string PyVal) : bool :=
  forallb
    (fun f : string * single_conversion =>
       match f.2 with
       | Dumps =>
           let v := default PNone (d !! f.1) in
           is_None v ||
           match json_dumps v with
           | inr _ => true
           | inl _ => false
           end
       | Like _ => true
       end)
    sfields.

(** What a single-record upsert sends for a column: [json.dumps] of the raw
    value where the literal applies it, the raw value as it is for the
    other JSONB columns, and what the batch upsert sends for the rest. *)
Definition single_argument (key : string)
    (fields : list (string * conversion)) (jsonb_cols : list string)
    (sfields : list (string * single_conversion)) (d : gmap string PyVal)
    (col : string) : PyVal :=
  let v := default PNone (d !! col) in
  if bool_decide ((col, Dumps) ∈ sfields) then dumped v
  else if bool_decide (col ∈ jsonb_cols) then v
  else argument jsonb_cols (typed_record key fields d) col.

(** The JSONB values of a record on which the two paths do the same: no
    [str] where the single-record upsert applies [json.dumps] (it would be
    encoded a second time), and [None] or a [str] where it sends the raw
    value (anything else would go to the driver unserialized). *)
Definition alike (jsonb_cols : list string)
    (sfields : list (string * single_conversion)) (raw : PyVal) : bool :=
  match raw with
  | PDict d =>
      forallb
        (fun col =>
           let v := default PNone (d !! col) in
           if bool_decide ((col, Dumps) ∈ sfields) then negb (is_str v)
           else is_None v || is_str v)
        jsonb_cols
  | _ => true
  end.

Definition single_values_of (r : Resource)
  : list (string * single_conversion) :=
  match r with
  | Markets => upsert_market_values
  | Events => upsert_event_values
  end.

Definition dt_cols_of (r : Resource) : list string :=
  match r with Markets => upsert_market_dt_cols | Events => [] end.

Definition single_cols_of (r : Resource) : list string :=
  match r with Markets => upsert_market_cols | Events => upsert_event_cols end.

(** The single-record upsert of a resource, and the arguments of its
    statement. *)
Definition upsert (r : Resource) : PyVal -> M unit :=
  match r with Markets => upsert_market | Events => upsert_event end.

Definition upsert_arguments (r : Resource)
  : PyVal -> PyVal -> res (list PyVal) :=
  match r with
  | Markets => upsert_market_arguments
  | Events => upsert_event_arguments
  end.

Definition sent_alike (r : Resource) (raw : PyVal) : bool :=
  alike (jsonb_cols_of r) (single_values_of r) raw.

Definition single_argument_in (r : Resource) (d : gmap string PyVal)
    (col : string) : PyVal :=
  single_argument (key_name r) (fields_of r) (jsonb_cols_of r)
                  (single_values_of r) d col.

End SingleVocabulary.

(** A market that carries JSONB values. *)
Definition market_structured : gmap string PyVal :=
  <[ "ticker" := PStr "TEST-UPSERT-002" ]>
    (<[ "title" := PStr "Structured" ]>
       (<[ "open_time" := PStr "2025-12-11T12:00:00Z" ]>
          (<[ "price_ranges" := PList [] ]>
             (<[ "custom_strike" := PList [] ]> ∅)))).

(** The DDL of a resource's table. *)
Definition ddl_of (r : Resource) : list Column :=
  match r with Markets => markets_columns | Events => events_columns end.

(** A value that went through the conversion [c] goes to a column of type
    [ty]: the key and unconverted values to TEXT (or BOOLEAN), serialized
    values to JSONB, the results of [_as_int], [_as_decimal] and
    [_as_datetime] to integer, NUMERIC and TIMESTAMPTZ columns. *)
Definition accepts (ty : SqlType) (c : conversion) (jsonb : bool) : bool :=
  match c, ty with
  | Key, TEXT => negb jsonb
  | Plain, JSONB => jsonb
  | Plain, (TEXT | BOOLEAN) => negb jsonb
  | AsInt, (INTEGER | BIGINT) => negb jsonb
  | AsDecimal, NUMERIC _ _ => negb jsonb
  | AsDatetime, TIMESTAMPTZ => negb jsonb
  | _, _ => false
  end.

(** The columns [cols] of a table are those the upserts of the resource
    write: the columns of the INSERT in its order, then [created_at] and
    [updated_at], the only ones with a default; the conflict key is the
    one PRIMARY KEY; the JSONB columns are the serialized ones; every entry
    of the [rec] literal has a column whose type takes its conversion. *)
Definition fits (r : Resource) (cols : list Column) : Prop :=
  map column_name cols = col_names_of r ++ ["created_at"; "updated_at"] /\
  map column_name (filter (fun c => primary_key c = true) cols) =
    [key_name r] /\
  filter (fun c => default_now c = true) cols =
    [mkColumn "created_at" TIMESTAMPTZ false true;
     mkColumn "updated_at" TIMESTAMPTZ false true] /\
  map column_name (filter (fun c => column_type c = JSONB) cols) =
    jsonb_cols_of r /\
  Forall (fun f : string * conversion =>
            Exists (fun c => column_name c = f.1 /\
                             accepts (column_type c) f.2
                                     (bool_decide (f.1 ∈ jsonb_cols_of r))
                               = true)
                   cols)
         (fields_of r).

(** The statements of [create_tables] are through: the two tables and the
    three indexes exist. *)
Definition created (s : Schema) : Prop :=
  is_Some (schema_tables s !! "markets") /\
  is_Some (schema_tables s !! "events") /\
  is_Some (schema_indexes s !! "idx_markets_event_ticker") /\
  is_Some (schema_indexes s !! "idx_markets_status") /\
  is_Some (schema_indexes s !! "idx_events_series_ticker").

(** A database without tables or indexes, and one that has an [events]
    table of an older shape. *)
Definition no_schema : Schema := mkSchema ∅ ∅.

Definition older_schema : Schema :=
  mkSchema
    {[ "events" := [mkColumn "event_ticker" TEXT true false;
                    mkColumn "series_ticker" TEXT false false] ]}
    ∅.

(* ===================================================================== *)
(** * Properties                                                          *)
(* ===================================================================== *)

(* --------------------------------------------------------------------- *)
(** ** TokenBucket                                                        *)
(* --------------------------------------------------------------------- *)

Section TokenBucketFacts.

Lemma refill_at_le_capacity (b : TokenBucket) (now : Q) :
  (tokens (refill_at b now) <= capacity b)%Q.
Proof. unfold refill_at; simpl. apply Q.le_min_l. Qed.

Lemma refill_at_in_bounds (b : TokenBucket) (now : Q) :
  (0 <= capacity b)%Q -> (0 <= refill_rate_per_second b)%Q ->
  (0 <= tokens b)%Q -> (last_refill b <= now)%Q ->
  in_bounds (refill_at b now).
Proof.
  intros Hc Hr Ht He. split; [| exact (refill_at_le_capacity b now)].
  unfold refill_at; simpl. apply Q.min_glb; [exact Hc |].
  assert (0 <= (now - last_refill b) * refill_rate_per_second b)%Q.
  { apply Qmult_le_0_compat; [lra | exact Hr]. }
  lra.
Qed.

Lemma deduct_in_bounds (b : TokenBucket) (n : Q) :
  (0 <= n)%Q -> (n <= tokens b)%Q -> (tokens b <= capacity b)%Q ->
  in_bounds (deduct b n).
Proof. intros Hn Hle Hcap. split; simpl; lra. Qed.

Lemma refill_steady (w : World) : steady w -> steady (_refill w).2.
Proof.
  intros (Hc & Hr & [Ht Hle] & Hmono). unfold _refill, bind, time_time.
  destruct w as [b c sl n se lg mk ev dn tx]; simpl in *.
  destruct c as [| t rest]; simpl.
  - repeat split; assumption.
  - destruct Hmono as [Het Hmono].
    repeat split; simpl; try assumption;
      apply (refill_at_in_bounds b t); assumption.
Qed.

Lemma acquire_loop_steady (fuel : nat) (n : Q) (w : World) :
  (0 <= n)%Q -> steady w -> steady (acquire_loop fuel n w).2.
Proof.
  intros Hn. revert w. induction fuel as [| fuel IH]; intros w Hw.
  - exact Hw.
  - simpl. unfold bind at 1.
    pose proof (refill_steady w Hw) as Hw1.
    destruct (_refill w) as [[[] | e |] w1]; simpl in Hw1 |- *; try exact Hw1.
    destruct (Qle_bool n (tokens (rate_limiter w1))) eqn:Hle.
    + apply Qle_bool_iff in Hle.
      destruct Hw1 as (Hc & Hr & [Ht Hcap] & Hmono).
      destruct w1 as [b c sl ne se lg mk ev dn tx]; simpl in *.
      repeat split; simpl; try assumption; lra.
    + destruct (Qeq_bool (refill_rate_per_second (rate_limiter w1)) 0);
        [exact Hw1 |].
      unfold bind, asyncio_sleep. apply IH.
      destruct w1 as [b c sl ne se lg mk ev dn tx]; exact Hw1.
Qed.

Lemma bucket_call_steady (c : BucketCall) (w : World) :
  amount_ok c -> steady w -> steady (bucket_call c w).2.
Proof.
  destruct c as [| n]; simpl; intros Hn Hw.
  - apply refill_steady, Hw.
  - apply acquire_loop_steady; assumption.
Qed.

Lemma bucket_calls_steady (cs : list BucketCall) (w : World) :
  Forall amount_ok cs -> steady w -> steady (bucket_calls cs w).
Proof.
  intros Hcs. revert w. induction Hcs as [| c cs Hc _ IH]; intros w Hw.
  - exact Hw.
  - apply IH, bucket_call_steady; assumption.
Qed.

(** After any refill the count is at most the capacity, so a request above
    the capacity finds the test [self.tokens >= tokens] false. *)
Lemma acquire_loop_above_capacity (fuel : nat) (n : Q) (w : World) :
  (capacity (rate_limiter w) < n)%Q ->
  (acquire_loop fuel n w).1 = Stall \/
  (acquire_loop fuel n w).1 = Raise (Exception "ZeroDivisionError").
Proof.
  revert w. induction fuel as [| fuel IH]; intros w Hn.
  - left. reflexivity.
  - simpl. unfold bind at 1, _refill, bind, time_time.
    destruct w as [b c sl ne se lg mk ev dn tx]; simpl in *.
    destruct c as [| t rest]; simpl; [left; reflexivity |].
    destruct (Qle_bool n (Qmin (capacity b)
                (tokens b + (t - last_refill b) * refill_rate_per_second b)))
      eqn:Hle.
    + apply Qle_bool_iff in Hle.
      pose proof (Q.le_min_l (capacity b)
        (tokens b + (t - last_refill b) * refill_rate_per_second b)).
      lra.
    + destruct (Qeq_bool (refill_rate_per_second b) 0);
        [right; reflexivity |].
      unfold bind, asyncio_sleep; simpl. apply IH. simpl. exact Hn.
Qed.

End TokenBucketFacts.

Section AcquireFacts.

(** The loop reads the clock, refills, and deducts in its last turn only,
    after the test [self.tokens >= tokens] has passed. *)
Lemma acquire_loop_outcome (fuel : nat) (n : Q) (w : World) :
  exists used : list Q,
    clock w = used ++ clock (acquire_loop fuel n w).2 /\
    match (acquire_loop fuel n w).1 with
    | Ret _ =>
        (n <= tokens (refilled (rate_limiter w) used))%Q /\
        rate_limiter (acquire_loop fuel n w).2 =
          deduct (refilled (rate_limiter w) used) n
    | _ =>
        rate_limiter (acquire_loop fuel n w).2 =
          refilled (rate_limiter w) used
    end.
Proof.
  revert w. induction fuel as [| fuel IH]; intros w.
  - exists []. split; reflexivity.
  - simpl. unfold bind at 1 2, _refill, bind, time_time.
    destruct w as [b c sl ne se lg mk ev dn tx]; simpl.
    destruct c as [| t rest]; simpl.
    + exists []. split; reflexivity.
    + destruct (Qle_bool n (Qmin (capacity b)
                (tokens b + (t - last_refill b) * refill_rate_per_second b)))
        eqn:Hle.
      * exists [t]. simpl. split; [reflexivity |].
        apply Qle_bool_iff in Hle. split; [exact Hle | reflexivity].
      * destruct (Qeq_bool (refill_rate_per_second b) 0).
        -- exists [t]. simpl. split; reflexivity.
        -- unfold bind, asyncio_sleep; simpl.
           match goal with
           | |- context [acquire_loop fuel n ?w1] =>
               destruct (IH w1) as (used & Hclock & Hout)
           end.
           simpl in Hclock, Hout.
           exists (t :: used). simpl. split; [now rewrite <- Hclock |].
           exact Hout.
Qed.

(** With more fuel than readings, only an exhausted clock stalls the
    loop. *)
Lemma acquire_loop_stall (fuel : nat) (n : Q) (w : World) :
  (length (clock w) < fuel)%nat ->
  (acquire_loop fuel n w).1 = Stall ->
  clock (acquire_loop fuel n w).2 = [].
Proof.
  revert w. induction fuel as [| fuel IH]; intros w Hfuel; [lia |].
  simpl. unfold bind at 1 2, _refill, bind, time_time.
  destruct w as [b c sl ne se lg mk ev dn tx]; simpl in *.
  destruct c as [| t rest]; simpl in *; [reflexivity |].
  destruct (Qle_bool n _); [discriminate |].
  destruct (Qeq_bool (refill_rate_per_second b) 0); [discriminate |].
  unfold bind, asyncio_sleep; simpl. apply IH. simpl. lia.
Qed.

(** A first turn that finds enough tokens ends the call. *)
Lemma acquire_now (n : Q) (w : World) (t : Q) (rest : list Q) :
  clock w = t :: rest ->
  Qle_bool n (tokens (refill_at (rate_limiter w) t)) = true ->
  acquire n w =
    (Ret tt,
     set_rate_limiter (deduct (refill_at (rate_limiter w) t) n)
                      (set_clock rest w)).
Proof.
  intros Hclock Hle. unfold acquire. rewrite Hclock.
  cbn [length acquire_loop]. unfold bind at 1, _refill, bind, time_time.
  rewrite Hclock. cbn [fst snd set_clock set_rate_limiter rate_limiter].
  rewrite Hle. destruct w; reflexivity.
Qed.

(** [acquire] reads the bucket and the clock only: in any world it does
    what it does in a world that holds nothing else, and appends its sleeps
    to those already made. *)
Lemma acquire_loop_alone (fuel : nat) (n : Q) :
  forall (b : TokenBucket) (c sl : list Q) ne se lg mk ev dn tx,
    let r := acquire_loop fuel n (bucket_world b c) in
    acquire_loop fuel n (mkWorld b c sl ne se lg mk ev dn tx) =
      (r.1,
       mkWorld (rate_limiter r.2) (clock r.2) (sl ++ slept r.2)
               ne se lg mk ev dn tx).
Proof.
  induction fuel as [| fuel IH]; intros b c sl ne se lg mk ev dn tx.
  - simpl. rewrite app_nil_r. reflexivity.
  - cbn zeta. unfold bucket_world. cbn [acquire_loop].
    unfold bind at 1 3, _refill, bind, time_time. cbn [clock].
    destruct c as [| t rest]; cbn [fst snd set_clock set_rate_limiter
      rate_limiter clock slept net sent logged markets events dbnow txn].
    + rewrite app_nil_r. reflexivity.
    + destruct (Qle_bool n (tokens (refill_at b t))).
      * cbn [fst snd rate_limiter clock slept]. rewrite app_nil_r.
        reflexivity.
      * destruct (Qeq_bool (refill_rate_per_second (refill_at b t)) 0).
        -- cbn [fst snd rate_limiter clock slept]. rewrite app_nil_r.
           reflexivity.
        -- unfold bind, asyncio_sleep, set_slept, set_rate_limiter,
             set_clock.
           cbn [fst snd rate_limiter clock slept net sent logged markets
                events dbnow txn app].
           rewrite (IH (refill_at b t) rest (sl ++ [_])).
           rewrite (IH (refill_at b t) rest [_]).
           cbn [fst snd rate_limiter clock slept].
           rewrite <- app_assoc. reflexivity.
Qed.

Lemma acquire_alone (n : Q) (w : World) :
  let r := acquire n (bucket_world (rate_limiter w) (clock w)) in
  acquire n w =
    (r.1,
     mkWorld (rate_limiter r.2) (clock r.2) (slept w ++ slept r.2)
             (net w) (sent w) (logged w) (markets w) (events w) (dbnow w)
             (txn w)).
Proof.
  destruct w as [b c sl ne se lg mk ev dn tx]. unfold acquire.
  cbn [clock rate_limiter slept net sent logged markets events dbnow txn
       bucket_world].
  apply acquire_loop_alone.
Qed.

End AcquireFacts.

(** C5, as amended.  For a bucket of non-negative capacity and refill rate
    whose count lies in [0, capacity] (a freshly built one does), a clock
    that never goes back (non-negative elapsed times) and calls that ask for
    no negative amount, the count stays in [0, capacity] after every sequence
    of [_refill] and [acquire] calls.  A refill sets the count to
    [min(capacity, tokens + elapsed * refill_rate_per_second)]; [acquire]
    changes the count by refills only, and deducts [n] once, when it returns,
    from a count that is at least [n]. *)
Theorem token_bucket_bounds (w : World) (cs : list BucketCall) :
  (0 <= capacity (rate_limiter w))%Q ->
  (0 <= refill_rate_per_second (rate_limiter w))%Q ->
  in_bounds (rate_limiter w) ->
  nondecreasing (last_refill (rate_limiter w)) (clock w) ->
  Forall amount_ok cs ->
  in_bounds (rate_limiter (bucket_calls cs w))
  /\ (forall cap rate now, (0 <= cap)%Q ->
        in_bounds (TokenBucket_init cap rate now))
  /\ (forall b now,
        tokens (refill_at b now) =
          Qmin (capacity b)
               (tokens b + (now - last_refill b) * refill_rate_per_second b)%Q)
  /\ (forall n w0, exists used,
        clock w0 = used ++ clock (acquire n w0).2 /\
        match (acquire n w0).1 with
        | Ret _ =>
            (n <= tokens (refilled (rate_limiter w0) used))%Q /\
            rate_limiter (acquire n w0).2 =
              deduct (refilled (rate_limiter w0) used) n
        | _ =>
            rate_limiter (acquire n w0).2 = refilled (rate_limiter w0) used
        end).
Proof.
  intros Hc Hr Hb Hmono Hcs. repeat split.
  - apply (bucket_calls_steady cs w Hcs). repeat split; try assumption;
      apply Hb.
  - apply (bucket_calls_steady cs w Hcs). repeat split; try assumption;
      apply Hb.
  - exact H.
  - simpl. lra.
  - intros n w0. apply acquire_loop_outcome.
Qed.

(** The bounds at a fresh bucket of capacity 2 refilled at one token every
    two seconds: three acquisitions and a refill over six readings. *)
Lemma token_bucket_bounds_witness :
  let w := bucket_world (TokenBucket_init 2 (1 # 2) 0) [1; 2; 3; 4; 5; 6]%Q in
  let cs := [CallAcquire 1; CallAcquire 1; CallRefill; CallAcquire 1] in
  in_bounds (rate_limiter (bucket_calls cs w)).
Proof.
  intros w cs.
  refine (proj1 (token_bucket_bounds w cs _ _ _ _ _)).
  - vm_compute. discriminate.
  - vm_compute. discriminate.
  - split; vm_compute; discriminate.
  - simpl. repeat split; vm_compute; discriminate.
  - repeat constructor; vm_compute; discriminate.
Defined.

(** C5 as stated fails: nothing checks the parameters.  A bucket built with
    a negative capacity starts below zero; a negative rate takes the count
    below zero at the next refill; a negative amount takes it above the
    capacity.  Elapsed times are non-negative in all three. *)
Lemma token_bucket_unchecked_parameters :
  ~ in_bounds (rate_limiter
      (bucket_calls [] (bucket_world (TokenBucket_init (-1) 1 0) [])))
  /\ ~ in_bounds (rate_limiter
      (bucket_calls [CallRefill]
         (bucket_world (TokenBucket_init 1 (-1) 0) [5%Q])))
  /\ ~ in_bounds (rate_limiter
      (bucket_calls [CallAcquire (-1)]
         (bucket_world (TokenBucket_init 1 1 0) [0%Q]))).
Proof.
  repeat split; intros [Hlo Hhi]; vm_compute in Hlo, Hhi;
    first [now apply Hlo | now apply Hhi].
Qed.

(** C6, as amended.  The constructor checks nothing: with a clock reading at
    hand it returns a bucket for any capacity and rate.  A request of more
    tokens than the capacity never succeeds, on any bucket: every refill
    leaves the count at or below the capacity, so [acquire] never deducts
    and never returns.  It shows at call time only: the call goes on waiting
    (here, through every reading of the clock), or raises
    [ZeroDivisionError] when the refill rate is 0. *)
Theorem acquire_above_capacity (cap rate n : Q) (w : World) :
  (cap < n)%Q ->
  clock w <> [] ->
  (new_TokenBucket cap rate w).1 = Ret tt
  /\ capacity (rate_limiter (new_TokenBucket cap rate w).2) = cap
  /\ ((acquire n (new_TokenBucket cap rate w).2).1 = Stall \/
      (acquire n (new_TokenBucket cap rate w).2).1 =
        Raise (Exception "ZeroDivisionError"))
  /\ (forall w' : World,
        (capacity (rate_limiter w') < n)%Q -> (acquire n w').1 <> Ret tt).
Proof.
  intros Hn Hclock.
  assert (Hany : forall w' : World,
             (capacity (rate_limiter w') < n)%Q ->
             (acquire n w').1 = Stall \/
             (acquire n w').1 = Raise (Exception "ZeroDivisionError")).
  { intros w' Hw'. apply acquire_loop_above_capacity, Hw'. }
  destruct w as [b c sl ne se lg mk ev dn tx]; simpl in Hclock.
  destruct c as [| t rest]; [congruence |].
  repeat split.
  - apply Hany. exact Hn.
  - intros w' Hw' Hret. destruct (Hany w' Hw') as [Hs | Hs];
      rewrite Hs in Hret; discriminate.
Qed.

(** A bucket of capacity 0 asked for one token. *)
Lemma acquire_above_capacity_witness :
  let w := bucket_world (TokenBucket_init 5 1 0) [10; 11; 12]%Q in
  (acquire 1 (new_TokenBucket 0 1 w).2).1 = Stall \/
  (acquire 1 (new_TokenBucket 0 1 w).2).1 =
    Raise (Exception "ZeroDivisionError").
Proof.
  intros w.
  refine (proj1 (proj2 (proj2 (acquire_above_capacity 0 1 1 w _ _)))).
  - reflexivity.
  - discriminate.
Defined.

(** C6 as stated fails: building a bucket that can never serve a request is
    no error.  With capacity 0 the constructor returns, and it is the call
    [acquire(1)] that fails: it raises at run time when the rate is 0, and
    waits through every reading when the rate is 1. *)
Lemma construction_accepts_any_parameters :
  let w := bucket_world (TokenBucket_init 5 1 0) [10; 11; 12]%Q in
  (new_TokenBucket 0 0 w).1 = Ret tt
  /\ (acquire 1 (new_TokenBucket 0 0 w).2).1 =
       Raise (Exception "ZeroDivisionError")
  /\ (new_TokenBucket 0 1 w).1 = Ret tt
  /\ (acquire 1 (new_TokenBucket 0 1 w).2).1 = Stall
  /\ clock (acquire 1 (new_TokenBucket 0 1 w).2).2 = [].
Proof. vm_compute. repeat split. Qed.

(* --------------------------------------------------------------------- *)
(** ** The retrying transport                                             *)
(* --------------------------------------------------------------------- *)

Section RetryFacts.
Variables (self : KalshiHttpClient) (method url : string)
          (params : option (gmap string PyVal)).

Let req : Request := mkRequest method url params (_headers self).

Lemma range_range_from (n : Z) : range n = range_from 0 (Z.to_nat n).
Proof.
  unfold range. generalize (Z.to_nat n) as k. intros k.
  change 0%Z with (Z.of_nat 0). generalize 0%nat as i.
  induction k as [| k IH]; intros i; simpl; [reflexivity |].
  f_equal. rewrite IH. f_equal. lia.
Qed.

(** A run of the loop over a script: [failed] transient outcomes, each
    followed by a warning and a sleep, then the exchange [o] that ends the
    call, because it succeeds, because it is not transient, or because it
    is the last attempt. *)
Lemma retry_loop_run (max_retries : Z) (base_backoff : Q)
    (failed : list (exn + PyVal)) :
  forall (a : Z) (k : nat) (w : World) (o : exn + PyVal)
         (rest : list (exn + PyVal)),
    (a + Z.of_nat k = max_retries)%Z ->
    (length failed < k)%nat ->
    Forall (fun o => transient o = true) failed ->
    net w = failed ++ o :: rest ->
    transient o = false \/ S (length failed) = k ->
    retry_loop self method url params max_retries base_backoff
               (range_from a k) w =
      (outcome o,
       mkWorld (rate_limiter w) (clock w)
               (slept w ++ backoffs base_backoff a (length failed))
               rest
               (sent w ++ repeat req (S (length failed)))
               (logged w ++ warnings base_backoff max_retries a failed
                         ++ final_log o)
               (markets w) (events w) (dbnow w) (txn w)).
Proof.
  induction failed as [| p failed IH];
    intros a k w o rest Hmax Hk Htrans Hnet Hlast;
    (destruct k as [| k]; [simpl in Hk; lia |]);
    destruct w as [b c sl ne se lg mk ev dn tx]; simpl in Hnet; subst ne.
  - (* the first exchange ends the call *)
    cbn [range_from retry_loop]. unfold try_except, client_request.
    cbn [net sent set_net set_sent length backoffs warnings repeat app
         rate_limiter clock slept logged markets events dbnow txn].
    rewrite !app_nil_r.
    assert (Hends : transient o = true -> (a <? max_retries - 1)%Z = false).
    { intros Ho. destruct Hlast as [Hno | Hk1]; [congruence |].
      apply Z.ltb_ge. simpl in Hk1. lia. }
    destruct o as [e | body]; [| cbn [outcome final_log];
                                 rewrite app_nil_r; reflexivity].
    destruct e as [code | | | | cls |]; cbn [outcome final_log transient] in *;
      rewrite ?app_nil_r; try reflexivity;
      try (rewrite Hends by reflexivity; reflexivity).
    destruct (transient_status code) eqn:Hcode; [| reflexivity].
    rewrite Hends by reflexivity. reflexivity.
  - (* a transient failure, a warning, a sleep, and the loop goes on *)
    apply Forall_cons in Htrans as [Hp Htrans].
    simpl in Hk.
    assert (Hlt : (a <? max_retries - 1)%Z = true)
      by (apply Z.ltb_lt; lia).
    assert (Hlast' : transient o = false \/ S (length failed) = k)
      by (destruct Hlast as [? | Hl]; [left; assumption |
          right; simpl in Hl; lia]).
    cbn [range_from retry_loop]. unfold try_except, client_request.
    cbn [net sent set_net set_sent app].
    assert (Hstep : forall wrn : LogRecord,
      (do! log wrn in
       do! asyncio_sleep (base_backoff * 2 ^ a) in
       retry_loop self method url params max_retries base_backoff
                  (range_from (a + 1) k))
        (mkWorld b c sl (failed ++ o :: rest) (se ++ [req]) lg mk ev dn tx)
      = (outcome o,
         mkWorld b c
           (sl ++ (base_backoff * 2 ^ a)%Q
               :: backoffs base_backoff (a + 1) (length failed))
           rest
           (se ++ req :: repeat req (S (length failed)))
           (lg ++ (wrn :: warnings base_backoff max_retries (a + 1) failed)
               ++ final_log o)
           mk ev dn tx)).
    { intros wrn. unfold bind, log, asyncio_sleep.
      cbn [fst snd set_logged set_slept logged slept rate_limiter clock net
           sent markets events dbnow txn].
      rewrite (IH (a + 1)%Z k _ o rest); [| lia | lia | exact Htrans
                                           | reflexivity | exact Hlast'].
      cbn [rate_limiter clock slept net sent logged markets events dbnow txn
           set_slept set_logged].
      f_equal. f_equal;
        rewrite <- ?app_assoc; reflexivity. }
    destruct p as [e | body]; [| discriminate].
    destruct e as [code | | | | cls |]; try discriminate;
      cbn [length backoffs warnings repeat app].
    + simpl in Hp. rewrite Hp, Hlt. apply Hstep.
    + rewrite Hlt. apply Hstep.
    + rewrite Hlt. apply Hstep.
    + rewrite Hlt. apply Hstep.
Qed.

(** However the script goes, a call sends at most one request per
    attempt. *)
Lemma retry_loop_sent (max_retries : Z) (base_backoff : Q)
    (attempts : list Z) (w : World) :
  exists n : nat,
    (n <= length attempts)%nat /\
    sent (retry_loop self method url params max_retries base_backoff
                     attempts w).2 = sent w ++ repeat req n.
Proof.
  revert w. induction attempts as [| a attempts IH]; intros w.
  - exists 0%nat. simpl. split; [lia | now rewrite app_nil_r].
  - cbn [retry_loop]. unfold try_except, client_request.
    destruct w as [b c sl ne se lg mk ev dn tx]; cbn [net sent].
    destruct ne as [| o ne].
    + exists 0%nat. simpl. split; [lia | now rewrite app_nil_r].
    + cbn [set_net set_sent sent net].
      assert (Hone : exists n : nat, (n <= length (a :: attempts))%nat /\
                se ++ [req] = se ++ repeat req n)
        by (exists 1%nat; simpl; split; [lia | reflexivity]).
      assert (Hgo : forall (wrn : LogRecord) (d : Q),
        exists n : nat, (n <= length (a :: attempts))%nat /\
          sent ((do! log wrn in do! asyncio_sleep d in
                 retry_loop self method url params max_retries base_backoff
                            attempts)
                  (mkWorld b c sl ne (se ++ [req]) lg mk ev dn tx)).2
          = se ++ repeat req n).
      { intros wrn d. unfold bind, log, asyncio_sleep.
        cbn [fst snd set_logged set_slept logged slept rate_limiter clock
             net sent markets events dbnow txn].
        match goal with
        | |- context [retry_loop _ _ _ _ _ _ attempts ?w1] =>
            destruct (IH w1) as (n & Hn & Hsent)
        end.
        exists (S n). split; [simpl; lia |].
        rewrite Hsent. cbn [sent repeat set_slept set_logged].
        rewrite <- app_assoc. reflexivity. }
      destruct o as [e | body]; [| exact Hone].
      destruct e as [code | | | | cls |]; try exact Hone.
      * destruct (transient_status code); [| exact Hone].
        destruct (a <? max_retries - 1)%Z; [apply Hgo | exact Hone].
      * destruct (a <? max_retries - 1)%Z; [apply Hgo | exact Hone].
      * destruct (a <? max_retries - 1)%Z; [apply Hgo | exact Hone].
      * destruct (a <? max_retries - 1)%Z; [apply Hgo | exact Hone].
Qed.

(** [acquire] leaves the HTTP script, the requests sent and the log as
    they are. *)
Lemma acquire_loop_frame (fuel : nat) (n : Q) (w : World) :
  let w' := (acquire_loop fuel n w).2 in
  net w' = net w /\ sent w' = sent w /\ logged w' = logged w /\
  markets w' = markets w /\ events w' = events w /\
  dbnow w' = dbnow w /\ txn w' = txn w.
Proof.
  revert w. induction fuel as [| fuel IH]; intros w; [now repeat split |].
  simpl. unfold bind at 1 2, _refill, bind, time_time.
  destruct w as [b c sl ne se lg mk ev dn tx]; simpl.
  destruct c as [| t rest]; simpl; [now repeat split |].
  destruct (Qle_bool n _); [now repeat split |].
  destruct (Qeq_bool (refill_rate_per_second b) 0); [now repeat split |].
  unfold bind, asyncio_sleep; simpl.
  match goal with
  | |- context [acquire_loop fuel n ?w1] => exact (IH w1)
  end.
Qed.

End RetryFacts.

(** C2.  Once the token is acquired, [_request_with_retry] goes through the
    exchanges in order.  It starts another attempt only after a transient
    outcome (status 429, 502, 503 or 504, or a connection or timeout
    failure) and only while attempts are left, sleeping
    [base_backoff * 2^attempt] in between; the first exchange that succeeds,
    or fails otherwise, or is the last attempt, ends the call with that
    exchange's result.  So: [k < max_retries] failures with status 503
    followed by a success return the success; a status outside the four
    (500, or a 4xx other than 429) is raised at once, with one request sent
    and no sleep; and no call sends more than [max_retries] requests
    (3 by default). *)
Theorem request_retry_policy (self : KalshiHttpClient) (method url : string)
    (params : option (gmap string PyVal)) (max_retries : Z) (base_backoff : Q)
    (w w1 : World) :
  acquire 1 w = (Ret tt, w1) ->
  let call := _request_with_retry self method url params max_retries
                                  base_backoff in
  let req := mkRequest method url params (_headers self) in
  (* the general shape of a run *)
  (forall failed o rest,
      net w = failed ++ o :: rest ->
      Forall (fun o => transient o = true) failed ->
      (Z.of_nat (length failed) < max_retries)%Z ->
      transient o = false \/ Z.of_nat (S (length failed)) = max_retries ->
      (call w).1 = outcome o /\
      sent (call w).2 = sent w ++ repeat req (S (length failed)) /\
      net (call w).2 = rest /\
      slept (call w).2 = slept w1 ++ backoffs base_backoff 0 (length failed))
  (* 503 k times, then a success *)
  /\ (forall (k : nat) body rest,
      (Z.of_nat k < max_retries)%Z ->
      net w = repeat (inl (HTTPStatusError 503)) k ++ inr body :: rest ->
      (call w).1 = Ret body /\
      sent (call w).2 = sent w ++ repeat req (S k))
  (* a status that is not transient *)
  /\ (forall status_code rest,
      (0 < max_retries)%Z ->
      status_code ∉ [429; 502; 503; 504]%Z ->
      net w = inl (HTTPStatusError status_code) :: rest ->
      (call w).1 = Raise (HTTPStatusError status_code) /\
      sent (call w).2 = sent w ++ [req] /\
      slept (call w).2 = slept w1)
  (* the bound on attempts, in any world *)
  /\ (forall w' : World, exists n : nat,
      (Z.of_nat n <= Z.max 0 max_retries)%Z /\
      sent (call w').2 = sent w' ++ repeat req n)
  /\ default_max_retries = 3%Z.
Proof.
  intros Hacq call req.
  assert (Hframe : net w1 = net w /\ sent w1 = sent w).
  { pose proof (acquire_loop_frame (S (length (clock w))) 1 w) as Hf.
    unfold acquire in Hacq. rewrite Hacq in Hf. simpl in Hf. tauto. }
  destruct Hframe as [Hnet1 Hsent1].
  assert (Hrun : forall failed o rest,
      net w = failed ++ o :: rest ->
      Forall (fun o => transient o = true) failed ->
      (Z.of_nat (length failed) < max_retries)%Z ->
      transient o = false \/ Z.of_nat (S (length failed)) = max_retries ->
      (call w).1 = outcome o /\
      sent (call w).2 = sent w ++ repeat req (S (length failed)) /\
      net (call w).2 = rest /\
      slept (call w).2 = slept w1 ++ backoffs base_backoff 0 (length failed)).
  { intros failed o rest Hnet Htrans Hlt Hlast.
    unfold call, _request_with_retry, bind. rewrite Hacq.
    rewrite range_range_from.
    rewrite (retry_loop_run self method url params max_retries base_backoff
               failed 0%Z (Z.to_nat max_retries) w1 o rest);
      [| lia | lia | exact Htrans | congruence
       | destruct Hlast; [left; assumption | right; lia]].
    simpl. rewrite Hsent1. repeat split. }
  split; [exact Hrun |]. split; [| split; [| split; [| reflexivity]]].
  - intros k body rest Hk Hnet.
    assert (Hfailed : Forall (fun o : exn + PyVal => transient o = true)
                             (repeat (inl (HTTPStatusError 503)) k)).
    { clear. induction k as [| k IH]; simpl; constructor;
        [reflexivity | exact IH]. }
    assert (Hlen : (Z.of_nat
              (length (repeat (inl (HTTPStatusError 503) : exn + PyVal) k))
              < max_retries)%Z)
      by (rewrite repeat_length; exact Hk).
    destruct (Hrun _ (inr body) rest Hnet Hfailed Hlen (or_introl eq_refl))
      as (Hres & Hsent & _).
    rewrite repeat_length in Hsent. split; assumption.
  - intros code rest Hmax Hcode Hnet.
    assert (Hno : transient (inl (HTTPStatusError code)) = false).
    { simpl. unfold transient_status.
      apply bool_decide_eq_false. exact Hcode. }
    destruct (Hrun [] (inl (HTTPStatusError code)) rest Hnet
                (Forall_nil_2 _) Hmax (or_introl Hno))
      as (Hres & Hsent & _ & Hslept).
    simpl in Hslept. rewrite app_nil_r in Hslept. repeat split; assumption.
  - intros w'. unfold call, _request_with_retry, bind.
    pose proof (acquire_loop_frame (S (length (clock w'))) 1 w') as Hf.
    fold (acquire 1 w') in Hf. simpl in Hf.
    destruct (acquire 1 w') as [[[] | e |] w2]; simpl in Hf |- *.
    + destruct (retry_loop_sent self method url params max_retries
                  base_backoff (range max_retries) w2) as (n & Hn & Hs).
      exists n. split.
      * unfold range in Hn. rewrite length_map, length_seq in Hn. lia.
      * rewrite Hs. destruct Hf as (_ & -> & _). reflexivity.
    + exists 0%nat. split; [lia |].
      destruct Hf as (_ & -> & _). simpl. now rewrite app_nil_r.
    + exists 0%nat. split; [lia |].
      destruct Hf as (_ & -> & _). simpl. now rewrite app_nil_r.
Qed.

(** Two responses with status 503, then a body: the third attempt returns
    it. *)
Lemma request_retry_policy_witness :
  let w := example_world [inl (HTTPStatusError 503);
                          inl (HTTPStatusError 503);
                          inr (PStr "body")] in
  (_request_with_retry example_client "GET" "u" None 3 1 w).1 =
    Ret (PStr "body").
Proof.
  intros w.
  refine (proj1 (proj1 (proj2
            (request_retry_policy example_client "GET" "u" None 3 1 w
               (acquire 1 w).2 _))
            2%nat (PStr "body") [] _ _)).
  - vm_compute. reflexivity.
  - reflexivity.
  - reflexivity.
Defined.

(** C10.  With [max_retries = 0] the call acquires its token as any other
    call does, then finds [range(0)] empty: it sends no request, raises
    nothing and returns [None].  With a token at hand at the next clock
    reading, the world changes by that reading and that token only. *)
Theorem request_with_no_attempt (self : KalshiHttpClient)
    (method url : string) (params : option (gmap string PyVal))
    (base_backoff : Q) (w : World) (t : Q) (rest : list Q) :
  clock w = t :: rest ->
  (1 <= tokens (refill_at (rate_limiter w) t))%Q ->
  _request_with_retry self method url params 0 base_backoff w =
    (Ret PNone,
     set_rate_limiter (deduct (refill_at (rate_limiter w) t) 1)
                      (set_clock rest w))
  /\ (forall w' : World,
        _request_with_retry self method url params 0 base_backoff w' =
          (match (acquire 1 w').1 with
           | Ret _ => Ret PNone
           | Raise e => Raise e
           | Stall => Stall
           end, (acquire 1 w').2)).
Proof.
  intros Hclock Htokens.
  assert (Hany : forall w' : World,
        _request_with_retry self method url params 0 base_backoff w' =
          (match (acquire 1 w').1 with
           | Ret _ => Ret PNone
           | Raise e => Raise e
           | Stall => Stall
           end, (acquire 1 w').2)).
  { intros w'. unfold _request_with_retry, bind.
    destruct (acquire 1 w') as [[[] | e |] w2]; reflexivity. }
  split; [| exact Hany].
  rewrite Hany, (acquire_now 1 w t rest Hclock); [reflexivity |].
  apply Qle_bool_iff. exact Htokens.
Qed.

(** A fresh client, no attempt allowed: one token and one clock reading are
    used, the scripted exchange stays unused. *)
Lemma request_with_no_attempt_witness :
  let w := example_world [inr (PStr "body")] in
  let r := _request_with_retry example_client "GET" "u" None 0 1 w in
  r.1 = Ret PNone /\ net r.2 = [inr (PStr "body")] /\ sent r.2 = []
  /\ tokens (rate_limiter r.2) = (120 - 1)%Q.
Proof.
  intros w r.
  pose proof (proj1 (request_with_no_attempt example_client "GET" "u" None 1
                       w 1 [2; 3; 4; 5; 6; 7; 8]%Q eq_refl
                       ltac:(vm_compute; discriminate))) as Hr.
  unfold r. rewrite Hr. simpl. auto.
Defined.

(* --------------------------------------------------------------------- *)
(** ** The field conversions                                              *)
(* --------------------------------------------------------------------- *)

Section ConversionFacts.
Context `{PyRuntime}.

Lemma call_caught {A} (r : string + A) (h : res A) :
  try_except_Exception (call r) h =
    match r with
    | inr a => Ret a
    | inl _ => h
    end.
Proof. destruct r; reflexivity. Qed.

Lemma _as_int_returns (v : PyVal) : exists r, _as_int v = Ret r.
Proof.
  unfold _as_int. destruct (is_None v); [eauto |].
  rewrite call_caught. destruct (builtin_int v); [| eauto].
  destruct (builtin_float v) as [c | f]; simpl; [eauto |].
  rewrite call_caught. destruct (builtin_int f); eauto.
Qed.

Lemma _as_decimal_returns (v : PyVal) : exists r, _as_decimal v = Ret r.
Proof.
  unfold _as_decimal. destruct (is_None v); [eauto |].
  destruct (builtin_str v) as [c | s]; simpl; [eauto |].
  rewrite call_caught. destruct (Decimal s); eauto.
Qed.

Lemma _as_datetime_returns (v : PyVal) : exists r, _as_datetime v = Ret r.
Proof.
  unfold _as_datetime. destruct (is_None v); [eauto |].
  destruct (is_int_or_float v).
  { rewrite call_caught. destruct (fromtimestamp v); eauto. }
  destruct (has_tzinfo v); [eauto |].
  destruct (builtin_str v) as [c | s]; simpl; [eauto |].
  rewrite call_caught. destruct (fromisoformat _); eauto.
Qed.

End ConversionFacts.

(** C8.  Whatever the library calls do, the three conversions return: every
    exception of a call is caught and turned into [None].  [None] goes to
    [None]; a value the calls accept goes to what they make of it ([int(v)],
    else [int(float(v))]; [Decimal(str(v))]; [datetime.fromtimestamp(v)] for
    a number, [v] itself for a datetime, else [datetime.fromisoformat] of
    [str(v)] with a final [Z] read as [+00:00]); a value they refuse goes to
    [None]. *)
Theorem conversions_total `{PyRuntime} (v : PyVal) :
  (* they return *)
  ((exists r, _as_int v = Ret r) /\
   (exists r, _as_decimal v = Ret r) /\
   (exists r, _as_datetime v = Ret r))
  (* None *)
  /\ (_as_int PNone = Ret PNone /\ _as_decimal PNone = Ret PNone /\
      _as_datetime PNone = Ret PNone)
  (* _as_int *)
  /\ (is_None v = false ->
      _as_int v =
        Ret match builtin_int v with
            | inr n => n
            | inl _ =>
                match builtin_float v with
                | inr f =>
                    match builtin_int f with
                    | inr n => n
                    | inl _ => PNone
                    end
                | inl _ => PNone
                end
            end)
  (* _as_decimal *)
  /\ (is_None v = false ->
      _as_decimal v =
        Ret match builtin_str v with
            | inr s =>
                match Decimal s with
                | inr d => d
                | inl _ => PNone
                end
            | inl _ => PNone
            end)
  (* _as_datetime *)
  /\ (is_None v = false ->
      _as_datetime v =
        Ret (if is_int_or_float v then
               match fromtimestamp v with
               | inr d => d
               | inl _ => PNone
               end
             else if has_tzinfo v then v
             else
               match builtin_str v with
               | inr s =>
                   match fromisoformat
                           (if endswith_Z s then drop_last s +:+ "+00:00"
                            else s) with
                   | inr d => d
                   | inl _ => PNone
                   end
               | inl _ => PNone
               end)).
Proof.
  split; [| split; [| split; [| split]]].
  - auto using _as_int_returns, _as_decimal_returns, _as_datetime_returns.
  - repeat split.
  - intros Hv. unfold _as_int. rewrite Hv, call_caught.
    destruct (builtin_int v); [| reflexivity].
    destruct (builtin_float v) as [c | f]; simpl; [reflexivity |].
    rewrite call_caught. destruct (builtin_int f); reflexivity.
  - intros Hv. unfold _as_decimal. rewrite Hv.
    destruct (builtin_str v) as [c | s]; simpl; [reflexivity |].
    rewrite call_caught. destruct (Decimal s); reflexivity.
  - intros Hv. unfold _as_datetime. rewrite Hv.
    destruct (is_int_or_float v).
    { rewrite call_caught. destruct (fromtimestamp v); reflexivity. }
    destruct (has_tzinfo v); [reflexivity |].
    destruct (builtin_str v) as [c | s]; simpl; [reflexivity |].
    rewrite call_caught. destruct (fromisoformat _); reflexivity.
Qed.

Section ConversionExamples.
#[local] Existing Instance ExampleRuntime.runtime.

(** On the example runtime: a quantity given as text, and a text that is no
    number. *)
Lemma conversions_total_witness :
  _as_int (PStr "45") = Ret (PInt 45) /\
  _as_int (PStr "4x") = Ret PNone /\
  _as_decimal (PStr "0.4500") = Ret (PDecimal (DFinite false 4500 (-4))) /\
  _as_datetime (PStr "2025-12-11T12:00:00Z") =
    Ret (PDatetime "2025-12-11T12:00:00+00:00") /\
  _as_datetime (PStr "yesterday") = Ret PNone.
Proof.
  pose proof (proj1 (proj2 (proj2 (conversions_total (PStr "45"))))
                eq_refl) as H1.
  pose proof (proj1 (proj2 (proj2 (conversions_total (PStr "4x"))))
                eq_refl) as H2.
  pose proof (proj1 (proj2 (proj2 (proj2
                (conversions_total (PStr "0.4500"))))) eq_refl) as H3.
  pose proof (proj2 (proj2 (proj2 (proj2
                (conversions_total (PStr "2025-12-11T12:00:00Z")))))
                eq_refl) as H4.
  pose proof (proj2 (proj2 (proj2 (proj2
                (conversions_total (PStr "yesterday"))))) eq_refl) as H5.
  exact (conj H1 (conj H2 (conj H3 (conj H4 H5)))).
Defined.

End ConversionExamples.

(* --------------------------------------------------------------------- *)
(** ** The upsert sink                                                    *)
(* --------------------------------------------------------------------- *)

Lemma market_table_ok :
  table_ok "ticker" market_fields market_jsonb_cols market_col_names.
Proof.
  repeat split.
  - apply (bool_decide_unpack _). vm_compute. reflexivity.
  - apply (bool_decide_unpack _). vm_compute. reflexivity.
  - apply (bool_decide_unpack _). vm_compute. reflexivity.
  - apply (bool_decide_unpack _). vm_compute. reflexivity.
  - apply (bool_decide_unpack _). vm_compute. reflexivity.
Qed.

Lemma event_table_ok :
  table_ok "event_ticker" event_fields event_jsonb_cols event_col_names.
Proof.
  repeat split.
  - apply (bool_decide_unpack _). vm_compute. reflexivity.
  - apply (bool_decide_unpack _). vm_compute. reflexivity.
  - apply (bool_decide_unpack _). vm_compute. reflexivity.
  - apply (bool_decide_unpack _). vm_compute. reflexivity.
  - apply (bool_decide_unpack _). vm_compute. reflexivity.
Qed.

Section SinkFacts.
Context `{PyRuntime}.
Variables (key : string) (fields : list (string * conversion))
          (jsonb_cols col_names : list string).
Hypothesis Hok : table_ok key fields jsonb_cols col_names.

Lemma project_dict (key_value : PyVal) (d : gmap string PyVal)
    (f : string * conversion) :
  project key_value (PDict d) f = Ret (f.1, field_value key_value d f).
Proof.
  unfold project, field_value. destruct f as [col conv]; simpl.
  destruct conv; simpl; try reflexivity.
  - destruct (_as_int_returns (default PNone (d !! col))) as [r ->].
    reflexivity.
  - destruct (_as_decimal_returns (default PNone (d !! col))) as [r ->].
    reflexivity.
  - destruct (_as_datetime_returns (default PNone (d !! col))) as [r ->].
    reflexivity.
Qed.

Lemma project_all (key_value : PyVal) (d : gmap string PyVal)
    (fs : list (string * conversion)) :
  res_mapM (project key_value (PDict d)) fs =
    Ret (map (fun f => (f.1, field_value key_value d f)) fs).
Proof.
  induction fs as [| f fs IH]; simpl; [reflexivity |].
  rewrite project_dict. simpl. rewrite IH. reflexivity.
Qed.

(** On dicts, the first loop builds the typed records of the keyed ones. *)
Lemma build_records_dicts (raws : list PyVal) :
  Forall (fun raw => is_dict raw = true) raws ->
  build_records key fields raws = Ret (records_of key fields raws).
Proof.
  induction 1 as [| raw raws Hraw _ IH]; [reflexivity |].
  destruct raw as [| | | | | | d | |]; try discriminate. simpl.
  destruct (truthy (default PNone (d !! key))); simpl.
  - rewrite project_all. simpl. rewrite IH. reflexivity.
  - exact IH.
Qed.

Lemma typed_record_lookup (d : gmap string PyVal) (col : string)
    (conv : conversion) :
  (col, conv) ∈ fields ->
  typed_record key fields d !! col =
    Some (field_value (default PNone (d !! key)) d (col, conv)).
Proof.
  intros Hin. unfold typed_record.
  apply elem_of_list_to_map_1.
  - destruct Hok as (Hnd & _).
    replace ((map (fun f : string * conversion =>
                     (f.1, field_value (default PNone (d !! key)) d f))
                  fields).*1) with (map fst fields).
    + exact Hnd.
    + clear. induction fields as [| f fs IH]; simpl; [reflexivity |].
      f_equal. exact IH.
  - apply (list_elem_of_fmap_2
             (fun f : string * conversion =>
                (f.1, field_value (default PNone (d !! key)) d f))
             fields (col, conv)).
    exact Hin.
Qed.

Lemma zip_map_lookup {A} (g : string -> A) (cols : list string)
    (col : string) :
  col ∈ cols ->
  (list_to_map (zip cols (map g cols)) : gmap string A) !! col =
    Some (g col).
Proof.
  induction cols as [| c cols IH]; intros Hin.
  - apply elem_of_nil in Hin. destruct Hin.
  - simpl. destruct (decide (c = col)) as [-> | Hne].
    + apply lookup_insert_eq.
    + rewrite lookup_insert_ne by exact Hne.
      apply IH. apply elem_of_cons in Hin as [-> | Hin];
        [congruence | exact Hin].
Qed.

Lemma zip_map_lookup_None {A} (g : string -> A) (cols : list string)
    (col : string) :
  col ∉ cols ->
  (list_to_map (zip cols (map g cols)) : gmap string A) !! col = None.
Proof.
  induction cols as [| c cols IH]; intros Hin; [reflexivity |].
  simpl. apply not_elem_of_cons in Hin as [Hne Hin].
  rewrite lookup_insert_ne by congruence. apply IH, Hin.
Qed.

(** The arguments of a storable record's statement are all computed. *)
Lemma statement_values_storable (d : gmap string PyVal) :
  storable key fields jsonb_cols col_names (PDict d) = true ->
  truthy (default PNone (d !! key)) = true ->
  statement_values jsonb_cols col_names (typed_record key fields d) =
    Ret (map (argument jsonb_cols (typed_record key fields d)) col_names).
Proof.
  intros Hst Hkey. unfold statement_values.
  unfold storable in Hst. rewrite Hkey in Hst.
  destruct (default PNone (d !! key)) as [| | | | k | | | |] eqn:Hk;
    try discriminate.
  apply andb_true_iff in Hst as [Hst _].
  rewrite forallb_forall in Hst.
  assert (Harg : forall col,
    (if bool_decide (col ∈ jsonb_cols)
        && negb (is_None (default PNone (typed_record key fields d !! col)))
     then _serialize_jsonb
            (default PNone (typed_record key fields d !! col))
     else Ret (default PNone (typed_record key fields d !! col)))
    = Ret (argument jsonb_cols (typed_record key fields d) col)).
  { intros col. unfold argument.
    destruct (bool_decide (col ∈ jsonb_cols)) eqn:Hj; simpl;
      [| reflexivity].
    destruct (is_None _); simpl; [reflexivity |].
    apply bool_decide_eq_true in Hj.
    destruct Hok as (_ & _ & _ & _ & Hplain).
    rewrite Forall_forall in Hplain.
    rewrite (typed_record_lookup d col Plain (Hplain col Hj)).
    unfold field_value; simpl.
    specialize (Hst col (proj1 (list_elem_of_In _ _) Hj)).
    destruct (_serialize_jsonb (default PNone (d !! col)));
      [reflexivity | discriminate | discriminate]. }
  generalize col_names as cols.
  induction cols as [| col cols IH]; simpl; [reflexivity |].
  rewrite Harg. simpl. rewrite IH. reflexivity.
Qed.

Lemma excluded_row_key (d : gmap string PyVal) :
  excluded_row key fields jsonb_cols col_names d !! key =
    Some (default PNone (d !! key)).
Proof.
  destruct Hok as (Hnd & Hkey & Hcol & Hnj & Hplain).
  unfold excluded_row. rewrite zip_map_lookup by exact Hcol.
  unfold argument. rewrite bool_decide_eq_false_2 by exact Hnj. simpl.
  rewrite (typed_record_lookup d key Key Hkey). reflexivity.
Qed.

(** The driver and the server take the arguments of a storable, keyed
    record. *)
Lemma storable_accepted (d : gmap string PyVal) :
  storable key fields jsonb_cols col_names (PDict d) = true ->
  truthy (default PNone (d !! key)) = true ->
  execute_accepts key col_names
    (map (argument jsonb_cols (typed_record key fields d)) col_names) = true.
Proof.
  unfold storable. intros Hst Hkey. rewrite Hkey in Hst.
  destruct (default PNone (d !! key)); try discriminate.
  apply andb_true_iff in Hst as [_ Hacc]. exact Hacc.
Qed.

(** One statement of a storable, keyed record upserts its row. *)
Lemma execute_upsert_storable (d : gmap string PyVal) (k : string)
    (now : Q) (table : gmap string Row) :
  key_of key (PDict d) = Some k ->
  storable key fields jsonb_cols col_names (PDict d) = true ->
  execute_upsert key col_names
    (map (argument jsonb_cols (typed_record key fields d)) col_names)
    now table =
  Ret (upsert_row key col_names k
         (excluded_row key fields jsonb_cols col_names d) now table).
Proof.
  intros Hk Hst. unfold execute_upsert.
  rewrite (storable_accepted d Hst)
    by (unfold key_of in Hk;
        destruct (default PNone (d !! key)); try discriminate;
        destruct (truthy (PStr s)); [reflexivity | discriminate]).
  cbn [negb].
  fold (excluded_row key fields jsonb_cols col_names d).
  rewrite excluded_row_key. unfold key_of in Hk.
  destruct (default PNone (d !! key)) as [| | | | k' | | | |];
    try discriminate.
  destruct (truthy (PStr k')); [| discriminate].
  injection Hk as ->. unfold upsert_row.
  destruct (table !! k); reflexivity.
Qed.

Lemma storable_key_of (d : gmap string PyVal) :
  storable key fields jsonb_cols col_names (PDict d) = true ->
  truthy (default PNone (d !! key)) = true ->
  exists k, key_of key (PDict d) = Some k.
Proof.
  unfold storable, key_of. intros Hst Hkey. rewrite Hkey in Hst.
  destruct (default PNone (d !! key)) as [| | | | k | | | |];
    try discriminate.
  exists k. rewrite Hkey. reflexivity.
Qed.

(** The second loop, on the records of a storable batch. *)
Lemma execute_all_storable (raws : list PyVal) (now : Q) :
  Forall (fun raw => storable key fields jsonb_cols col_names raw = true)
         raws ->
  forall table : gmap string Row,
    execute_all key jsonb_cols col_names (records_of key fields raws)
                now table =
      Ret (table_after key fields jsonb_cols col_names raws now table).
Proof.
  induction 1 as [| raw raws Hraw _ IH]; intros table; [reflexivity |].
  destruct raw as [| | | | | | d | |]; try discriminate.
  unfold table_after, records_of. cbn [omap list_omap foldl].
  fold (records_of key fields raws).
  destruct (truthy (default PNone (d !! key))) eqn:Hkey.
  - destruct (storable_key_of d Hraw Hkey) as [k Hk].
    cbn [execute_all]. rewrite statement_values_storable by assumption.
    cbn [res_bind]. rewrite (execute_upsert_storable d k) by assumption.
    cbn [res_bind]. rewrite IH, Hk. reflexivity.
  - rewrite IH.
    replace (key_of key (PDict d)) with (@None string); [reflexivity |].
    unfold key_of. destruct (default PNone (d !! key)); try reflexivity.
    rewrite Hkey. reflexivity.
Qed.

Lemma storable_is_dict (raws : list PyVal) :
  Forall (fun raw => storable key fields jsonb_cols col_names raw = true)
         raws ->
  Forall (fun raw => is_dict raw = true) raws.
Proof.
  intros Hst. eapply Forall_impl; [exact Hst |].
  intros raw. destruct raw; simpl; congruence.
Qed.

Lemma records_of_length (raws : list PyVal) :
  length (records_of key fields raws) = length (filter (keyed key) raws).
Proof.
  induction raws as [| raw raws IH]; [reflexivity |].
  unfold records_of. cbn [omap list_omap]. fold (records_of key fields raws).
  rewrite filter_cons.
  destruct raw as [| | | | | | d | |];
    try (rewrite decide_False by exact id; exact IH).
  destruct (truthy (default PNone (d !! key))) eqn:Hkey.
  - rewrite decide_True by (simpl; rewrite Hkey; exact I).
    simpl. f_equal. exact IH.
  - rewrite decide_False by (simpl; rewrite Hkey; exact id).
    exact IH.
Qed.

Lemma records_of_filter (raws : list PyVal) :
  records_of key fields (filter (keyed key) raws) =
    records_of key fields raws.
Proof.
  induction raws as [| raw raws IH]; [reflexivity |].
  rewrite filter_cons. unfold records_of at 2.
  cbn [omap list_omap]. fold (records_of key fields raws).
  destruct raw as [| | | | | | d | |];
    try (rewrite decide_False by exact id; exact IH).
  destruct (truthy (default PNone (d !! key))) eqn:Hkey.
  - rewrite decide_True by (simpl; rewrite Hkey; exact I).
    unfold records_of at 1. cbn [omap list_omap].
    fold (records_of key fields (filter (keyed key) raws)).
    rewrite Hkey, IH. reflexivity.
  - rewrite decide_False by (simpl; rewrite Hkey; exact id).
    exact IH.
Qed.

End SinkFacts.

Section BatchFacts.
Context `{PyRuntime}.
Variables (key : string) (fields : list (string * conversion))
          (jsonb_cols col_names : list string).
Hypothesis Hok : table_ok key fields jsonb_cols col_names.
Variables (get : World -> gmap string Row)
          (set : gmap string Row -> World -> World).

(** A storable batch: the keyed records are counted and upserted in one
    transaction; without a keyed record nothing happens. *)
Lemma batch_upsert_storable (raws : list PyVal) (w : World) :
  Forall (fun raw => storable key fields jsonb_cols col_names raw = true)
         raws ->
  batch_upsert key fields jsonb_cols col_names get set raws w =
    (Ret (len (filter (keyed key) raws)),
     match filter (keyed key) raws with
     | [] => w
     | _ =>
         set (table_after key fields jsonb_cols col_names raws
                          (dbnow w (txn w)) (get w))
             (set_txn (S (txn w)) w)
     end).
Proof.
  intros Hst. unfold batch_upsert.
  destruct raws as [| raw raws']; [reflexivity |].
  set (raws := raw :: raws') in *.
  unfold bind at 1, lift.
  rewrite (build_records_dicts key fields raws)
    by (apply (storable_is_dict key fields jsonb_cols col_names), Hst).
  pose proof (records_of_length key fields raws) as Hlen.
  destruct (records_of key fields raws) as [| rec recs] eqn:Hrecs.
  - destruct (filter (keyed key) raws); [reflexivity | discriminate].
  - unfold bind, transaction, ret. rewrite <- Hrecs.
    rewrite (execute_all_storable key fields jsonb_cols col_names Hok)
      by exact Hst.
    unfold len. rewrite (records_of_length key fields raws).
    destruct (filter (keyed key) raws); [discriminate | reflexivity].
Qed.

(** Dropped records change nothing: the batch without them does the
    same. *)
Lemma batch_upsert_filter (raws : list PyVal) (w : World) :
  Forall (fun raw => is_dict raw = true) raws ->
  batch_upsert key fields jsonb_cols col_names get set raws w =
  batch_upsert key fields jsonb_cols col_names get set
               (filter (keyed key) raws) w.
Proof.
  intros Hd.
  assert (Hd' : Forall (fun raw => is_dict raw = true)
                       (filter (keyed key) raws)).
  { apply Forall_forall. intros raw Hin.
    apply list_elem_of_filter in Hin as [_ Hin].
    rewrite Forall_forall in Hd. apply Hd, Hin. }
  assert (Hshape : forall l : list PyVal,
    Forall (fun raw => is_dict raw = true) l ->
    batch_upsert key fields jsonb_cols col_names get set l w =
      match records_of key fields l with
      | [] => (Ret 0%Z, w)
      | recs =>
          (do! transaction get set
                 (execute_all key jsonb_cols col_names recs) in
           ret (len recs)) w
      end).
  { intros l Hl. destruct l as [| raw l']; [reflexivity |].
    unfold batch_upsert, bind at 1, lift.
    rewrite (build_records_dicts key fields _ Hl).
    destruct (records_of key fields (raw :: l')); reflexivity. }
  rewrite (Hshape _ Hd), (Hshape _ Hd'), records_of_filter.
  reflexivity.
Qed.

End BatchFacts.

Section RowFacts.
Variables (key : string) (col_names : list string).

Lemma foldr_insert_lookup (g : string -> PyVal) (cols : list string)
    (m : gmap string PyVal) (col : string) :
  foldr (fun c m => <[ c := g c ]> m) m cols !! col =
    if decide (col ∈ cols) then Some (g col) else m !! col.
Proof.
  induction cols as [| c cols IH]; cbn [foldr].
  - destruct (decide (col ∈ [])) as [Hin | _]; [| reflexivity].
    apply elem_of_nil in Hin. destruct Hin.
  - destruct (decide (c = col)) as [-> | Hne].
    + rewrite lookup_insert_eq.
      destruct (decide (col ∈ col :: cols)) as [_ | Hin]; [reflexivity |].
      exfalso. apply Hin, list_elem_of_here.
    + rewrite lookup_insert_ne by exact Hne. rewrite IH.
      destruct (decide (col ∈ cols)) as [Hin | Hin];
        destruct (decide (col ∈ c :: cols)) as [Hin' | Hin'];
        try reflexivity; exfalso;
        [apply Hin', list_elem_of_further, Hin |
         apply elem_of_cons in Hin' as [-> | Hin']; auto].
Qed.



Lemma upsert_row_dom (k : string) (excluded : gmap string PyVal)
    (now : Q) (table : gmap string Row) :
  dom (upsert_row key col_names k excluded now table) = {[ k ]} ∪ dom table.
Proof.
  unfold upsert_row. destruct (table !! k); apply dom_insert_L.
Qed.


End RowFacts.

Section TableFacts.
Context `{PyRuntime}.
Variables (key : string) (fields : list (string * conversion))
          (jsonb_cols col_names : list string).
Hypothesis Hok : table_ok key fields jsonb_cols col_names.

Lemma key_of_keyed (raw : PyVal) (k : string) :
  key_of key raw = Some k -> keyed key raw = true.
Proof.
  destruct raw as [| | | | | | d | |]; try discriminate.
  unfold key_of, keyed.
  destruct (default PNone (d !! key)) as [| | | | k' | | | |];
    try discriminate.
  destruct (truthy (PStr k')); [reflexivity | discriminate].
Qed.

Lemma filter_keyed_single (d : gmap string PyVal) (k : string) :
  key_of key (PDict d) = Some k ->
  filter (keyed key) [PDict d] = [PDict d].
Proof.
  intros Hk. rewrite filter_cons, decide_True; [reflexivity |].
  rewrite (key_of_keyed _ k Hk). exact I.
Qed.

Lemma table_after_single (d : gmap string PyVal) (k : string) (now : Q)
    (table : gmap string Row) :
  key_of key (PDict d) = Some k ->
  table_after key fields jsonb_cols col_names [PDict d] now table =
    upsert_row key col_names k
               (excluded_row key fields jsonb_cols col_names d) now table.
Proof. intros Hk. unfold table_after. cbn [foldl]. rewrite Hk. reflexivity. Qed.

(** The keys a batch writes are the keys of its keyed records. *)
Lemma table_after_dom (raws : list PyVal) (now : Q) :
  forall table : gmap string Row,
    dom (table_after key fields jsonb_cols col_names raws now table) =
      dom table ∪ list_to_set (omap (key_of key) raws).
Proof.
  induction raws as [| raw raws IH]; intros table.
  - simpl. rewrite (right_id_L ∅ (∪)). reflexivity.
  - unfold table_after. cbn [foldl omap list_omap].
    destruct raw as [| | | | | | d | |]; try exact (IH table).
    destruct (key_of key (PDict d)) as [k |] eqn:Hk; [| exact (IH table)].
    etransitivity; [exact (IH _) |].
    rewrite upsert_row_dom. cbn [list_to_set].
    rewrite (comm_L (∪) {[ k ]} (dom table)), <- (assoc_L (∪)).
    reflexivity.
Qed.


End TableFacts.

Section UpsertFacts.
Context `{PyRuntime}.

Lemma batch_upsert_markets_shape (raws : list PyVal) :
  batch_upsert_markets raws =
    batch_upsert "ticker" market_fields market_jsonb_cols market_col_names
                 markets set_markets raws.
Proof. reflexivity. Qed.

Lemma batch_upsert_events_shape (raws : list PyVal) :
  batch_upsert_events raws =
    batch_upsert "event_ticker" event_fields event_jsonb_cols
                 event_col_names events set_events raws.
Proof. reflexivity. Qed.

(** The sink touches its table and the transaction count, nothing else:
    whatever else is read from the world reads the same afterwards. *)
Lemma batch_upsert_frame {A} (view : World -> A) (key : string)
    (fields : list (string * conversion)) (jsonb_cols col_names : list string)
    (get : World -> gmap string Row)
    (set : gmap string Row -> World -> World) (raws : list PyVal)
    (w : World) :
  (forall m w0, view (set m w0) = view w0) ->
  (forall n w0, view (set_txn n w0) = view w0) ->
  view (batch_upsert key fields jsonb_cols col_names get set raws w).2 =
    view w.
Proof.
  intros Hset Htxn. unfold batch_upsert.
  destruct raws as [| raw raws']; [reflexivity |].
  unfold bind at 1, lift.
  destruct (build_records key fields (raw :: raws'))
    as [[| rec recs] | e |]; try reflexivity.
  unfold bind, transaction, ret.
  destruct (execute_all key jsonb_cols col_names (rec :: recs)
                        (dbnow w (txn w)) (get w)) as [table' | e |];
    cbn [fst snd]; rewrite ?Hset, ?Htxn; reflexivity.
Qed.

End UpsertFacts.

Section SinkTheorems.
Context `{PyRuntime}.
Variables (key : string) (fields : list (string * conversion))
          (jsonb_cols col_names : list string).
Hypothesis Hok : table_ok key fields jsonb_cols col_names.
Variables (get : World -> gmap string Row)
          (set : gmap string Row -> World -> World).
Hypothesis get_set : forall m w, get (set m w) = m.
Hypothesis get_txn : forall n w, get (set_txn n w) = get w.
Hypothesis txn_set : forall m w, txn (set m w) = txn w.
Hypothesis dbnow_set : forall m w, dbnow (set m w) = dbnow w.
Hypothesis logged_set : forall m w, logged (set m w) = logged w.

Lemma omap_key_of_filter (raws : list PyVal) :
  filter (keyed key) raws = [] -> omap (key_of key) raws = [].
Proof.
  induction raws as [| raw raws IH]; [reflexivity |].
  rewrite filter_cons. cbn [omap list_omap].
  destruct (key_of key raw) as [k |] eqn:Hk.
  - rewrite decide_True; [discriminate |].
    rewrite (key_of_keyed key raw k Hk). exact I.
  - destruct (decide (keyed key raw)); [discriminate | exact IH].
Qed.

Lemma batch_upsert_single (d : gmap string PyVal) (k : string) (w : World) :
  key_of key (PDict d) = Some k ->
  storable key fields jsonb_cols col_names (PDict d) = true ->
  batch_upsert key fields jsonb_cols col_names get set [PDict d] w =
    (Ret 1%Z,
     set (upsert_row key col_names k
            (excluded_row key fields jsonb_cols col_names d)
            (dbnow w (txn w)) (get w))
         (set_txn (S (txn w)) w)).
Proof.
  intros Hk Hst.
  rewrite (batch_upsert_storable key fields jsonb_cols col_names Hok)
    by (constructor; [exact Hst | constructor]).
  rewrite (filter_keyed_single key d k Hk).
  rewrite (table_after_single key fields jsonb_cols col_names d k) by exact Hk.
  reflexivity.
Qed.


Lemma dropped_records (raws : list PyVal) (w : World) :
  Forall (fun raw => is_dict raw = true) raws ->
  let batch := batch_upsert key fields jsonb_cols col_names get set in
  batch raws w = batch (filter (keyed key) raws) w /\
  logged (batch raws w).2 = logged w /\
  (Forall (fun raw => storable key fields jsonb_cols col_names raw = true)
          raws ->
   (batch raws w).1 = Ret (len (filter (keyed key) raws)) /\
   dom (get (batch raws w).2) =
     dom (get w) ∪ list_to_set (omap (key_of key) raws)).
Proof using Hok get_set logged_set.
  intros Hd batch. unfold batch. split; [| split].
  - apply batch_upsert_filter, Hd.
  - apply (batch_upsert_frame logged); [exact logged_set | reflexivity].
  - intros Hst.
    rewrite (batch_upsert_storable key fields jsonb_cols col_names Hok)
      by exact Hst.
    split; [reflexivity |]. cbn [snd].
    destruct (filter (keyed key) raws) as [| r rs] eqn:Hf.
    + rewrite (omap_key_of_filter raws Hf). cbn [list_to_set].
      rewrite (right_id_L ∅ (∪)). reflexivity.
    + rewrite get_set. apply table_after_dom.
Qed.

End SinkTheorems.


Section UpsertExamples.
#[local] Existing Instance ExampleRuntime.runtime.


(** What the table holds after the two upserts: one row, with the second
    title and bid, created at the first transaction and updated at the
    second. *)
Example upsert_test_rows :
  let w := example_world [] in
  let r1 := batch_upsert_markets [PDict market_original] w in
  let r2 := batch_upsert_markets [PDict market_updated] r1.2 in
  size (markets r2.2) = 1%nat /\
  (row_cols <$> markets r2.2 !! "TEST-UPSERT-001") ≫= (.!! "title") =
    Some (PStr "Updated Title") /\
  (row_cols <$> markets r2.2 !! "TEST-UPSERT-001") ≫= (.!! "yes_bid") =
    Some (PInt 60) /\
  created_at <$> markets r2.2 !! "TEST-UPSERT-001" = Some 0%Q /\
  updated_at <$> markets r2.2 !! "TEST-UPSERT-001" = Some 1%Q.
Proof. vm_compute. repeat split. Qed.

(** A record whose title is a number is one the database refuses: it is not
    storable, and a batch that holds it raises and writes nothing, the
    well-typed record before it included. *)
Example mistyped_record_refused :
  let bad : gmap string PyVal :=
    <["ticker" := PStr "T1"]> (<["title" := PInt 5]> ∅) in
  let r := batch_upsert_markets [PDict market_original; PDict bad]
             (example_world []) in
  storable "ticker" market_fields market_jsonb_cols market_col_names
           (PDict bad) = false /\
  r.1 = Raise (Exception "DataError") /\
  markets r.2 = ∅.
Proof. vm_compute. repeat split. Qed.

End UpsertExamples.

(** C7, as amended.  On a batch of dicts, the records whose identity field
    is missing (or otherwise falsy) are dropped: the call does what it does
    on the batch without them, so they are never written, raise nothing and
    are not counted.  Nothing is logged about them: the sink writes no log
    record.  When the records are storable (the database takes the values
    of those that carry a key) the call returns the number of
    records that carry their key, and the table's keys afterwards are its
    keys before and the keys of those records.  The same holds for markets
    (ticker) and events (event_ticker). *)
Theorem missing_key_records_dropped `{PyRuntime} (raws : list PyVal)
    (w : World) :
  Forall (fun raw => is_dict raw = true) raws ->
  (batch_upsert_markets raws w =
     batch_upsert_markets (filter (keyed "ticker") raws) w /\
   logged (batch_upsert_markets raws w).2 = logged w /\
   (Forall (fun raw => storable "ticker" market_fields market_jsonb_cols
                               market_col_names raw = true) raws ->
    (batch_upsert_markets raws w).1 =
      Ret (len (filter (keyed "ticker") raws)) /\
    dom (markets (batch_upsert_markets raws w).2) =
      dom (markets w) ∪ list_to_set (omap (key_of "ticker") raws)))
  /\
  (batch_upsert_events raws w =
     batch_upsert_events (filter (keyed "event_ticker") raws) w /\
   logged (batch_upsert_events raws w).2 = logged w /\
   (Forall (fun raw => storable "event_ticker" event_fields
                               event_jsonb_cols event_col_names raw = true)
           raws ->
    (batch_upsert_events raws w).1 =
      Ret (len (filter (keyed "event_ticker") raws)) /\
    dom (events (batch_upsert_events raws w).2) =
      dom (events w) ∪ list_to_set (omap (key_of "event_ticker") raws))).
Proof.
  intros Hd. split.
  - exact (dropped_records "ticker" market_fields market_jsonb_cols
             market_col_names market_table_ok markets set_markets
             (fun _ _ => eq_refl) (fun _ _ => eq_refl) raws w Hd).
  - exact (dropped_records "event_ticker" event_fields event_jsonb_cols
             event_col_names event_table_ok events set_events
             (fun _ _ => eq_refl) (fun _ _ => eq_refl) raws w Hd).
Qed.

Section DropExamples.
#[local] Existing Instance ExampleRuntime.runtime.

(** A market between two records without a ticker: one row is counted. *)
Lemma missing_key_records_dropped_witness :
  let raws := [PDict market_without_ticker; PDict market_original;
               PDict market_without_ticker] in
  let w := example_world [] in
  batch_upsert_markets raws w =
    batch_upsert_markets (filter (keyed "ticker") raws) w /\
  (batch_upsert_markets raws w).1 = Ret 1%Z.
Proof.
  intros raws w.
  pose proof (proj1 (missing_key_records_dropped raws w
                       ltac:(repeat constructor))) as (Hsame & _ & Hst).
  split; [exact Hsame |].
  exact (proj1 (Hst ltac:(repeat constructor))).
Defined.

(** C7 as stated fails in one point: a dropped record is not logged.  A
    batch that holds only a record without its key returns 0 and leaves the
    world, log included, as it was. *)
Lemma dropped_record_is_not_logged :
  let w := example_world [] in
  batch_upsert_markets [PDict market_without_ticker] w = (Ret 0%Z, w) /\
  batch_upsert_events [PDict event_without_ticker] w = (Ret 0%Z, w) /\
  logged (batch_upsert_markets [PDict market_without_ticker] w).2 = [] /\
  logged (batch_upsert_events [PDict event_without_ticker] w).2 = [].
Proof. vm_compute. repeat split. Qed.

End DropExamples.

(* --------------------------------------------------------------------- *)
(** ** The polling passes                                                 *)
(* --------------------------------------------------------------------- *)

Section PollFacts.
Context `{PyRuntime}.
Variables (client : KalshiHttpClient) (min_created_ts : PyVal)
          (batch_size : Z).

Lemma bind_Ret {A B} (c : M A) (k : A -> M B) (w w' : World) (a : A) :
  c w = (Ret a, w') -> bind c k w = k a w'.
Proof. intros Hc. unfold bind. rewrite Hc. reflexivity. Qed.

Lemma bind_ext {A B} (c : M A) (k1 k2 : A -> M B) (w : World) :
  (forall a w', k1 a w' = k2 a w') -> bind c k1 w = bind c k2 w.
Proof.
  intros Hk. unfold bind. destruct (c w) as [[a | e |] w']; auto.
Qed.

Lemma markets_loop_shape (fuel : nat) :
  forall cursor batch total w,
    markets_loop fuel client min_created_ts batch_size cursor batch total w =
    page_loop (fetch_of Markets client min_created_ts) (sink_of Markets)
              (resource_name Markets) batch_size fuel cursor batch total w.
Proof.
  induction fuel as [| fuel IH]; intros cursor batch total w;
    [reflexivity |].
  cbn [markets_loop page_loop].
  apply bind_ext. intros res w1. apply bind_ext. intros page w2.
  apply bind_ext. intros items w3. apply bind_ext. intros batch' w4.
  apply bind_ext. intros cursor' w5.
  destruct (negb (truthy cursor')); [reflexivity | apply IH].
Qed.

Lemma events_loop_shape (fuel : nat) :
  forall cursor batch total w,
    events_loop fuel client batch_size cursor batch total w =
    page_loop (fetch_of Events client min_created_ts) (sink_of Events)
              (resource_name Events) batch_size fuel cursor batch total w.
Proof.
  induction fuel as [| fuel IH]; intros cursor batch total w;
    [reflexivity |].
  cbn [events_loop page_loop].
  apply bind_ext. intros res w1. apply bind_ext. intros page w2.
  apply bind_ext. intros items w3. apply bind_ext. intros batch' w4.
  apply bind_ext. intros cursor' w5.
  destruct (negb (truthy cursor')); [reflexivity | apply IH].
Qed.

Lemma poll_shape (r : Resource) (w : World) :
  poll r client min_created_ts batch_size w =
  poll_pass (fetch_of r client min_created_ts) (sink_of r)
            (resource_name r) batch_size w.
Proof.
  destruct r; unfold poll, poll_markets, poll_events, poll_pass.
  - unfold bind at 1 3. rewrite markets_loop_shape. reflexivity.
  - unfold bind at 1 3. rewrite events_loop_shape. reflexivity.
Qed.

(** A fetch whose [acquire] returns and that finds a served page. *)
Lemma fetch_page (r : Resource) (cursor : PyVal) (w : World)
    (body : PyVal) (script : list (exn + PyVal)) :
  let a := acquire 1 (bucket_world (rate_limiter w) (clock w)) in
  a.1 = Ret tt ->
  net w = inr body :: script ->
  fetch_of r client min_created_ts cursor w =
    (Ret body,
     mkWorld (rate_limiter a.2) (clock a.2) (slept w ++ slept a.2)
             script
             (sent w ++ [request_of r client min_created_ts cursor])
             (logged w) (markets w) (events w) (dbnow w) (txn w)).
Proof.
  intros a Hacq Hnet.
  assert (Hrun : forall method url params,
    _request_with_retry client method url params default_max_retries
                        default_base_backoff w =
      (Ret body,
       mkWorld (rate_limiter a.2) (clock a.2) (slept w ++ slept a.2)
               script
               (sent w ++ [mkRequest method url params (_headers client)])
               (logged w) (markets w) (events w) (dbnow w) (txn w))).
  { intros method url params. unfold _request_with_retry, bind.
    rewrite (acquire_alone 1 w). fold a. rewrite Hacq.
    rewrite range_range_from.
    rewrite (retry_loop_run client method url params default_max_retries
               default_base_backoff [] 0%Z
               (Z.to_nat default_max_retries) _ (inr body) script);
      [| reflexivity | unfold default_max_retries; simpl; lia | constructor
       | exact Hnet | left; reflexivity].
    simpl. rewrite !app_nil_r. reflexivity. }
  destruct r; unfold fetch_of, get_markets, get_events; rewrite Hrun;
    reflexivity.
Qed.

Lemma sink_shape (r : Resource) (raws : list PyVal) :
  sink_of r raws =
    batch_upsert (key_name r) (fields_of r) (jsonb_cols_of r)
                 (col_names_of r) (table r) (set_table r) raws.
Proof. destruct r; reflexivity. Qed.

Lemma resource_table_ok (r : Resource) :
  table_ok (key_name r) (fields_of r) (jsonb_cols_of r) (col_names_of r).
Proof. destruct r; [exact market_table_ok | exact event_table_ok]. Qed.

(** A flush of a storable batch, field by field. *)
Lemma flush_storable (r : Resource) (batch : list PyVal) (w : World) :
  Forall (fun raw => storable_in r raw = true) batch ->
  exists w',
    flush (sink_of r) (resource_name r) batch w = (Ret tt, w') /\
    transport w' = transport w /\
    (table r w', txn w', logged w') =
      flush_in r (dbnow w) (table r w, txn w, logged w) batch /\
    dbnow w' = dbnow w /\
    other_table r w' = other_table r w.
Proof.
  intros Hst. unfold flush, bind. rewrite sink_shape.
  rewrite (batch_upsert_storable _ _ _ _ (resource_table_ok r))
    by exact Hst.
  unfold log, flush_in, flush_db.
  eexists. split; [reflexivity |].
  destruct (filter (keyed (key_name r)) batch) as [| raw kept];
    destruct r; destruct w; repeat split.
Qed.

Lemma page_items (resource : string) (page : list PyVal * PyVal) :
  (let? items := dict_get (page_response resource page) resource in
   iterate (py_or items (PList []))) = Ret page.1.
Proof.
  unfold page_response, dict_get. rewrite lookup_insert_eq. simpl.
  unfold py_or. destruct page as [[| raw recs] cursor]; reflexivity.
Qed.

Lemma page_cursor (resource : string) (page : list PyVal * PyVal) :
  resource ≠ "cursor" ->
  dict_get (page_response resource page) "cursor" = Ret page.2.
Proof.
  intros Hne. unfold page_response, dict_get.
  rewrite lookup_insert_ne by exact Hne.
  rewrite lookup_singleton_eq. reflexivity.
Qed.

Lemma resource_name_not_cursor (r : Resource) :
  resource_name r ≠ "cursor".
Proof. destruct r; discriminate. Qed.

(** One turn of the loop on a served page: the request goes out with the
    current cursor, the page is appended, the buffer is flushed whole when
    it has reached the batch size, and the page's cursor decides whether
    the loop goes on. *)
Lemma page_loop_turn (r : Resource) (page : list PyVal * PyVal)
    (fuel : nat) (cursor : PyVal) (buffer : list PyVal) (total : Z)
    (w : World) (script : list (exn + PyVal)) :
  let a := acquire 1 (bucket_world (rate_limiter w) (clock w)) in
  a.1 = Ret tt ->
  net w = inr (page_response (resource_name r) page) :: script ->
  Forall (fun raw => storable_in r raw = true) (buffer ++ page.1) ->
  let flushes := (len (buffer ++ page.1) >=? batch_size)%Z in
  let buffer' := if flushes then [] else buffer ++ page.1 in
  let total' := (total + len page.1)%Z in
  exists w',
    page_loop (fetch_of r client min_created_ts) (sink_of r)
              (resource_name r) batch_size (S fuel) cursor buffer total w =
      (if negb (truthy page.2) then ret (buffer', total')
       else page_loop (fetch_of r client min_created_ts) (sink_of r)
                      (resource_name r) batch_size fuel page.2 buffer'
                      total') w' /\
    transport w' =
      (rate_limiter a.2, clock a.2, slept w ++ slept a.2, script,
       sent w ++ [request_of r client min_created_ts cursor]) /\
    (table r w', txn w', logged w') =
      (if flushes
       then flush_in r (dbnow w) (table r w, txn w, logged w)
                     (buffer ++ page.1)
       else (table r w, txn w, logged w)) /\
    dbnow w' = dbnow w /\
    other_table r w' = other_table r w.
Proof.
  intros a Hacq Hnet Hst flushes buffer' total'.
  cbn [page_loop].
  rewrite (bind_Ret _ _ _ _ _ (fetch_page r cursor w _ script Hacq Hnet)).
  fold a.
  cbv beta.
  pose proof (page_items (resource_name r) page) as Hitems.
  unfold res_bind in Hitems.
  destruct (dict_get (page_response (resource_name r) page)
                     (resource_name r)) as [items | e |] eqn:Hget;
    try discriminate.
  erewrite bind_Ret by reflexivity.
  cbv beta.
  erewrite bind_Ret by (unfold lift; rewrite Hitems; reflexivity).
  cbv beta zeta. fold flushes. unfold buffer'.
  destruct flushes eqn:Hflush.
  - match goal with
    | |- context [bind _ _ ?w1] =>
        destruct (flush_storable r (buffer ++ page.1) w1 Hst)
          as (w2 & Hflushed & Htr & Hdb & Hnow & Hother)
    end.
    assert (Hbatch :
      (let! flushed := sink_of r (buffer ++ page.1) in
       do! log (InfoFlushed (resource_name r) flushed) in
       ret (@nil PyVal))
        (mkWorld (rate_limiter a.2) (clock a.2) (slept w ++ slept a.2)
                 script
                 (sent w ++ [request_of r client min_created_ts cursor])
                 (logged w) (markets w) (events w) (dbnow w) (txn w))
      = (Ret [], w2)).
    { revert Hflushed. unfold flush, bind, ret.
      destruct (sink_of r (buffer ++ page.1) _) as [[n | e |] w1];
        try discriminate.
      destruct (log _ w1) as [[[] | e |] w1']; try discriminate.
      intros [= ->]. reflexivity. }
    erewrite bind_Ret by exact Hbatch.
    cbv beta.
    erewrite bind_Ret
      by (unfold lift;
          rewrite (page_cursor _ _ (resource_name_not_cursor r));
          reflexivity).
    cbv beta.
    exists w2. split; [reflexivity |].
    rewrite Htr, Hdb, Hnow, Hother.
    destruct r; repeat split.
  - erewrite bind_Ret by reflexivity.
    cbv beta.
    erewrite bind_Ret
      by (unfold lift;
          rewrite (page_cursor _ _ (resource_name_not_cursor r));
          reflexivity).
    cbv beta.
    eexists. split; [reflexivity |].
    destruct r; repeat split.
Qed.

Lemma limiter_serves_S (k : nat) (b : TokenBucket) (readings : list Q) :
  limiter_serves (S k) b readings =
    let r := acquire 1 (bucket_world b readings) in
    match r.1 with
    | Ret _ =>
        match limiter_serves k (rate_limiter r.2) (clock r.2) with
        | Some st => Some (st.1.1, st.1.2, slept r.2 ++ st.2)
        | None => None
        end
    | _ => None
    end.
Proof. reflexivity. Qed.

(** The loop over the pages served: every page but the last carries a
    cursor, the last one none. *)
Lemma page_loop_pages (r : Resource) (last : list PyVal * PyVal)
    (pages : list (list PyVal * PyVal)) :
  Forall (fun p => truthy p.2 = true) pages ->
  truthy last.2 = false ->
  forall (fuel : nat) (cursor : PyVal) (buffer : list PyVal) (total : Z)
         (w : World) (script : list (exn + PyVal))
         (after : TokenBucket * list Q * list Q),
    (length pages < fuel)%nat ->
    net w = map (fun p => inr (page_response (resource_name r) p))
                (pages ++ [last]) ++ script ->
    limiter_serves (S (length pages)) (rate_limiter w) (clock w) =
      Some after ->
    Forall (fun raw => storable_in r raw = true)
           (buffer ++ concat (map fst (pages ++ [last]))) ->
    let sb := sink_batches batch_size buffer (map fst (pages ++ [last])) in
    exists W,
      page_loop (fetch_of r client min_created_ts) (sink_of r)
                (resource_name r) batch_size fuel cursor buffer total w =
        (Ret (sb.2,
              (total + len (concat (map fst (pages ++ [last]))))%Z), W) /\
      transport W =
        (after.1.1, after.1.2, slept w ++ after.2, script,
         sent w ++ map (request_of r client min_created_ts)
                       (cursor :: map snd pages)) /\
      (table r W, txn W, logged W) =
        foldl (flush_in r (dbnow w)) (table r w, txn w, logged w) sb.1 /\
      dbnow W = dbnow w /\
      other_table r W = other_table r w.
Proof.
  intros Hpages Hlast. induction Hpages as [| p pages Hp _ IH];
    intros fuel cursor buffer total w script after Hfuel Hnet Hready Hst;
    (destruct fuel as [| fuel]; [simpl in Hfuel; lia |]);
    rewrite limiter_serves_S in Hready;
    cbv zeta in Hready;
    (destruct (acquire 1 (bucket_world (rate_limiter w) (clock w))).1
       as [[] | e |] eqn:Hacq; try discriminate);
    cbn [app map concat] in Hnet, Hst |- *.
  - (* the last page *)
    cbn [limiter_serves length] in Hready.
    injection Hready as <-.
    rewrite app_nil_r in Hst.
    destruct (page_loop_turn r last fuel cursor buffer total w
                script Hacq Hnet Hst)
      as (w' & Hturn & Htr & Hdb & Hnow & Hother).
    rewrite Hlast in Hturn. cbn [negb] in Hturn.
    exists w'. rewrite Hturn, Htr, Hdb, Hnow, Hother.
    cbn [sink_batches length map fst snd]. rewrite !app_nil_r.
    destruct (len (buffer ++ last.1) >=? batch_size)%Z;
      repeat split.
  - (* a page with a cursor, then the rest *)
    simpl in Hfuel.
    cbn [length] in Hready.
    destruct (limiter_serves (S (length pages)) _ _) as [st |] eqn:Hrest;
      [| discriminate].
    injection Hready as <-.
    assert (Hst1 : Forall (fun raw => storable_in r raw = true)
                          (buffer ++ p.1)).
    { rewrite app_assoc in Hst. apply Forall_app in Hst. apply Hst. }
    destruct (page_loop_turn r p fuel cursor buffer total w
                _ Hacq Hnet Hst1)
      as (w' & Hturn & Htr & Hdb & Hnow & Hother).
    rewrite Hp in Hturn. cbn [negb] in Hturn.
    unfold transport in Htr.
    injection Htr as Hrl Hcl Hsl Hne Hse.
    set (flushes := (len (buffer ++ p.1) >=? batch_size)%Z) in *.
    set (buffer' := if flushes then [] else buffer ++ p.1) in *.
    assert (Hst' : Forall (fun raw => storable_in r raw = true)
                     (buffer' ++ concat (map fst (pages ++ [last])))).
    { unfold buffer'. destruct flushes.
      - apply Forall_app in Hst as [_ Hst].
        apply Forall_app in Hst as [_ Hst]. exact Hst.
      - rewrite <- app_assoc. exact Hst. }
    destruct (IH fuel p.2 buffer' (total + len p.1)%Z w' script st)
      as (W & Hloop & HtrW & HdbW & HnowW & HotherW);
      [lia | exact Hne | rewrite Hrl, Hcl; exact Hrest | exact Hst' |].
    exists W. rewrite Hturn, Hloop, HtrW, HdbW, HnowW, HotherW.
    rewrite Hsl, Hse, Hdb, Hnow, Hother.
    cbn [sink_batches length map fst snd].
    fold flushes. fold buffer'. rewrite <- !app_assoc.
    unfold len. rewrite length_app.
    replace (total + Z.of_nat (length p.1) +
             Z.of_nat (length (concat (map fst (pages ++ [last])))))%Z
      with (total + Z.of_nat (length p.1 +
              length (concat (map fst (pages ++ [last])))))%Z by lia.
    unfold buffer'. destruct flushes; repeat split.
Qed.

Lemma sink_batches_concat (pages : list (list PyVal)) :
  forall buffer : list PyVal,
    concat (sink_batches batch_size buffer pages).1 ++
    (sink_batches batch_size buffer pages).2 = buffer ++ concat pages.
Proof.
  induction pages as [| page pages IH]; intros buffer; cbn [sink_batches].
  - simpl. rewrite app_nil_r. reflexivity.
  - destruct (len (buffer ++ page) >=? batch_size)%Z; cbn [fst snd concat].
    + rewrite <- !app_assoc. do 2 f_equal. exact (IH []).
    + rewrite IH, <- app_assoc. reflexivity.
Qed.

Lemma all_batches_concat (pages : list (list PyVal)) :
  concat (all_batches batch_size pages) = concat pages.
Proof.
  unfold all_batches. rewrite concat_app.
  pose proof (sink_batches_concat pages []) as Hc.
  cbn [app] in Hc. rewrite <- Hc. f_equal.
  destruct (sink_batches batch_size [] pages).2; simpl;
    rewrite ?app_nil_r; reflexivity.
Qed.

(** An automatic flush takes the whole buffer, which has reached the
    batch size; what a page leaves in the buffer is below it. *)
Lemma sink_batches_sizes (pages : list (list PyVal)) :
  forall buffer : list PyVal,
    (len buffer < batch_size)%Z ->
    Forall (fun batch => (batch_size <= len batch)%Z)
           (sink_batches batch_size buffer pages).1 /\
    (len (sink_batches batch_size buffer pages).2 < batch_size)%Z.
Proof.
  induction pages as [| page pages IH]; intros buffer Hbuf;
    cbn [sink_batches].
  - split; [constructor | exact Hbuf].
  - destruct (len (buffer ++ page) >=? batch_size)%Z eqn:Hge;
      cbn [fst snd].
    + apply Z.geb_le in Hge.
      assert (Hnil : (len (@nil PyVal) < batch_size)%Z).
      { unfold len in *. rewrite length_app in Hge. simpl. lia. }
      destruct (IH [] Hnil) as [Hall Hrest].
      split; [constructor; assumption | exact Hrest].
    + apply IH. rewrite Z.geb_leb in Hge. apply Z.leb_gt in Hge. exact Hge.
Qed.

(** Records that come one per page, with a batch size of 2 or more: the
    first [batch_size] of them make the one automatic flush, the next one
    stays in the buffer. *)
Lemma sink_batches_one_by_one (records : list PyVal) (extra : PyVal) :
  (1 < batch_size)%Z ->
  len records = batch_size ->
  sink_batches batch_size [] (map (fun raw => [raw]) (records ++ [extra])) =
    ([records], [extra]).
Proof.
  intros Hpos Hlen.
  assert (Hgo : forall (todo buffer : list PyVal),
    (len buffer + len todo = batch_size)%Z -> todo ≠ [] ->
    sink_batches batch_size buffer
                 (map (fun raw => [raw]) (todo ++ [extra])) =
      ([buffer ++ todo], [extra])).
  { induction todo as [| raw todo IH]; intros buffer Hsum Hne;
      [congruence |].
    cbn [app map sink_batches].
    destruct todo as [| raw' todo].
    - assert (Hge : (len (buffer ++ [raw]) >=? batch_size)%Z = true).
      { apply Z.geb_le. unfold len in *. rewrite length_app. simpl in *.
        lia. }
      rewrite Hge. cbn [app map sink_batches fst snd].
      assert (Hlt' : (len [extra] >=? batch_size)%Z = false).
      { rewrite Z.geb_leb. apply Z.leb_gt. unfold len in *.
        simpl in *. lia. }
      rewrite Hlt'. reflexivity.
    - assert (Hlt : (len (buffer ++ [raw]) >=? batch_size)%Z = false).
      { rewrite Z.geb_leb. apply Z.leb_gt. unfold len in *.
        rewrite length_app. simpl in *. lia. }
      rewrite Hlt.
      rewrite (IH (buffer ++ [raw])); [| | discriminate].
      + rewrite <- app_assoc. reflexivity.
      + unfold len in *. rewrite length_app. simpl in *. lia. }
  destruct records as [| raw records].
  - unfold len in Hlen. simpl in Hlen. lia.
  - apply (Hgo (raw :: records) []); [| discriminate].
    unfold len in *. simpl in *. lia.
Qed.

(** The log of a run of flushes: one record per batch, with the number of
    rows it wrote. *)
Lemma flushes_logged (r : Resource) (dn : nat -> Q)
    (batches : list (list PyVal)) :
  forall st : gmap string Row * nat * list LogRecord,
    (foldl (flush_in r dn) st batches).2 =
      st.2 ++ map (fun batch =>
                     InfoFlushed (resource_name r)
                                 (len (filter (keyed (key_name r)) batch)))
                  batches.
Proof.
  induction batches as [| batch batches IH]; intros st; cbn [foldl map].
  - rewrite app_nil_r. reflexivity.
  - rewrite IH. unfold flush_in, flush_db.
    destruct (filter (keyed (key_name r)) batch); cbn [snd];
      rewrite <- app_assoc; reflexivity.
Qed.


(** The whole pass over the pages served. *)
Lemma poll_pages (r : Resource) (last : list PyVal * PyVal)
    (pages : list (list PyVal * PyVal)) (w : World)
    (script : list (exn + PyVal)) :
  Forall (fun p => truthy p.2 = true) pages ->
  truthy last.2 = false ->
  net w = map (fun p => inr (page_response (resource_name r) p))
              (pages ++ [last]) ++ script ->
  forall after : TokenBucket * list Q * list Q,
  limiter_serves (S (length pages)) (rate_limiter w) (clock w) =
    Some after ->
  Forall (fun raw => storable_in r raw = true)
         (concat (map fst (pages ++ [last]))) ->
  let st := foldl (flush_in r (dbnow w)) (table r w, txn w, logged w)
                  (all_batches batch_size (map fst (pages ++ [last]))) in
  exists W,
    poll r client min_created_ts batch_size w = (Ret tt, W) /\
    transport W =
      (after.1.1, after.1.2, slept w ++ after.2, script,
       sent w ++ map (request_of r client min_created_ts)
                     (PNone :: map snd pages)) /\
    (table r W, txn W, logged W) =
      (st.1.1, st.1.2,
       st.2 ++ [InfoIngested (resource_name r)
                  (len (concat (map fst (pages ++ [last]))))]) /\
    dbnow W = dbnow w /\
    other_table r W = other_table r w.
Proof.
  intros Hpages Hlast Hnet after Hready Hst st.
  rewrite poll_shape. unfold poll_pass.
  assert (Hfuel : (length pages < S (length (net w)))%nat).
  { rewrite Hnet, length_app, length_map, length_app. lia. }
  destruct (page_loop_pages r last pages Hpages Hlast
              (S (length (net w))) PNone [] 0%Z w script after Hfuel Hnet
              Hready Hst)
    as (W1 & Hloop & Htr & Hdb & Hnow & Hother).
  rewrite (bind_Ret _ _ _ _ _ Hloop). cbv beta. cbn [fst snd].
  pose proof (sink_batches_concat (map fst (pages ++ [last])) []) as Hcat.
  cbn [app] in Hcat.
  unfold st, all_batches. clear st.
  destruct (sink_batches batch_size [] (map fst (pages ++ [last]))).2
    as [| raw rest] eqn:Hleft.
  - rewrite app_nil_r. unfold bind, ret, log. eexists.
    split; [reflexivity |]. cbn [fst snd].
    rewrite <- Hdb. cbn [fst snd].
    rewrite <- Htr, <- Hnow, <- Hother.
    destruct r; repeat split.
  - assert (Hst' : Forall (fun raw0 => storable_in r raw0 = true)
                          (raw :: rest)).
    { rewrite <- Hcat in Hst. apply Forall_app in Hst. apply Hst. }
    destruct (flush_storable r (raw :: rest) W1 Hst')
      as (W2 & Hflush & Htr2 & Hdb2 & Hnow2 & Hother2).
    unfold flush in Hflush. rewrite (bind_Ret _ _ _ _ _ Hflush).
    cbv beta. unfold log. eexists. split; [reflexivity |].
    rewrite foldl_app. cbn [foldl fst snd].
    rewrite <- Hdb, <- Hnow, <- Hdb2. cbn [fst snd].
    rewrite <- Htr, <- Htr2, Hnow, <- Hnow, <- Hnow2, <- Hother, <- Hother2.
    destruct r; repeat split.
Qed.

End PollFacts.

Section PassFacts.
Context `{PyRuntime}.



End PassFacts.


(** C4, as amended.  The buffer grows by a whole page and is tested after
    each page: when it then holds [batch_size] records or more it is flushed
    whole (so an automatic flush may take more than [batch_size] records)
    and cleared; what is left at the end of the pagination is flushed too,
    unless it is empty.  Under the conditions of the pagination theorem the
    log has one record per flush, with the rows it wrote, in order; with a
    positive batch size every automatic flush has at least [batch_size]
    records and the final drain fewer; and when the records come one per
    page, with a batch size of 2 or more, [batch_size + 1] records make one
    automatic flush of the first [batch_size] and a final drain of the one
    left.  The default batch size is 500. *)
Theorem flush_at_page_boundaries `{PyRuntime} (r : Resource)
    (client : KalshiHttpClient) (min_created_ts : PyVal) (batch_size : Z)
    (pages : list (list PyVal * PyVal)) (last : list PyVal * PyVal)
    (w : World) (script : list (exn + PyVal)) :
  Forall (fun p => truthy p.2 = true) pages ->
  truthy last.2 = false ->
  net w = map (fun p => inr (page_response (resource_name r) p))
              (pages ++ [last]) ++ script ->
  is_Some (limiter_serves (S (length pages)) (rate_limiter w) (clock w)) ->
  Forall (fun raw => storable_in r raw = true)
         (concat (map fst (pages ++ [last]))) ->
  let run := poll r client min_created_ts batch_size w in
  let served := map fst (pages ++ [last]) in
  let sb := sink_batches batch_size [] served in
  run.1 = Ret tt /\
  logged run.2 =
    logged w ++
    map (fun batch =>
           InfoFlushed (resource_name r)
                       (len (filter (keyed (key_name r)) batch)))
        (all_batches batch_size served) ++
    [InfoIngested (resource_name r) (len (concat served))] /\
  all_batches batch_size served =
    sb.1 ++ match sb.2 with [] => [] | _ => [sb.2] end /\
  ((0 < batch_size)%Z ->
   Forall (fun batch => (batch_size <= len batch)%Z) sb.1 /\
   (len sb.2 < batch_size)%Z) /\
  ((1 < batch_size)%Z ->
   forall records extra,
     served = map (fun raw => [raw]) (records ++ [extra]) ->
     len records = batch_size ->
     sb = ([records], [extra]) /\
     all_batches batch_size served = [records; [extra]]) /\
  DEFAULT_BATCH_SIZE = 500%Z.
Proof.
  intros Hpages Hlast Hnet [after Hready] Hst run served sb.
  destruct (poll_pages client min_created_ts batch_size r last pages w script
              Hpages Hlast Hnet after Hready Hst)
    as (W & Hrun & _ & Hdb & _).
  unfold run. rewrite Hrun. cbn [fst snd].
  split; [reflexivity |]. split.
  { injection Hdb as _ _ Hl. rewrite Hl, flushes_logged.
    cbn [snd]. rewrite <- app_assoc. reflexivity. }
  split; [reflexivity |]. split; [| split; [| reflexivity]].
  - intros Hpos. apply sink_batches_sizes. exact Hpos.
  - intros Hbs records extra Hserved Hlen. unfold sb, all_batches.
    rewrite Hserved, (sink_batches_one_by_one batch_size records extra Hbs Hlen).
    split; reflexivity.
Qed.

Section PollExamples.
#[local] Existing Instance ExampleRuntime.runtime.


(** Three records, one per page, with a batch size of 2: a flush of two,
    then a drain of one. *)
Lemma flush_at_page_boundaries_witness :
  let pages := [([market_named "M1"], PStr "a");
                ([market_named "M2"], PStr "b")] in
  let last := ([market_named "M3"], PNone) in
  let w := example_world
             (map (fun p => inr (page_response "markets" p))
                  (pages ++ [last])) in
  let run := poll Markets example_client PNone 2 w in
  run.1 = Ret tt /\
  logged run.2 =
    [InfoFlushed "markets" 2; InfoFlushed "markets" 1;
     InfoIngested "markets" 3].
Proof.
  intros pages last w run.
  destruct (flush_at_page_boundaries Markets example_client PNone 2
              pages last w []
              ltac:(repeat constructor) eq_refl
              ltac:(vm_compute; reflexivity)
              ltac:(vm_compute; eexists; reflexivity)
              ltac:(repeat constructor))
    as (Hret & Hlog & _).
  exact (conj Hret Hlog).
Defined.

(** A bucket that starts empty serves two requests as well: the first
    call finds a twentieth of a token, sleeps a tenth of a second and is
    served at the next reading. *)
Example limiter_serves_after_waiting :
  limiter_serves 2 (mkTokenBucket 2 1 0 0) [1 # 20; 2; 3]%Q =
    Some (mkTokenBucket 2 1 1 3, [], [1 # 10]%Q).
Proof. vm_compute. reflexivity. Qed.

(** C4 as stated fails: the buffer is tested once per page, not once per
    record.  With a batch size of 2, a page of three records makes one flush
    of three and leaves nothing to drain: one transaction, one "Flushed"
    record.  And with a batch size of 1, two records that come one per page
    make two automatic flushes. *)
Lemma flush_takes_whole_pages :
  let page := ([market_named "M1"; market_named "M2"; market_named "M3"],
               PNone) in
  let w := example_world [inr (page_response "markets" page)] in
  let run := poll Markets example_client PNone 2 w in
  run.1 = Ret tt /\
  logged run.2 = [InfoFlushed "markets" 3; InfoIngested "markets" 3] /\
  txn run.2 = 1%nat /\
  sink_batches 2 [] [page.1] = ([page.1], []) /\
  sink_batches 1 [] [[market_named "M1"]; [market_named "M2"]] =
    ([[market_named "M1"]; [market_named "M2"]], []).
Proof. vm_compute. repeat split. Qed.

End PollExamples.

(* --------------------------------------------------------------------- *)
(** ** The lifecycle                                                      *)
(* --------------------------------------------------------------------- *)

Section LifecycleFacts.

Lemma cancel_and_finish_done (s : TaskState) :
  done (cancel_and_finish s) = true.
Proof. destruct s; reflexivity. Qed.

Lemma moves_pending (s s' : TaskState) : moves s s' = true -> done s = false.
Proof. destruct s, s'; simpl; congruence. Qed.

Lemma live_tasks_app (sv : Supervisor) (earlier : list (TaskArgs * TaskState))
    (t : TaskArgs * TaskState) :
  tasks sv = earlier ++ [t] ->
  Forall (fun t' => done t'.2 = true) earlier ->
  live_tasks sv = if done t.2 then 0%nat else 1%nat.
Proof.
  intros Htasks Hdone. unfold live_tasks. rewrite Htasks, filter_app.
  rewrite length_app.
  assert (Hnone : filter (fun t' : TaskArgs * TaskState => done t'.2 = false)
                         earlier = []).
  { clear Htasks. induction Hdone as [| t' l Ht' _ IH]; [reflexivity |].
    rewrite filter_cons, decide_False by congruence. exact IH. }
  rewrite Hnone. rewrite filter_cons.
  destruct (done t.2) eqn:Hd.
  - rewrite decide_False by congruence. reflexivity.
  - rewrite decide_True by reflexivity. reflexivity.
Qed.

Lemma supervised_live (sv : Supervisor) :
  supervised sv -> (live_tasks sv <= 1)%nat.
Proof.
  intros [_ [Hnil | (earlier & t & Htasks & Hdone & _)]].
  - unfold live_tasks. rewrite Hnil. simpl. lia.
  - rewrite (live_tasks_app sv earlier t Htasks Hdone).
    destruct (done t.2); lia.
Qed.

(** A supervisor that is not running has no pending task. *)
Lemma supervised_idle (sv : Supervisor) :
  supervised sv -> ~ running sv ->
  Forall (fun t => done t.2 = true) (tasks sv).
Proof.
  intros [_ [Hnil | (earlier & t & Htasks & Hdone & Hlast)]] Hidle.
  - rewrite Hnil. constructor.
  - rewrite Htasks. apply Forall_app. split; [exact Hdone |].
    constructor; [| constructor].
    destruct (done t.2) eqn:Hd; [reflexivity |].
    exfalso. apply Hidle. exists (length earlier), t.2.
    split; [apply Hlast; reflexivity |]. split; [| exact Hd].
    unfold task_state. rewrite Htasks.
    rewrite lookup_app_r by lia.
    rewrite Nat.sub_diag. reflexivity.
Qed.

Lemma running_dec (sv : Supervisor) :
  (running sv /\
   forall p m b, start_ingestion p m b sv = (Ret tt, sv)) \/
  (~ running sv /\
   forall p m b,
     tasks (start_ingestion p m b sv).2 =
       tasks sv ++
         [(mkTaskArgs p
             (if is_None m
              then match INGEST_MIN_CREATED_TS sv with
                   | Some s => PStr s
                   | None => PNone
                   end
              else m) b, PendingSetup)] /\
     _INGEST_TASK (start_ingestion p m b sv).2 = Some (length (tasks sv))).
Proof.
  unfold running, start_ingestion.
  destruct (_INGEST_TASK sv) as [i |] eqn:Hh.
  - destruct (task_state sv i) as [s |] eqn:Hs.
    + destruct (done s) eqn:Hd.
      * right. split; [| intros; split; reflexivity].
        intros (i' & s' & [= <-] & Hs' & Hd'). congruence.
      * left. split; [eauto |]. reflexivity.
    + right. split; [| intros; split; reflexivity].
      intros (i' & s' & [= <-] & Hs' & Hd'). congruence.
  - right. split; [| intros; split; reflexivity].
    intros (i' & s' & Hh' & _). discriminate.
Qed.

Lemma start_supervised (p : Z) (m : PyVal) (b : Z) (sv : Supervisor) :
  supervised sv -> supervised (start_ingestion p m b sv).2.
Proof.
  intros Hsv. destruct (running_dec sv) as [[_ Hsame] | [Hidle Hnew]].
  - rewrite Hsame. exact Hsv.
  - destruct (Hnew p m b) as [Htasks Hhandle].
    split.
    + intros i Hi. rewrite Hhandle in Hi. injection Hi as <-.
      rewrite Htasks, length_app. simpl. lia.
    + right. eexists _, _. split; [exact Htasks |].
      split; [exact (supervised_idle sv Hsv Hidle) |].
      intros _. exact Hhandle.
Qed.

Lemma alter_done (f : TaskArgs * TaskState -> TaskArgs * TaskState)
    (i : nat) (l : list (TaskArgs * TaskState)) :
  (forall t, done t.2 = true -> done (f t).2 = true) ->
  Forall (fun t => done t.2 = true) l ->
  Forall (fun t => done t.2 = true) (alter f i l).
Proof.
  intros Hf Hl. revert i. induction Hl as [| t l Ht Hl IH]; intros i;
    [constructor |].
  destruct i as [| i]; cbn [alter list_alter]; constructor;
    [apply Hf, Ht | exact Hl | exact Ht | exact (IH i)].
Qed.

Lemma alter_fixed {A} (f : A -> A) (i : nat) (l : list A) (x : A) :
  l !! i = Some x -> f x = x -> alter f i l = l.
Proof.
  intros Hx Hf. apply list_eq. intros j.
  destruct (decide (i = j)) as [<- | Hne].
  - rewrite list_lookup_alter_eq, Hx. simpl. rewrite Hf. reflexivity.
  - apply list_lookup_alter_ne. exact Hne.
Qed.

(** A [stop_ingestion] call that nothing overlaps, in one step: the task
    the handle refers to ends, if it was pending, and the handle is
    dropped. *)
Lemma stop_ingestion_alone_spec (sv : Supervisor) :
  stop_ingestion_alone sv =
    match _INGEST_TASK sv with
    | None => (Ret tt, sv)
    | Some i =>
        match task_state sv i with
        | Some _ =>
            (Ret tt,
             mkSupervisor
               (alter (fun t => (t.1, cancel_and_finish t.2)) i (tasks sv))
               None (INGEST_MIN_CREATED_TS sv) (sup_logged sv))
        | None => (Stall, sv)
        end
    end.
Proof.
  unfold stop_ingestion_alone, stop_ingestion.
  cbn [supervisor cancel_requested awaiting].
  destruct (_INGEST_TASK sv) as [i |] eqn:Hh; [| reflexivity].
  destruct (task_state sv i) as [s |] eqn:Hs; [| reflexivity].
  unfold task_state in Hs.
  destruct (tasks sv !! i) as [t |] eqn:Ht; [| discriminate].
  injection Hs as <-.
  destruct (done t.2) eqn:Hd.
  - cbn [supervisor]. unfold set_handle. f_equal. f_equal.
    symmetry. apply (alter_fixed _ i (tasks sv) t Ht).
    destruct t as [args st]; cbn [fst snd] in *.
    destruct st; try discriminate; reflexivity.
  - cbn [awaiting app]. unfold task_turn, stop_ingestion_resumes.
    cbn [supervisor cancel_requested awaiting].
    rewrite bool_decide_eq_true_2 by apply list_elem_of_here.
    cbn [supervisor cancel_requested awaiting].
    unfold task_state. cbn [tasks].
    rewrite list_lookup_alter_eq, Ht.
    cbn [fmap option_fmap option_map snd].
    rewrite cancel_and_finish_done.
    rewrite bool_decide_eq_true_2 by apply list_elem_of_here.
    cbn [andb awaiting drop_first]. rewrite Nat.eqb_refl.
    reflexivity.
Qed.

(** [stop_ingestion], not overlapped, on a supervised state: it returns,
    the handle is dropped, no task is pending. *)
Lemma stop_supervised (sv : Supervisor) :
  supervised sv ->
  (stop_ingestion_alone sv).1 = Ret tt /\
  _INGEST_TASK (stop_ingestion_alone sv).2 = None /\
  Forall (fun t => done t.2 = true) (tasks (stop_ingestion_alone sv).2) /\
  length (tasks (stop_ingestion_alone sv).2) = length (tasks sv).
Proof.
  intros [Hhandle Hshape]. rewrite stop_ingestion_alone_spec.
  destruct (_INGEST_TASK sv) as [i |] eqn:Hh.
  - specialize (Hhandle i eq_refl).
    destruct (lookup_lt_is_Some_2 (tasks sv) i Hhandle) as [t Ht].
    unfold task_state. rewrite Ht.
    cbn [fmap option_fmap option_map snd fst tasks _INGEST_TASK].
    assert (Hall : Forall (fun t' => done t'.2 = true)
              (alter (fun t' : TaskArgs * TaskState =>
                        (t'.1, cancel_and_finish t'.2)) i (tasks sv))).
    { destruct Hshape as [Hnil | (earlier & t' & Htasks & Hdone & Hlast)].
      - rewrite Hnil in Ht. discriminate.
      - rewrite Htasks.
        destruct (decide (i < length earlier)%nat) as [Hlt | Hge].
        + rewrite alter_app_l by exact Hlt.
          apply Forall_app. split.
          * apply alter_done; [| exact Hdone]. intros t0 _.
            apply cancel_and_finish_done.
          * constructor; [| constructor].
            destruct (done t'.2) eqn:Hd; [reflexivity |].
            specialize (Hlast eq_refl). injection Hlast as ->. lia.
        + rewrite alter_app_r_alt by lia.
          apply Forall_app. split; [exact Hdone |].
          rewrite Htasks, length_app in Hhandle. simpl in Hhandle.
          replace (i - length earlier)%nat with 0%nat by lia.
          cbn [alter list_alter]. constructor; [| constructor].
          apply cancel_and_finish_done. }
    rewrite length_alter. auto.
  - cbn [fst snd]. rewrite Hh. repeat split.
    destruct Hshape as [Hnil | (earlier & t & Htasks & Hdone & Hlast)].
    + rewrite Hnil. constructor.
    + rewrite Htasks. apply Forall_app. split; [exact Hdone |].
      constructor; [| constructor].
      destruct (done t.2); [reflexivity |]. specialize (Hlast eq_refl).
      discriminate.
Qed.

Lemma all_done_supervised (sv : Supervisor) :
  _INGEST_TASK sv = None ->
  Forall (fun t => done t.2 = true) (tasks sv) ->
  supervised sv.
Proof.
  intros Hh Hall. split; [intros i Hi; congruence |].
  destruct (tasks sv) as [| t0 l] eqn:Htasks using rev_ind;
    [left; reflexivity |].
  right. exists l, t0. split; [reflexivity |].
  apply Forall_app in Hall as [Hl Ht]. split; [exact Hl |].
  intros Hd. apply Forall_cons in Ht as [Ht _]. congruence.
Qed.

Lemma step_supervised (st : Step) (sv : Supervisor) :
  supervised sv -> supervised (step st sv).
Proof.
  intros Hsv. destruct st as [p m b | | i s]; cbn [step].
  - apply start_supervised, Hsv.
  - destruct (stop_supervised sv Hsv) as (_ & Hh & Hall & _).
    apply all_done_supervised; assumption.
  - destruct Hsv as [Hhandle Hshape]. unfold task_moves.
    split; cbn [tasks _INGEST_TASK].
    + intros j Hj. rewrite length_alter. apply Hhandle, Hj.
    + destruct Hshape as [Hnil | (earlier & t & Htasks & Hdone & Hlast)].
      * left. rewrite Hnil. reflexivity.
      * right. rewrite Htasks.
        assert (Hkeep : forall t0 : TaskArgs * TaskState,
                  done t0.2 = true ->
                  done (if moves t0.2 s then (t0.1, s) else t0).2 = true).
        { intros t0 Ht0. destruct (moves t0.2 s) eqn:Hm; [| exact Ht0].
          apply moves_pending in Hm. congruence. }
        destruct (decide (i < length earlier)%nat) as [Hlt | Hge].
        -- rewrite alter_app_l by exact Hlt.
           eexists _, t. split; [reflexivity |].
           split; [apply alter_done; assumption |].
           rewrite length_alter. exact Hlast.
        -- rewrite alter_app_r_alt by lia.
           destruct (i - length earlier)%nat as [| n]; cbn [alter list_alter].
           ++ eexists earlier, _. split; [reflexivity |].
              split; [exact Hdone |]. intros Hd. apply Hlast.
              destruct (done t.2) eqn:Ht; [| reflexivity].
              rewrite (Hkeep t Ht) in Hd. discriminate.
           ++ exists earlier, t. split; [reflexivity |].
              split; assumption.
Qed.

Lemma run_supervised (steps : list Step) (sv : Supervisor) :
  supervised sv -> supervised (run steps sv).
Proof.
  revert sv. induction steps as [| st steps IH]; intros sv Hsv;
    [exact Hsv |].
  apply IH, step_supervised, Hsv.
Qed.

Lemma initial_supervised (env : option string) : supervised (initial env).
Proof. split; [intros i Hi; discriminate | left; reflexivity]. Qed.

End LifecycleFacts.

Section LifecycleTheorems.

Lemma all_done_live (sv : Supervisor) :
  Forall (fun t => done t.2 = true) (tasks sv) -> live_tasks sv = 0%nat.
Proof.
  unfold live_tasks. induction 1 as [| t l Ht _ IH]; [reflexivity |].
  rewrite filter_cons, decide_False by congruence. exact IH.
Qed.

Lemma start_running (p : Z) (m : PyVal) (b : Z) (sv : Supervisor) :
  supervised sv -> running (start_ingestion p m b sv).2.
Proof.
  intros Hsv. destruct (running_dec sv) as [[Hrun Hsame] | [Hidle Hnew]].
  - rewrite Hsame. exact Hrun.
  - destruct (Hnew p m b) as [Htasks Hhandle].
    exists (length (tasks sv)), PendingSetup.
    split; [exact Hhandle |]. split; [| reflexivity].
    unfold task_state. rewrite Htasks.
    rewrite lookup_app_r by lia. rewrite Nat.sub_diag. reflexivity.
Qed.

Lemma start_when_running (p : Z) (m : PyVal) (b : Z) (sv : Supervisor) :
  running sv -> start_ingestion p m b sv = (Ret tt, sv).
Proof.
  intros Hrun. destruct (running_dec sv) as [[_ Hsame] | [Hidle _]].
  - apply Hsame.
  - contradiction.
Qed.

Lemma running_live (sv : Supervisor) :
  supervised sv -> running sv -> live_tasks sv = 1%nat.
Proof.
  intros Hsv (i & s & Hh & Hs & Hd).
  pose proof (supervised_live sv Hsv) as Hle.
  enough (live_tasks sv <> 0)%nat by lia.
  unfold live_tasks, task_state in *.
  destruct (tasks sv !! i) as [t |] eqn:Ht; [| discriminate].
  injection Hs as <-.
  assert (Hin : t ∈ filter (fun t' : TaskArgs * TaskState =>
                              done t'.2 = false) (tasks sv)).
  { apply list_elem_of_filter. split; [exact Hd |].
    apply list_elem_of_lookup. eauto. }
  destruct (filter _ (tasks sv)); [| discriminate].
  apply elem_of_nil in Hin. destruct Hin.
Qed.

End LifecycleTheorems.

Section LoopFacts.

Lemma loop_run_app (a b : list LoopStep) (l : Loop) :
  loop_run (a ++ b) l = loop_run b (loop_run a l).
Proof. apply foldl_app. Qed.

(** A lifecycle call or a task's move, given as steps of the event loop
    that leave no call suspended. *)
Lemma step_in_loop (st : Step) (sv : Supervisor) :
  exists lsteps,
    loop_run lsteps (mkLoop sv [] []) = mkLoop (step st sv) [] [].
Proof.
  destruct st as [p m b | | i s].
  - exists [Starts p m b]. reflexivity.
  - cbn [step]. rewrite stop_ingestion_alone_spec.
    destruct (_INGEST_TASK sv) as [i |] eqn:Hh.
    + destruct (task_state sv i) as [s |] eqn:Hs.
      * pose proof Hs as Hs'. unfold task_state in Hs'.
        destruct (tasks sv !! i) as [t |] eqn:Ht; [| discriminate].
        injection Hs' as <-.
        destruct (done t.2) eqn:Hd.
        -- exists [Stops]. cbn [loop_run foldl loop_step].
           unfold stop_ingestion. cbn [supervisor cancel_requested awaiting].
           rewrite Hh, Hs, Hd. cbn [snd]. unfold set_handle.
           f_equal. f_equal. symmetry.
           apply (alter_fixed _ i (tasks sv) t Ht).
           destruct t as [args st]; cbn [fst snd] in *.
           destruct st; try discriminate; reflexivity.
        -- exists [Stops; Turn i PendingSetup; Resumes i].
           cbn [loop_run foldl loop_step].
           unfold stop_ingestion. cbn [supervisor cancel_requested awaiting].
           rewrite Hh, Hs, Hd. cbn [snd app].
           unfold task_turn, stop_ingestion_resumes.
           cbn [supervisor cancel_requested awaiting].
           rewrite bool_decide_eq_true_2 by apply list_elem_of_here.
           cbn [supervisor cancel_requested awaiting].
           unfold task_state. cbn [tasks].
           rewrite list_lookup_alter_eq, Ht.
           cbn [fmap option_fmap option_map snd].
           rewrite cancel_and_finish_done.
           rewrite bool_decide_eq_true_2 by apply list_elem_of_here.
           cbn [andb drop_first]. rewrite Nat.eqb_refl.
           rewrite filter_cons, decide_False by (intros Hne; apply Hne;
                                                 reflexivity).
           reflexivity.
      * exists [Stops]. cbn [loop_run foldl loop_step].
        unfold stop_ingestion. cbn [supervisor]. rewrite Hh, Hs. reflexivity.
    + exists [Stops]. cbn [loop_run foldl loop_step].
      unfold stop_ingestion. cbn [supervisor]. rewrite Hh. reflexivity.
  - exists [Turn i s]. reflexivity.
Qed.

(** Runs of calls that do not overlap are runs of the event loop. *)
Lemma run_in_loop (steps : list Step) (sv : Supervisor) :
  exists lsteps,
    loop_run lsteps (mkLoop sv [] []) = mkLoop (run steps sv) [] [].
Proof.
  revert sv. induction steps as [| st steps IH]; intros sv.
  - exists []. reflexivity.
  - destruct (step_in_loop st sv) as [l1 H1].
    destruct (IH (step st sv)) as [l2 H2].
    exists (l1 ++ l2). rewrite loop_run_app, H1. exact H2.
Qed.

End LoopFacts.

(** C9, as amended.  Whatever the event loop has done - calls overlapping
    or not - [start_ingestion] on a running supervisor returns and changes
    nothing, and [stop_ingestion] on a supervisor without handle returns
    and changes nothing.  In every state the supervisor reaches from the
    freshly imported module through lifecycle calls that do not overlap (a
    [stop_ingestion] has resumed from its [await] before the next call
    begins) and through the moves the polling task makes by itself - each
    of them a state of the event loop with no call suspended -: at most
    one polling task is not done; after any [start_ingestion] exactly one
    task is pending, so a second start changes nothing; and a
    [stop_ingestion] that no call overlaps returns with the handle dropped
    and no task pending, so a second stop changes nothing. *)
Theorem lifecycle_idempotent (env : option string) (steps : list Step) :
  let sv := run steps (initial env) in
  (forall l : Loop,
     (running (supervisor l) ->
      forall p m b,
        start_ingestion p m b (supervisor l) = (Ret tt, supervisor l)) /\
     (_INGEST_TASK (supervisor l) = None -> stop_ingestion l = (true, l))) /\
  (exists lsteps,
     loop_run lsteps (mkLoop (initial env) [] []) = mkLoop sv [] []) /\
  (live_tasks sv <= 1)%nat /\
  (forall p m b,
     let started := (start_ingestion p m b sv).2 in
     (start_ingestion p m b sv).1 = Ret tt /\
     running started /\
     live_tasks started = 1%nat /\
     forall p' m' b', start_ingestion p' m' b' started = (Ret tt, started)) /\
  (_INGEST_TASK sv = None -> stop_ingestion_alone sv = (Ret tt, sv)) /\
  (let stopped := (stop_ingestion_alone sv).2 in
   (stop_ingestion_alone sv).1 = Ret tt /\
   _INGEST_TASK stopped = None /\
   live_tasks stopped = 0%nat /\
   stop_ingestion_alone stopped = (Ret tt, stopped)).
Proof.
  intros sv.
  assert (Hsv : supervised sv)
    by apply run_supervised, initial_supervised.
  split.
  { intros l. split.
    - intros Hrun p m b. apply start_when_running, Hrun.
    - intros Hidle. unfold stop_ingestion. rewrite Hidle. reflexivity. }
  split; [apply run_in_loop |].
  split; [exact (supervised_live sv Hsv) |].
  split; [| split].
  - intros p m b started.
    assert (Hrun : running started) by apply start_running, Hsv.
    assert (Hsv' : supervised started) by apply start_supervised, Hsv.
    split; [| split; [exact Hrun | split]].
    + unfold start_ingestion. destruct (match _INGEST_TASK sv with
                                        | Some _ => _ | None => _ end);
        reflexivity.
    + apply running_live; assumption.
    + intros p' m' b'. apply start_when_running, Hrun.
  - intros Hidle. rewrite stop_ingestion_alone_spec, Hidle. reflexivity.
  - intros stopped.
    destruct (stop_supervised sv Hsv) as (Hret & Hh & Hall & _).
    split; [exact Hret |]. split; [exact Hh |].
    split; [apply all_done_live, Hall |].
    rewrite (stop_ingestion_alone_spec stopped). fold stopped in Hh.
    rewrite Hh. reflexivity.
Qed.

(** A start, a second start, a failed cycle, a stop and a second stop. *)
Lemma lifecycle_idempotent_witness :
  let steps := [CallStart 60 PNone 500; CallStart 30 PNone 100;
                TaskMoves 0 PendingInCycle; TaskMoves 0 PendingInHandler;
                CallStop; CallStop] in
  (live_tasks (run steps (initial None)) <= 1)%nat /\
  _INGEST_TASK (stop_ingestion_alone (run steps (initial None))).2 = None.
Proof.
  intros steps.
  pose proof (lifecycle_idempotent None steps)
    as (_ & _ & Hlive & _ & _ & Hstop).
  split; [exact Hlive |]. exact (proj1 (proj2 Hstop)).
Defined.

(** C9 as stated fails when a [start_ingestion] falls into the [await] of
    a [stop_ingestion].  The task is started; a stop cancels it and
    awaits it; the task ends; before the event loop resumes the stop, a
    start finds the task done and creates a second one; the stop then
    resumes and drops the handle, which by now refers to the second task:
    the stop has returned, yet a task is pending and nothing refers to it.
    The next start creates a third task, and two polling tasks are
    pending. *)
Lemma stop_overlapped_by_start :
  let overlapped :=
    loop_run [Starts 60 PNone 500; Stops; Turn 0 PendingInCycle;
              Starts 60 PNone 500; Resumes 0]
             (mkLoop (initial None) [] []) in
  let restarted := loop_step (Starts 60 PNone 500) overlapped in
  awaiting overlapped = [] /\
  _INGEST_TASK (supervisor overlapped) = None /\
  live_tasks (supervisor overlapped) = 1%nat /\
  live_tasks (supervisor restarted) = 2%nat /\
  ~ (live_tasks (supervisor restarted) <= 1)%nat.
Proof.
  vm_compute. repeat split. intros Hle. inversion Hle as [| n Hn]; subst.
  inversion Hn.
Qed.

(** The same run, step by step: the second start creates no task and the
    stop leaves the one task cancelled. *)
Example lifecycle_run :
  let started := run [CallStart 60 PNone 500; CallStart 30 PNone 100]
                     (initial None) in
  let stopped := run [TaskMoves 0 PendingInCycle; TaskMoves 0 PendingInHandler;
                      CallStop; CallStop] started in
  tasks started = [(mkTaskArgs 60 PNone 500, PendingSetup)] /\
  _INGEST_TASK started = Some 0%nat /\
  tasks stopped = [(mkTaskArgs 60 PNone 500, Cancelled)] /\
  _INGEST_TASK stopped = None.
Proof. repeat split. Qed.

(* --------------------------------------------------------------------- *)
(** ** The waits of the rate limiter and the requests of a call           *)
(* --------------------------------------------------------------------- *)

Section SleepFacts.

(** The sleeps of the waiting loop: one per reading that did not cover the
    request, each of a tenth of a second at most. *)
Lemma acquire_loop_sleeps (fuel : nat) (n : Q) :
  forall w : World,
    exists sleeps,
      slept (acquire_loop fuel n w).2 = slept w ++ sleeps /\
      Forall (fun d => (d <= 1 # 10)%Q) sleeps /\
      (length sleeps <= length (clock w))%nat /\
      ((0 < refill_rate_per_second (rate_limiter w))%Q ->
       Forall (fun d => (0 < d)%Q) sleeps).
Proof.
  induction fuel as [| fuel IH]; intros w.
  - exists []. simpl. rewrite app_nil_r. repeat split; auto with arith.
  - cbn [acquire_loop]. unfold bind at 1, _refill, bind, time_time.
    destruct w as [b c sl ne se lg mk ev dn tx]; cbn [clock rate_limiter slept].
    destruct c as [| t rest].
    { exists []. simpl. rewrite app_nil_r. repeat split; auto. }
    unfold set_clock, set_rate_limiter.
    cbn [fst snd rate_limiter clock slept net sent logged markets events
         dbnow txn].
    destruct (Qle_bool n (tokens (refill_at b t))) eqn:Hle.
    { exists []. simpl. rewrite app_nil_r. repeat split; auto with arith. }
    destruct (Qeq_bool (refill_rate_per_second (refill_at b t)) 0).
    { exists []. simpl. rewrite app_nil_r. repeat split; auto with arith. }
    unfold bind, asyncio_sleep, set_slept.
    cbn [fst snd rate_limiter clock slept net sent logged markets events
         dbnow txn].
    match goal with
    | |- context [acquire_loop fuel n ?w1] =>
        destruct (IH w1) as (sleeps & Hs & Hshort & Hlen & Hpos)
    end.
    cbn [slept clock rate_limiter] in Hs, Hlen, Hpos.
    eexists (_ :: sleeps). split; [rewrite Hs, <- app_assoc; reflexivity |].
    split; [constructor; [apply Q.le_min_r | exact Hshort] |].
    split; [simpl; lia |].
    intros Hrate. constructor; [| apply Hpos; exact Hrate].
    cbn [refill_at refill_rate_per_second].
    assert (Hlt : (tokens (refill_at b t) < n)%Q).
    { apply Qnot_le_lt. intros Hge. apply Qle_bool_iff in Hge. congruence. }
    apply Q.min_glb_lt; [| reflexivity].
    apply Qlt_shift_div_l; [exact Hrate |]. lra.
Qed.

End SleepFacts.

(** X3.  The waits of [acquire].  Whatever the bucket and the amount, the
    call sleeps at most once per clock reading and never more than a tenth
    of a second at a time ([min(wait_time, 0.1)]); with a positive refill
    rate every sleep is above zero. *)
Theorem acquire_sleeps_short (n : Q) (w : World) :
  exists sleeps,
    slept (acquire n w).2 = slept w ++ sleeps /\
    Forall (fun d => (d <= 1 # 10)%Q) sleeps /\
    (length sleeps <= length (clock w))%nat /\
    ((0 < refill_rate_per_second (rate_limiter w))%Q ->
     Forall (fun d => (0 < d)%Q) sleeps).
Proof. apply acquire_loop_sleeps. Qed.

Section RequestBudgetFacts.
Variables (self : KalshiHttpClient).

(** The retry loop leaves the bucket, the clock and the database as they
    are. *)
Lemma retry_loop_frame (method url : string)
    (params : option (gmap string PyVal)) (max_retries : Z) (base_backoff : Q)
    (attempts : list Z) :
  forall w : World,
    let w' := (retry_loop self method url params max_retries base_backoff
                          attempts w).2 in
    rate_limiter w' = rate_limiter w /\ clock w' = clock w /\
    markets w' = markets w /\ events w' = events w /\
    dbnow w' = dbnow w /\ txn w' = txn w.
Proof.
  induction attempts as [| a attempts IH]; intros w; [now repeat split |].
  cbn zeta. cbn [retry_loop]. unfold try_except, client_request.
  destruct w as [b c sl ne se lg mk ev dn tx]; cbn [net].
  destruct ne as [| o ne]; [now repeat split |].
  unfold set_net, set_sent.
  cbn [fst snd rate_limiter clock slept net sent logged markets events
       dbnow txn].
  assert (Hgo : forall (wrn : LogRecord) (d : Q),
    let w' := ((do! log wrn in do! asyncio_sleep d in
                retry_loop self method url params max_retries base_backoff
                           attempts)
                 (mkWorld b c sl ne (se ++ [mkRequest method url params
                                                      (_headers self)])
                          lg mk ev dn tx)).2 in
    rate_limiter w' = b /\ clock w' = c /\ markets w' = mk /\
    events w' = ev /\ dbnow w' = dn /\ txn w' = tx).
  { intros wrn d. unfold bind, log, asyncio_sleep, set_logged, set_slept.
    cbn [fst snd rate_limiter clock slept net sent logged markets events
         dbnow txn].
    match goal with
    | |- context [retry_loop _ _ _ _ _ _ attempts ?w1] => exact (IH w1)
    end. }
  assert (Hraise : forall (rec : LogRecord) (e : exn),
    let w' := ((do! log rec in @raise PyVal e)
                 (mkWorld b c sl ne (se ++ [mkRequest method url params
                                                      (_headers self)])
                          lg mk ev dn tx)).2 in
    rate_limiter w' = b /\ clock w' = c /\ markets w' = mk /\
    events w' = ev /\ dbnow w' = dn /\ txn w' = tx).
  { intros rec e. now repeat split. }
  destruct o as [e | body]; [| now repeat split].
  destruct e as [code | | | | cls |]; try (now repeat split).
  - destruct (transient_status code); [| apply Hraise].
    destruct (a <? max_retries - 1)%Z; [apply Hgo | apply Hraise].
  - destruct (a <? max_retries - 1)%Z; [apply Hgo | apply Hraise].
  - destruct (a <? max_retries - 1)%Z; [apply Hgo | apply Hraise].
  - destruct (a <? max_retries - 1)%Z; [apply Hgo | apply Hraise].
Qed.

(** One call of the transport: it takes at most one token, and sends at
    most [max_retries] requests for it. *)
Lemma request_budget (method url : string)
    (params : option (gmap string PyVal)) (max_retries : Z) (base_backoff : Q)
    (w : World) :
  let r := _request_with_retry self method url params max_retries
                               base_backoff w in
  let g := grant 1 (acquire 1 w).1 in
  rate_limiter r.2 = rate_limiter (acquire 1 w).2 /\
  clock r.2 = clock (acquire 1 w).2 /\
  exists new,
    sent r.2 = sent w ++ new /\
    (inject_Z (len new) <= inject_Z (Z.max 0 max_retries) * g)%Q.
Proof.
  cbn zeta. unfold _request_with_retry, bind.
  pose proof (acquire_loop_frame (S (length (clock w))) 1 w) as Hf.
  fold (acquire 1 w) in Hf. cbn zeta in Hf.
  destruct (acquire 1 w) as [[[] | e |] w1]; cbn [fst snd grant] in *.
  - destruct (retry_loop_frame method url params max_retries base_backoff
                (range max_retries) w1) as (Hb & Hc & _).
    split; [exact Hb |]. split; [exact Hc |].
    destruct (retry_loop_sent self method url params max_retries
                base_backoff (range max_retries) w1) as (n & Hn & Hs).
    exists (repeat (mkRequest method url params (_headers self)) n).
    destruct Hf as (_ & Hsent & _). rewrite Hs, Hsent.
    split; [reflexivity |].
    unfold len. rewrite repeat_length.
    unfold range in Hn. rewrite length_map, length_seq in Hn.
    rewrite Qmult_1_r. rewrite <- Zle_Qle. lia.
  - split; [reflexivity |]. split; [reflexivity |].
    exists []. destruct Hf as (_ & Hsent & _).
    rewrite Hsent, app_nil_r. split; [reflexivity |].
    rewrite Qmult_0_r. apply Qle_refl.
  - split; [reflexivity |]. split; [reflexivity |].
    exists []. destruct Hf as (_ & Hsent & _).
    rewrite Hsent, app_nil_r. split; [reflexivity |].
    rewrite Qmult_0_r. apply Qle_refl.
Qed.

Lemma client_call_shape (c : ClientCall) :
  exists method url params,
    client_call self c =
      _request_with_retry self method url params default_max_retries
                          default_base_backoff.
Proof. destruct c; do 3 eexists; reflexivity. Qed.

(** One call on the client: the bucket and the clock are those its
    [acquire(1)] leaves, and it sends at most three requests, none without
    the token. *)
Lemma client_call_requests (c : ClientCall) (w : World) :
  let r := client_call self c w in
  rate_limiter r.2 = rate_limiter (acquire 1 w).2 /\
  clock r.2 = clock (acquire 1 w).2 /\
  exists new,
    sent r.2 = sent w ++ new /\
    (length new <= 3 * granted_call w)%nat.
Proof.
  cbn zeta.
  destruct (client_call_shape c) as (method & url & params & ->).
  destruct (request_budget method url params default_max_retries
              default_base_backoff w) as (Hb & Hc & new & Hsent & Hlen).
  split; [exact Hb |]. split; [exact Hc |].
  exists new. split; [exact Hsent |].
  change (inject_Z (Z.max 0 default_max_retries)) with 3%Q in Hlen.
  unfold granted_call, grant in *.
  destruct ((acquire 1 w).1) as [[] | e |].
  - rewrite Qmult_1_r in Hlen. change 3%Q with (inject_Z 3) in Hlen.
    rewrite <- Zle_Qle in Hlen. unfold len in Hlen. lia.
  - rewrite Qmult_0_r in Hlen. change 0%Q with (inject_Z 0) in Hlen.
    rewrite <- Zle_Qle in Hlen. unfold len in Hlen. lia.
  - rewrite Qmult_0_r in Hlen. change 0%Q with (inject_Z 0) in Hlen.
    rewrite <- Zle_Qle in Hlen. unfold len in Hlen. lia.
Qed.

Lemma client_calls_requests (cs : list ClientCall) :
  forall w : World,
    exists new,
      sent (client_calls self cs w) = sent w ++ new /\
      (length new <= 3 * granted_calls self cs w)%nat.
Proof.
  induction cs as [| c cs IH]; intros w.
  - exists []. rewrite app_nil_r. split; [reflexivity | simpl; lia].
  - cbn [client_calls foldl granted_calls].
    fold (client_calls self cs (client_call self c w).2).
    destruct (client_call_requests c w) as (_ & _ & new1 & Hsent1 & Hlen1).
    destruct (IH (client_call self c w).2) as (new2 & Hsent2 & Hlen2).
    exists (new1 ++ new2).
    split; [rewrite Hsent2, Hsent1, <- app_assoc; reflexivity |].
    rewrite length_app. lia.
Qed.

End RequestBudgetFacts.

(** X4.  The retries of a call take no token.  A call of [get_markets],
    [get_events] or [get_orderbook] asks the bucket once, for one token,
    before its first attempt: whatever the exchanges do, the bucket and the
    clock after the call are those its [acquire(1)] leaves, and the call
    sends at most three requests, none when the token was not granted.  So
    over any sequence of calls the requests sent number at most three times
    the calls that were granted their token: the limiter bounds the calls,
    not the HTTP requests. *)
Theorem retries_take_no_token (self : KalshiHttpClient)
    (cs : list ClientCall) (w : World) :
  (forall (c : ClientCall) (w0 : World),
     let r := client_call self c w0 in
     rate_limiter r.2 = rate_limiter (acquire 1 w0).2 /\
     clock r.2 = clock (acquire 1 w0).2 /\
     exists new,
       sent r.2 = sent w0 ++ new /\
       (length new <= 3 * granted_call w0)%nat) /\
  exists new,
    sent (client_calls self cs w) = sent w ++ new /\
    (length new <= 3 * granted_calls self cs w)%nat.
Proof.
  split.
  - intros c w0. apply client_call_requests.
  - apply client_calls_requests.
Qed.

(** A markets call that is retried twice, an events call and an orderbook
    call that fails: five requests, three tokens asked for. *)
Example retried_calls_take_one_token_each :
  let w := example_world [inl (HTTPStatusError 503); inl ConnectError;
                          inr (PStr "markets"); inr (PStr "events");
                          inl (HTTPStatusError 404)] in
  let cs := [GetMarkets (PInt 1000) PNone (PStr "exclude") PNone;
             GetEvents (PInt 200) PNone; GetOrderbook "T"] in
  length (sent (client_calls example_client cs w)) = 5%nat /\
  granted_calls example_client cs w = 3%nat.
Proof. vm_compute. split; reflexivity. Qed.

(* --------------------------------------------------------------------- *)
(** ** Backoff and log of the retrying transport                          *)
(* --------------------------------------------------------------------- *)

Section BackoffFacts.

Lemma two_power_S (a : Z) : (0 <= a)%Z -> (2 ^ (a + 1) == 2 * 2 ^ a)%Q.
Proof.
  intros Ha. rewrite Qpower_plus by discriminate. simpl. ring.
Qed.

Lemma two_power_positive (a : Z) : (0 < 2 ^ a)%Q.
Proof. apply Qpower_0_lt. reflexivity. Qed.

Lemma backoffs_total (base_backoff : Q) (k : nat) :
  forall a : Z,
    (0 <= a)%Z ->
    (total (backoffs base_backoff a k) ==
     base_backoff * (2 ^ (a + Z.of_nat k) - 2 ^ a))%Q.
Proof.
  induction k as [| k IH]; intros a Ha.
  - simpl. rewrite Z.add_0_r. ring.
  - cbn [backoffs total foldr]. fold (total (backoffs base_backoff (a + 1) k)).
    rewrite IH by lia.
    replace (a + 1 + Z.of_nat k)%Z with (a + Z.of_nat (S k))%Z by lia.
    rewrite (two_power_S a Ha). ring.
Qed.

Lemma backoffs_length (base_backoff : Q) (k : nat) :
  forall a : Z, length (backoffs base_backoff a k) = k.
Proof. induction k as [| k IH]; intros a; simpl; [| rewrite IH]; reflexivity. Qed.

Lemma warnings_length (base_backoff : Q) (max_retries : Z)
    (failed : list (exn + PyVal)) :
  Forall (fun o => transient o = true) failed ->
  forall a : Z,
    length (warnings base_backoff max_retries a failed) = length failed.
Proof.
  induction 1 as [| o failed Ho _ IH]; intros a; [reflexivity |].
  cbn [warnings]. rewrite length_app, IH.
  destruct o as [[] |]; try discriminate; reflexivity.
Qed.

End BackoffFacts.

(** X5.  The time a call spends backing off.  A call that meets [k]
    transient failures before the exchange that ends it sleeps [k] times
    between attempts, [base_backoff * (2^k - 1)] seconds in all; for a
    non-negative [base_backoff] that is at most
    [base_backoff * (2^(max_retries - 1) - 1)] (3 seconds with the
    defaults). *)
Theorem retry_backoff_total (self : KalshiHttpClient) (method url : string)
    (params : option (gmap string PyVal)) (max_retries : Z) (base_backoff : Q)
    (w w1 : World) (failed : list (exn + PyVal)) (o : exn + PyVal)
    (rest : list (exn + PyVal)) :
  acquire 1 w = (Ret tt, w1) ->
  net w = failed ++ o :: rest ->
  Forall (fun o => transient o = true) failed ->
  (Z.of_nat (length failed) < max_retries)%Z ->
  transient o = false \/ Z.of_nat (S (length failed)) = max_retries ->
  let call := _request_with_retry self method url params max_retries
                                  base_backoff in
  exists sleeps,
    slept (call w).2 = slept w1 ++ sleeps /\
    length sleeps = length failed /\
    (total sleeps == base_backoff * (2 ^ Z.of_nat (length failed) - 1))%Q /\
    ((0 <= base_backoff)%Q ->
     (total sleeps <= base_backoff * (2 ^ (max_retries - 1) - 1))%Q).
Proof.
  intros Hacq Hnet Htrans Hlt Hlast call.
  assert (Hnet1 : net w1 = net w).
  { pose proof (acquire_loop_frame (S (length (clock w))) 1 w) as Hf.
    unfold acquire in Hacq. rewrite Hacq in Hf. simpl in Hf. tauto. }
  exists (backoffs base_backoff 0 (length failed)).
  split.
  { unfold call, _request_with_retry, bind. rewrite Hacq.
    rewrite range_range_from.
    rewrite (retry_loop_run self method url params max_retries base_backoff
               failed 0%Z (Z.to_nat max_retries) w1 o rest);
      [reflexivity | lia | lia | exact Htrans | congruence
       | destruct Hlast; [left; assumption | right; lia]]. }
  split; [apply backoffs_length |].
  pose proof (backoffs_total base_backoff (length failed) 0 (Z.le_refl 0))
    as Htotal.
  rewrite Z.add_0_l in Htotal.
  split; [rewrite Htotal; simpl; ring |].
  intros Hbase. rewrite Htotal.
  assert (Hpow : (2 ^ Z.of_nat (length failed) <= 2 ^ (max_retries - 1))%Q).
  { apply Qpower_le_compat_l; [lia | discriminate]. }
  assert (Hgap : (0 <= base_backoff *
                        (2 ^ (max_retries - 1) -
                         2 ^ Z.of_nat (length failed)))%Q)
    by (apply Qmult_le_0_compat; lra).
  assert (H1 : (2 ^ 0 == 1)%Q) by reflexivity.
  rewrite H1. lra.
Qed.

(** Two transient failures and a success with the defaults: 1 + 2 seconds. *)
Lemma retry_backoff_total_witness :
  let w := example_world [inl (HTTPStatusError 503);
                          inl (HTTPStatusError 429);
                          inr (PStr "body")] in
  exists sleeps,
    slept (_request_with_retry example_client "GET" "u" None 3 1 w).2 =
      slept (acquire 1 w).2 ++ sleeps /\
    (total sleeps == 3)%Q.
Proof.
  intros w.
  destruct (retry_backoff_total example_client "GET" "u" None 3 1 w
              (acquire 1 w).2
              [inl (HTTPStatusError 503); inl (HTTPStatusError 429)]
              (inr (PStr "body")) []
              ltac:(vm_compute; reflexivity) eq_refl
              ltac:(repeat constructor) ltac:(simpl; lia)
              ltac:(left; reflexivity))
    as (sleeps & Hs & _ & Ht & _).
  exists sleeps. split; [exact Hs |]. rewrite Ht. reflexivity.
Defined.

(** X6.  What a call logs.  A call that meets the transient failures
    [failed] before the exchange [o] that ends it adds to the log one
    warning per failure, in order (with the backoff to come and the attempt
    number), then one error record when [o] is an HTTP status error or a
    connection or timeout failure, and nothing more when [o] is a success or
    an exception of another class, which goes to the caller unlogged. *)
Theorem retry_log_records (self : KalshiHttpClient) (method url : string)
    (params : option (gmap string PyVal)) (max_retries : Z) (base_backoff : Q)
    (w w1 : World) (failed : list (exn + PyVal)) (o : exn + PyVal)
    (rest : list (exn + PyVal)) :
  acquire 1 w = (Ret tt, w1) ->
  net w = failed ++ o :: rest ->
  Forall (fun o => transient o = true) failed ->
  (Z.of_nat (length failed) < max_retries)%Z ->
  transient o = false \/ Z.of_nat (S (length failed)) = max_retries ->
  let call := _request_with_retry self method url params max_retries
                                  base_backoff in
  logged (call w).2 =
    logged w ++ warnings base_backoff max_retries 0 failed ++ final_log o /\
  length (warnings base_backoff max_retries 0 failed) = length failed /\
  final_log o =
    match o with
    | inl (HTTPStatusError status_code) => [ErrorHTTP status_code]
    | inl (Exception _) | inl CancelledError | inr _ => []
    | inl e => [ErrorNetwork e]
    end.
Proof.
  intros Hacq Hnet Htrans Hlt Hlast call.
  assert (Hframe : net w1 = net w /\ logged w1 = logged w).
  { pose proof (acquire_loop_frame (S (length (clock w))) 1 w) as Hf.
    unfold acquire in Hacq. rewrite Hacq in Hf. simpl in Hf. tauto. }
  destruct Hframe as [Hnet1 Hlog1].
  split; [| split].
  - unfold call, _request_with_retry, bind. rewrite Hacq.
    rewrite range_range_from.
    rewrite (retry_loop_run self method url params max_retries base_backoff
               failed 0%Z (Z.to_nat max_retries) w1 o rest);
      [| lia | lia | exact Htrans | congruence
       | destruct Hlast; [left; assumption | right; lia]].
    cbn [snd logged]. rewrite Hlog1. reflexivity.
  - apply warnings_length, Htrans.
  - destruct o as [[] |]; reflexivity.
Qed.

(** A status 503, a connection failure and a status 504 on the last
    attempt. *)
Lemma retry_log_records_witness :
  let w := example_world [inl (HTTPStatusError 503);
                          inl ConnectError;
                          inl (HTTPStatusError 504)] in
  logged (_request_with_retry example_client "GET" "u" None 3 1 w).2 =
    [WarnTransientHTTP 503 (1 * 2 ^ 0) 1 3;
     WarnNetwork ConnectError (1 * 2 ^ 1) 2 3;
     ErrorHTTP 504].
Proof.
  intros w.
  exact (proj1 (retry_log_records example_client "GET" "u" None 3 1 w
                  (acquire 1 w).2
                  [inl (HTTPStatusError 503); inl ConnectError]
                  (inl (HTTPStatusError 504)) []
                  ltac:(vm_compute; reflexivity) eq_refl
                  ltac:(repeat constructor) ltac:(simpl; lia)
                  ltac:(right; reflexivity))).
Defined.

(* --------------------------------------------------------------------- *)
(** ** The rows a batch leaves                                            *)
(* --------------------------------------------------------------------- *)

Section LastWriteFacts.
Context `{PyRuntime}.
Variables (key : string) (fields : list (string * conversion))
          (jsonb_cols col_names : list string).
Hypothesis Hok : table_ok key fields jsonb_cols col_names.

Lemma overwrite_lookup (excluded cols : gmap string PyVal) (col : string) :
  overwrite key col_names excluded cols !! col =
    if decide (col ∈ update_sets key col_names)
    then Some (default PNone (excluded !! col))
    else cols !! col.
Proof.
  unfold overwrite.
  apply (foldr_insert_lookup (fun c => default PNone (excluded !! c))).
Qed.

Lemma overwrite_overwrite (e e0 cols : gmap string PyVal) :
  overwrite key col_names e (overwrite key col_names e0 cols) =
    overwrite key col_names e cols.
Proof.
  apply map_eq. intros col. rewrite !overwrite_lookup.
  destruct (decide (col ∈ update_sets key col_names)); reflexivity.
Qed.

Lemma update_sets_spec (col : string) :
  col ∈ update_sets key col_names <-> col ∈ col_names /\ col ≠ key.
Proof.
  unfold update_sets. rewrite list_elem_of_filter. tauto.
Qed.

Lemma excluded_row_lookup (d : gmap string PyVal) (col : string) :
  col ∈ col_names ->
  excluded_row key fields jsonb_cols col_names d !! col =
    Some (argument jsonb_cols (typed_record key fields d) col).
Proof. intros Hin. unfold excluded_row. apply zip_map_lookup, Hin. Qed.

Lemma excluded_row_lookup_None (d : gmap string PyVal) (col : string) :
  col ∉ col_names ->
  excluded_row key fields jsonb_cols col_names d !! col = None.
Proof. intros Hin. unfold excluded_row. apply zip_map_lookup_None, Hin. Qed.

Lemma key_of_lookup (d : gmap string PyVal) (k : string) :
  key_of key (PDict d) = Some k -> default PNone (d !! key) = PStr k.
Proof.
  unfold key_of.
  destruct (default PNone (d !! key)) as [| | | | k' | | | |];
    try discriminate.
  destruct (truthy (PStr k')); [| discriminate]. congruence.
Qed.

(** Two records under one key: the later one overwrites every column the
    earlier one wrote. *)
Lemma overwrite_excluded (d0 d : gmap string PyVal) (k : string) :
  key_of key (PDict d0) = Some k ->
  key_of key (PDict d) = Some k ->
  overwrite key col_names (excluded_row key fields jsonb_cols col_names d)
            (excluded_row key fields jsonb_cols col_names d0) =
    excluded_row key fields jsonb_cols col_names d.
Proof using Hok.
  intros Hk0 Hk. apply map_eq. intros col. rewrite overwrite_lookup.
  destruct (decide (col ∈ update_sets key col_names)) as [Hin | Hout].
  - apply update_sets_spec in Hin as [Hin _].
    rewrite (excluded_row_lookup d col Hin). reflexivity.
  - destruct (decide (col ∈ col_names)) as [Hin | Hnin].
    + assert (col = key) as ->.
      { destruct (decide (col = key)) as [-> | Hne]; [reflexivity |].
        exfalso. apply Hout, update_sets_spec. split; assumption. }
      rewrite !(excluded_row_key key fields jsonb_cols col_names Hok).
      rewrite (key_of_lookup d0 k Hk0), (key_of_lookup d k Hk). reflexivity.
    + rewrite !excluded_row_lookup_None by exact Hnin. reflexivity.
Qed.

Lemma overwrite_same (d : gmap string PyVal) :
  overwrite key col_names (excluded_row key fields jsonb_cols col_names d)
            (excluded_row key fields jsonb_cols col_names d) =
    excluded_row key fields jsonb_cols col_names d.
Proof.
  apply map_eq. intros col. rewrite overwrite_lookup.
  destruct (decide (col ∈ update_sets key col_names)) as [Hin | Hout];
    [| reflexivity].
  apply update_sets_spec in Hin as [Hin _].
  rewrite (excluded_row_lookup d col Hin). reflexivity.
Qed.

(** One statement, read through [row_after]. *)
Lemma upsert_row_after (d : gmap string PyVal) (k : string) (now : Q)
    (table : gmap string Row) :
  upsert_row key col_names k
             (excluded_row key fields jsonb_cols col_names d) now table =
    <[ k := row_after key fields jsonb_cols col_names now (table !! k) d ]>
      table.
Proof.
  unfold upsert_row, row_after, overwrite.
  destruct (table !! k); reflexivity.
Qed.

Lemma table_after_cons (raw : PyVal) (raws : list PyVal) (now : Q)
    (table : gmap string Row) :
  table_after key fields jsonb_cols col_names (raw :: raws) now table =
    table_after key fields jsonb_cols col_names raws now
      match raw, key_of key raw with
      | PDict d, Some k =>
          <[ k := row_after key fields jsonb_cols col_names now
                            (table !! k) d ]> table
      | _, _ => table
      end.
Proof.
  unfold table_after. cbn [foldl].
  destruct raw as [| | | | | | d | |]; try reflexivity.
  destruct (key_of key (PDict d)) as [k |]; [| reflexivity].
  rewrite upsert_row_after. reflexivity.
Qed.

Lemma key_of_dict (raw : PyVal) (k : string) :
  key_of key raw = Some k -> exists d, raw = PDict d.
Proof. destruct raw; try discriminate. eauto. Qed.

Lemma last_with_key_cons (raw : PyVal) (raws : list PyVal) (k : string) :
  last_with_key key k (raw :: raws) =
    match last_with_key key k raws with
    | Some later => Some later
    | None => if decide (key_of key raw = Some k) then Some raw else None
    end.
Proof.
  unfold last_with_key. rewrite filter_cons.
  destruct (decide (key_of key raw = Some k)) as [Hk | Hk].
  - destruct (filter _ raws) as [| x l] eqn:Hf; [reflexivity |].
    rewrite last_cons. destruct (last (x :: l)) eqn:Hl; [reflexivity |].
    apply last_None in Hl. discriminate.
  - destruct (last (filter _ raws)); reflexivity.
Qed.

Lemma last_with_key_Some (raws : list PyVal) (k : string) (raw : PyVal) :
  last_with_key key k raws = Some raw ->
  raw ∈ raws /\ key_of key raw = Some k.
Proof.
  unfold last_with_key. intros Hl.
  assert (Hin : raw ∈ filter (fun raw => key_of key raw = Some k) raws).
  { apply last_Some in Hl as [l' ->]. apply elem_of_app. right.
    apply list_elem_of_here. }
  apply list_elem_of_filter in Hin. tauto.
Qed.

(** The row under each key after a batch: untouched when no record of the
    batch carries the key; otherwise what the last such record makes of the
    row the key held before the batch. *)
Lemma table_after_lookup (raws : list PyVal) (now : Q) (k : string) :
  forall table : gmap string Row,
    table_after key fields jsonb_cols col_names raws now table !! k =
      match last_with_key key k raws with
      | Some (PDict d) =>
          Some (row_after key fields jsonb_cols col_names now (table !! k) d)
      | _ => table !! k
      end.
Proof using Hok.
  induction raws as [| raw raws IH]; intros table; [reflexivity |].
  rewrite table_after_cons, IH, last_with_key_cons.
  destruct (last_with_key key k raws) as [later |] eqn:Hlater.
  - (* a later record carries the key *)
    apply last_with_key_Some in Hlater as [_ Hk].
    destruct (key_of_dict later k Hk) as [d ->].
    destruct raw as [| | | | | | d0 | |]; try reflexivity.
    destruct (key_of key (PDict d0)) as [k0 |] eqn:Hk0; [| reflexivity].
    destruct (decide (k0 = k)) as [-> | Hne].
    + rewrite lookup_insert_eq. f_equal. unfold row_after.
      destruct (table !! k) as [old |]; cbn [row_cols created_at].
      * rewrite overwrite_overwrite. reflexivity.
      * rewrite (overwrite_excluded d0 d k Hk0 Hk). reflexivity.
    + rewrite lookup_insert_ne by exact Hne. reflexivity.
  - destruct (decide (key_of key raw = Some k)) as [Hk | Hk].
    + destruct (key_of_dict raw k Hk) as [d ->]. rewrite Hk.
      rewrite lookup_insert_eq. reflexivity.
    + destruct raw as [| | | | | | d0 | |]; try reflexivity.
      destruct (key_of key (PDict d0)) as [k0 |] eqn:Hk0; [| reflexivity].
      rewrite lookup_insert_ne by congruence. reflexivity.
Qed.

End LastWriteFacts.

Section SinkTableFacts.
Context `{PyRuntime}.

Lemma table_after_unkeyed (key : string) (fields : list (string * conversion))
    (jsonb_cols col_names : list string)
    (Hok : table_ok key fields jsonb_cols col_names)
    (raws : list PyVal) (now : Q) (table : gmap string Row) :
  filter (keyed key) raws = [] ->
  table_after key fields jsonb_cols col_names raws now table = table.
Proof.
  intros Hnone. apply map_eq. intros k.
  rewrite (table_after_lookup key fields jsonb_cols col_names Hok).
  destruct (last_with_key key k raws) as [raw |] eqn:Hlast; [| reflexivity].
  apply last_with_key_Some in Hlast as [Hin Hk].
  assert (Hf : raw ∈ filter (keyed key) raws).
  { apply list_elem_of_filter. split; [| exact Hin].
    rewrite (key_of_keyed key raw k Hk). exact I. }
  rewrite Hnone in Hf. apply elem_of_nil in Hf. destruct Hf.
Qed.

(** The sink on a storable batch, read in its table. *)
Lemma sink_table (r : Resource) (raws : list PyVal) (w : World) :
  Forall (fun raw => storable_in r raw = true) raws ->
  (sink_of r raws w).1 = Ret (len (filter (keyed (key_name r)) raws)) /\
  table r (sink_of r raws w).2 =
    table_after (key_name r) (fields_of r) (jsonb_cols_of r)
                (col_names_of r) raws (dbnow w (txn w)) (table r w) /\
  other_table r (sink_of r raws w).2 = other_table r w /\
  dbnow (sink_of r raws w).2 = dbnow w /\
  txn (sink_of r raws w).2 =
    match filter (keyed (key_name r)) raws with
    | [] => txn w
    | _ => S (txn w)
    end.
Proof.
  intros Hst. rewrite sink_shape.
  rewrite (batch_upsert_storable _ _ _ _ (resource_table_ok r)) by exact Hst.
  cbn [fst snd]. split; [reflexivity |].
  destruct (filter (keyed (key_name r)) raws) as [| raw kept] eqn:Hf.
  - rewrite (table_after_unkeyed _ _ _ _ (resource_table_ok r)) by exact Hf.
    repeat split.
  - destruct r; repeat split.
Qed.

(** A call of the sink that does not return leaves its table as it was. *)
Lemma batch_upsert_rollback (key : string)
    (fields : list (string * conversion)) (jsonb_cols col_names : list string)
    (get : World -> gmap string Row)
    (set : gmap string Row -> World -> World) (raws : list PyVal)
    (w : World) :
  (forall n w0, get (set_txn n w0) = get w0) ->
  (forall n,
     (batch_upsert key fields jsonb_cols col_names get set raws w).1
       <> Ret n) ->
  get (batch_upsert key fields jsonb_cols col_names get set raws w).2 =
    get w.
Proof.
  intros Htxn. unfold batch_upsert.
  destruct raws as [| raw raws']; [reflexivity |].
  unfold bind at 1 2, lift.
  destruct (build_records key fields (raw :: raws'))
    as [[| rec recs] | e |]; try reflexivity.
  unfold bind, transaction, ret.
  destruct (execute_all key jsonb_cols col_names (rec :: recs)
                        (dbnow w (txn w)) (get w)) as [table' | e |];
    cbn [fst snd]; intros Hno; rewrite ?Htxn; try reflexivity.
  destruct (Hno _ eq_refl).
Qed.

End SinkTableFacts.

(** X8.  Within a batch the last write wins.  After the upsert of a
    storable batch, a key that no record of the batch carries has the row it
    had; a key that some records carry has the row the last of them
    proposes: its columns over those of the row the key had before the
    batch (which keeps its key column and its [created_at]), or, for a new
    key, its columns alone, created at the batch's [now()].  [updated_at] is
    the batch's [now()]. *)
Theorem batch_last_write_wins `{PyRuntime} (r : Resource)
    (raws : list PyVal) (w : World) (k : string) :
  Forall (fun raw => storable_in r raw = true) raws ->
  table r (sink_of r raws w).2 !! k =
    match last_with_key (key_name r) k raws with
    | Some (PDict d) =>
        Some (row_after (key_name r) (fields_of r) (jsonb_cols_of r)
                        (col_names_of r) (dbnow w (txn w))
                        (table r w !! k) d)
    | _ => table r w !! k
    end.
Proof.
  intros Hst. destruct (sink_table r raws w Hst) as (_ & -> & _).
  apply table_after_lookup, resource_table_ok.
Qed.

(** X9.  Ingesting a batch again changes no data.  After a storable batch
    was upserted, upserting the same batch again leaves every row's columns
    and [created_at] as they are; the rows of the batch's keys carry the
    second transaction's [now()] as [updated_at]. *)
Theorem batch_reingest_idempotent `{PyRuntime} (r : Resource)
    (raws : list PyVal) (w : World) (k : string) :
  Forall (fun raw => storable_in r raw = true) raws ->
  let w1 := (sink_of r raws w).2 in
  let w2 := (sink_of r raws w1).2 in
  row_cols <$> table r w2 !! k = row_cols <$> table r w1 !! k /\
  created_at <$> table r w2 !! k = created_at <$> table r w1 !! k /\
  (is_Some (last_with_key (key_name r) k raws) ->
   updated_at <$> table r w1 !! k = Some (dbnow w (txn w)) /\
   updated_at <$> table r w2 !! k = Some (dbnow w1 (txn w1))).
Proof.
  intros Hst w1 w2.
  destruct (sink_table r raws w Hst) as (_ & Ht1 & _).
  destruct (sink_table r raws w1 Hst) as (_ & Ht2 & _).
  fold w1 in Ht1. fold w2 in Ht2. rewrite Ht2.
  rewrite (table_after_lookup _ _ _ _ (resource_table_ok r)).
  rewrite Ht1.
  rewrite !(table_after_lookup _ _ _ _ (resource_table_ok r)).
  destruct (last_with_key (key_name r) k raws) as [raw |] eqn:Hlast.
  - pose proof Hlast as Hl.
    apply last_with_key_Some in Hl as [_ Hk].
    destruct (key_of_dict (key_name r) raw k Hk) as [d ->].
    cbn [fmap option_fmap option_map].
    unfold row_after at 1 3 5. cbn [row_cols created_at updated_at].
    unfold row_after.
    destruct (table r w !! k) as [old |];
      cbn [row_cols created_at updated_at].
    + rewrite overwrite_overwrite. repeat split.
    + rewrite overwrite_same. repeat split.
  - split; [reflexivity |]. split; [reflexivity |].
    intros [x Hx]. discriminate.
Qed.

(** X7.  A batch is stored whole or not at all.  When a batch upsert
    raises (a record that is no dict, a key that is no string, a JSONB field
    [json.dumps] refuses), its table is as it was before the call, the
    records before the failing one included; the other table, the log and
    the transport are untouched as well. *)
Theorem batch_upsert_all_or_nothing `{PyRuntime} (r : Resource)
    (raws : list PyVal) (w : World) (e : exn) :
  (sink_of r raws w).1 = Raise e ->
  table r (sink_of r raws w).2 = table r w /\
  other_table r (sink_of r raws w).2 = other_table r w /\
  logged (sink_of r raws w).2 = logged w /\
  transport (sink_of r raws w).2 = transport w.
Proof.
  intros Hraise. rewrite sink_shape in *.
  split; [| split; [| split]].
  - apply batch_upsert_rollback.
    + destruct r; reflexivity.
    + intros n Hn. rewrite Hn in Hraise. discriminate.
  - apply (batch_upsert_frame (other_table r)); destruct r; reflexivity.
  - apply (batch_upsert_frame logged); destruct r; reflexivity.
  - apply (batch_upsert_frame transport); destruct r; reflexivity.
Qed.

Section ColumnsFacts.
Context `{PyRuntime}.

Lemma columns_lookup (T T' : gmap string Row) :
  columns T = columns T' ->
  forall k, row_cols <$> T !! k = row_cols <$> T' !! k.
Proof.
  intros Heq k. unfold columns in Heq.
  rewrite <- !lookup_fmap, Heq. reflexivity.
Qed.

Lemma table_after_app (key : string) (fields : list (string * conversion))
    (jsonb_cols col_names : list string) (a b : list PyVal) (now : Q)
    (table : gmap string Row) :
  table_after key fields jsonb_cols col_names (a ++ b) now table =
    table_after key fields jsonb_cols col_names b now
      (table_after key fields jsonb_cols col_names a now table).
Proof. unfold table_after. apply foldl_app. Qed.

(** The columns a batch leaves depend on the columns it found, not on the
    timestamps. *)
Lemma table_after_columns (key : string)
    (fields : list (string * conversion)) (jsonb_cols col_names : list string)
    (Hok : table_ok key fields jsonb_cols col_names)
    (raws : list PyVal) (now now' : Q) (T T' : gmap string Row) :
  columns T = columns T' ->
  columns (table_after key fields jsonb_cols col_names raws now T) =
    columns (table_after key fields jsonb_cols col_names raws now' T').
Proof.
  intros Heq. apply map_eq. intros k. unfold columns at 1 2.
  rewrite !lookup_fmap.
  rewrite !(table_after_lookup key fields jsonb_cols col_names Hok).
  pose proof (columns_lookup T T' Heq k) as Hk.
  destruct (last_with_key key k raws) as [[| | | | | | d | |] |];
    try exact Hk.
  unfold row_after.
  destruct (T !! k) as [old |], (T' !! k) as [old' |];
    try discriminate; cbn in Hk |- *; [| reflexivity].
  injection Hk as ->. reflexivity.
Qed.

Lemma flush_in_table (r : Resource) (dn : nat -> Q)
    (st : gmap string Row * nat * list LogRecord) (batch : list PyVal) :
  (flush_in r dn st batch).1.1 =
    table_after (key_name r) (fields_of r) (jsonb_cols_of r)
                (col_names_of r) batch (dn st.1.2) st.1.1.
Proof.
  unfold flush_in, flush_db.
  destruct (filter (keyed (key_name r)) batch) as [| raw kept] eqn:Hf;
    [| reflexivity].
  rewrite (table_after_unkeyed _ _ _ _ (resource_table_ok r)) by exact Hf.
  reflexivity.
Qed.

(** The columns a run of flushes leaves are those one upsert of all the
    records would leave. *)
Lemma flushes_columns (r : Resource) (dn : nat -> Q) (now : Q)
    (batches : list (list PyVal)) :
  forall (st : gmap string Row * nat * list LogRecord) (T : gmap string Row),
    columns st.1.1 = columns T ->
    columns (foldl (flush_in r dn) st batches).1.1 =
      columns (table_after (key_name r) (fields_of r) (jsonb_cols_of r)
                           (col_names_of r) (concat batches) now T).
Proof.
  induction batches as [| batch batches IH]; intros st T Heq;
    [exact Heq |].
  cbn [foldl concat]. rewrite table_after_app. apply IH.
  rewrite flush_in_table.
  apply table_after_columns; [apply resource_table_ok | exact Heq].
Qed.

End ColumnsFacts.

(** X10.  The batch size does not change what is stored.  Under the
    conditions of the pagination theorem, whatever [batch_size] is, the
    columns a pass leaves in every row of its table are those one upsert of
    all the records served, in order, would leave: the batch size moves the
    flushes and the timestamps, not the data. *)
Theorem batch_size_is_immaterial `{PyRuntime} (r : Resource)
    (client : KalshiHttpClient) (min_created_ts : PyVal)
    (pages : list (list PyVal * PyVal)) (last : list PyVal * PyVal)
    (w : World) (script : list (exn + PyVal)) :
  Forall (fun p => truthy p.2 = true) pages ->
  truthy last.2 = false ->
  net w = map (fun p => inr (page_response (resource_name r) p))
              (pages ++ [last]) ++ script ->
  is_Some (limiter_serves (S (length pages)) (rate_limiter w) (clock w)) ->
  Forall (fun raw => storable_in r raw = true)
         (concat (map fst (pages ++ [last]))) ->
  forall batch_size : Z,
    columns (table r (poll r client min_created_ts batch_size w).2) =
      columns (table_after (key_name r) (fields_of r) (jsonb_cols_of r)
                           (col_names_of r)
                           (concat (map fst (pages ++ [last])))
                           (dbnow w (txn w)) (table r w)).
Proof.
  intros Hpages Hlast Hnet [after Hready] Hst batch_size.
  destruct (poll_pages client min_created_ts batch_size r last pages w script
              Hpages Hlast Hnet after Hready Hst)
    as (W & Hrun & _ & Hdb & _).
  rewrite Hrun. cbn [snd].
  injection Hdb as Ht _ _. rewrite Ht.
  rewrite <- (all_batches_concat batch_size (map fst (pages ++ [last]))).
  apply flushes_columns. reflexivity.
Qed.

Section BatchExamples.
#[local] Existing Instance ExampleRuntime.runtime.

(** A batch that holds the market twice: the row is the second record's. *)
Lemma batch_last_write_wins_witness :
  let raws := [PDict market_original; PDict market_updated] in
  let w := example_world [] in
  markets (batch_upsert_markets raws w).2 !! "TEST-UPSERT-001" =
    Some (row_after "ticker" market_fields market_jsonb_cols market_col_names
                    0 None market_updated).
Proof.
  intros raws w.
  pose proof (batch_last_write_wins Markets raws w "TEST-UPSERT-001"
                ltac:(repeat constructor)) as Hrow.
  replace (last_with_key (key_name Markets) "TEST-UPSERT-001" raws)
    with (Some (PDict market_updated)) in Hrow
    by (vm_compute; reflexivity).
  exact Hrow.
Defined.

(** The same batch twice: the second pass changes no column. *)
Lemma batch_reingest_idempotent_witness :
  let raws := [PDict market_original; PDict market_updated] in
  let w1 := (batch_upsert_markets raws (example_world [])).2 in
  let w2 := (batch_upsert_markets raws w1).2 in
  row_cols <$> markets w2 !! "TEST-UPSERT-001" =
    row_cols <$> markets w1 !! "TEST-UPSERT-001".
Proof.
  intros raws w1 w2.
  exact (proj1 (batch_reingest_idempotent Markets raws (example_world [])
                  "TEST-UPSERT-001" ltac:(repeat constructor))).
Defined.

(** A market, then a record whose ticker is a number: the statement for
    the second one fails and the first one is not stored either. *)
Lemma batch_upsert_all_or_nothing_witness :
  let raws := [PDict market_original; PDict {[ "ticker" := PInt 5 ]}] in
  let w := example_world [] in
  (batch_upsert_markets raws w).1 = Raise (Exception "DataError") /\
  markets (batch_upsert_markets raws w).2 = ∅.
Proof.
  intros raws w.
  assert (Hraise : (sink_of Markets raws w).1 = Raise (Exception "DataError"))
    by (vm_compute; reflexivity).
  split; [exact Hraise |].
  exact (proj1 (batch_upsert_all_or_nothing Markets raws w _ Hraise)).
Defined.

(** Three markets over two pages, flushed one page at a time or all at the
    end. *)
Lemma batch_size_is_immaterial_witness :
  let pages := [([market_named "M1"; market_named "M2"], PStr "a")] in
  let last := ([market_named "M3"], PNone) in
  let w := example_world
             (map (fun p => inr (page_response "markets" p))
                  (pages ++ [last])) in
  columns (markets (poll_markets example_client PNone 1 w).2) =
    columns (markets (poll_markets example_client PNone 500 w).2).
Proof.
  intros pages last w.
  pose proof (batch_size_is_immaterial Markets example_client PNone
                pages last w []
                ltac:(repeat constructor) eq_refl
                ltac:(vm_compute; reflexivity)
                ltac:(vm_compute; eexists; reflexivity)
                ltac:(repeat constructor)) as Hcols.
  exact (eq_trans (Hcols 1%Z) (eq_sym (Hcols 500%Z))).
Defined.

End BatchExamples.

(* --------------------------------------------------------------------- *)
(** ** Whole cycles                                                       *)
(* --------------------------------------------------------------------- *)

Section InterruptedFacts.
Context `{PyRuntime}.
Variables (client : KalshiHttpClient) (min_created_ts : PyVal)
          (batch_size : Z).

Lemma limiter_serves_add (a b : nat) :
  forall (bk : TokenBucket) (readings : list Q),
    limiter_serves (a + b) bk readings =
      match limiter_serves a bk readings with
      | Some mid =>
          match limiter_serves b mid.1.1 mid.1.2 with
          | Some st => Some (st.1.1, st.1.2, mid.2 ++ st.2)
          | None => None
          end
      | None => None
      end.
Proof.
  induction a as [| a IH]; intros bk readings.
  - cbn [Nat.add limiter_serves fst snd app].
    destruct (limiter_serves b bk readings) as [[[b' c'] s'] |]; reflexivity.
  - cbn [Nat.add]. rewrite !limiter_serves_S. cbv zeta.
    destruct (acquire 1 (bucket_world bk readings)).1; try reflexivity.
    rewrite IH.
    destruct (limiter_serves a _ _) as [mid |]; [| reflexivity].
    cbn [fst snd].
    destruct (limiter_serves b mid.1.1 mid.1.2) as [st |]; [| reflexivity].
    cbn [fst snd]. rewrite app_assoc. reflexivity.
Qed.

Lemma cursors_sent_next (cursor : PyVal)
    (pages : list (list PyVal * PyVal)) :
  cursors_sent cursor pages ++ [next_cursor cursor pages] =
    cursor :: map snd pages.
Proof.
  revert cursor. induction pages as [| p pages IH]; intros cursor;
    [reflexivity |].
  cbn [cursors_sent next_cursor map app]. rewrite IH. reflexivity.
Qed.

(** The loop over a run of served pages that all carry a cursor: it is
    where the loop is after them, with the buffer and the total they
    leave. *)
Lemma page_loop_prefix (r : Resource) (pages : list (list PyVal * PyVal)) :
  Forall (fun p => truthy p.2 = true) pages ->
  forall (fuel : nat) (cursor : PyVal) (buffer : list PyVal) (total : Z)
         (w : World) (rest : list (exn + PyVal))
         (after : TokenBucket * list Q * list Q),
    net w = map (fun p => inr (page_response (resource_name r) p)) pages
            ++ rest ->
    limiter_serves (length pages) (rate_limiter w) (clock w) = Some after ->
    Forall (fun raw => storable_in r raw = true)
           (buffer ++ concat (map fst pages)) ->
    let sb := sink_batches batch_size buffer (map fst pages) in
    exists W,
      page_loop (fetch_of r client min_created_ts) (sink_of r)
                (resource_name r) batch_size (length pages + fuel)
                cursor buffer total w =
        page_loop (fetch_of r client min_created_ts) (sink_of r)
                  (resource_name r) batch_size fuel
                  (next_cursor cursor pages) sb.2
                  (total + len (concat (map fst pages)))%Z W /\
      transport W =
        (after.1.1, after.1.2, slept w ++ after.2, rest,
         sent w ++ map (request_of r client min_created_ts)
                       (cursors_sent cursor pages)) /\
      (table r W, txn W, logged W) =
        foldl (flush_in r (dbnow w)) (table r w, txn w, logged w) sb.1 /\
      dbnow W = dbnow w /\
      other_table r W = other_table r w.
Proof.
  induction 1 as [| p pages Hp _ IH];
    intros fuel cursor buffer total w rest after Hnet Hready Hst.
  - cbn [length limiter_serves] in Hready. injection Hready as <-.
    exists w. cbn [map concat sink_batches fst snd foldl app Nat.add
                   next_cursor cursors_sent length] in Hnet |- *.
    unfold len, transport. cbn [length].
    rewrite Z.add_0_r, !app_nil_r, Hnet. repeat split.
  - cbn [length] in Hready. rewrite limiter_serves_S in Hready.
    cbv zeta in Hready.
    destruct (acquire 1 (bucket_world (rate_limiter w) (clock w))).1
      as [[] | e |] eqn:Hacq; try discriminate.
    destruct (limiter_serves (length pages) _ _) as [st |] eqn:Hrest;
      [| discriminate].
    injection Hready as <-.
    cbn [map concat app] in Hnet, Hst.
    assert (Hst1 : Forall (fun raw => storable_in r raw = true)
                          (buffer ++ p.1)).
    { rewrite app_assoc in Hst. apply Forall_app in Hst. apply Hst. }
    cbn [length Nat.add].
    destruct (page_loop_turn client min_created_ts batch_size r p
                (length pages + fuel) cursor buffer total w
                _ Hacq Hnet Hst1)
      as (w' & Hturn & Htr & Hdb & Hnow & Hother).
    rewrite Hp in Hturn. cbn [negb] in Hturn.
    unfold transport in Htr.
    injection Htr as Hrl Hcl Hsl Hne Hse.
    set (flushes := (len (buffer ++ p.1) >=? batch_size)%Z) in *.
    set (buffer' := if flushes then [] else buffer ++ p.1) in *.
    assert (Hst' : Forall (fun raw => storable_in r raw = true)
                     (buffer' ++ concat (map fst pages))).
    { unfold buffer'. destruct flushes.
      - apply Forall_app in Hst as [_ Hst].
        apply Forall_app in Hst as [_ Hst]. exact Hst.
      - rewrite <- app_assoc. exact Hst. }
    destruct (IH fuel p.2 buffer' (total + len p.1)%Z w' rest st)
      as (W & Hloop & HtrW & HdbW & HnowW & HotherW);
      [exact Hne | rewrite Hrl, Hcl; exact Hrest | exact Hst' |].
    exists W. rewrite Hturn, Hloop, HtrW, HdbW, HnowW, HotherW.
    rewrite Hsl, Hse, Hdb, Hnow, Hother.
    cbn [sink_batches map concat next_cursor cursors_sent fst snd].
    fold flushes. fold buffer'. rewrite <- !app_assoc.
    unfold len. rewrite length_app.
    replace (total + Z.of_nat (length p.1) +
             Z.of_nat (length (concat (map fst pages))))%Z
      with (total + Z.of_nat (length p.1 +
              length (concat (map fst pages))))%Z by lia.
    unfold buffer'. destruct flushes; repeat split.
Qed.

(** A fetch whose [acquire] returns and whose request fails for good:
    after transient failures that were retried, an exchange that is not
    transient or that is the last attempt. *)
Lemma fetch_raises (r : Resource) (cursor : PyVal) (w : World)
    (failed : list (exn + PyVal)) (e : exn) (script : list (exn + PyVal)) :
  let a := acquire 1 (bucket_world (rate_limiter w) (clock w)) in
  a.1 = Ret tt ->
  net w = failed ++ inl e :: script ->
  Forall (fun o => transient o = true) failed ->
  (length failed < 3)%nat ->
  transient (inl e) = false \/ length failed = 2%nat ->
  fetch_of r client min_created_ts cursor w =
    (Raise e,
     mkWorld (rate_limiter a.2) (clock a.2)
             (slept w ++ slept a.2 ++ backoffs 1 0 (length failed))
             script
             (sent w ++ repeat (request_of r client min_created_ts cursor)
                               (S (length failed)))
             (logged w ++ warnings 1 3 0 failed ++ final_log (inl e))
             (markets w) (events w) (dbnow w) (txn w)).
Proof.
  intros a Hacq Hnet Htrans Hlen Hlast.
  assert (Hrun : forall method url params,
    _request_with_retry client method url params default_max_retries
                        default_base_backoff w =
      (Raise e,
       mkWorld (rate_limiter a.2) (clock a.2)
               (slept w ++ slept a.2 ++ backoffs 1 0 (length failed))
               script
               (sent w ++ repeat (mkRequest method url params
                                            (_headers client))
                                 (S (length failed)))
               (logged w ++ warnings 1 3 0 failed ++ final_log (inl e))
               (markets w) (events w) (dbnow w) (txn w))).
  { intros method url params. unfold _request_with_retry, bind.
    rewrite (acquire_alone 1 w). fold a. rewrite Hacq.
    rewrite range_range_from.
    rewrite (retry_loop_run client method url params default_max_retries
               default_base_backoff failed 0%Z
               (Z.to_nat default_max_retries) _ (inl e) script);
      [| reflexivity | unfold default_max_retries; simpl; lia | exact Htrans
       | exact Hnet
       | destruct Hlast as [Hl | Hl]; [left; exact Hl |
           right; rewrite Hl; reflexivity]].
    cbn [outcome rate_limiter clock slept net sent logged markets events
         dbnow txn].
    rewrite <- !app_assoc. reflexivity. }
  destruct r; unfold fetch_of, get_markets, get_events; rewrite Hrun;
    reflexivity.
Qed.

End InterruptedFacts.

Section InterruptedPass.
Context `{PyRuntime}.
Variables (client : KalshiHttpClient) (min_created_ts : PyVal)
          (batch_size : Z).

Lemma bind_Raise {A B} (c : M A) (k : A -> M B) (w w' : World) (e : exn) :
  c w = (Raise e, w') -> bind c k w = (Raise e, w').
Proof. intros Hc. unfold bind. rewrite Hc. reflexivity. Qed.

Lemma sink_batches_small (pages : list (list PyVal)) :
  forall buffer : list PyVal,
    (len (buffer ++ concat pages) < batch_size)%Z ->
    (sink_batches batch_size buffer pages).1 = [].
Proof.
  induction pages as [| page pages IH]; intros buffer Hlen; [reflexivity |].
  cbn [sink_batches concat] in *.
  assert (Hlt : (len (buffer ++ page) >=? batch_size)%Z = false).
  { rewrite Z.geb_leb. apply Z.leb_gt. unfold len in *.
    rewrite !length_app in *. lia. }
  rewrite Hlt. apply IH. rewrite <- app_assoc. exact Hlen.
Qed.

(** A pass whose request for the page after [pages] fails for good. *)
Lemma poll_interrupted (r : Resource) (pages : list (list PyVal * PyVal))
    (w : World) (failed : list (exn + PyVal)) (e : exn)
    (script : list (exn + PyVal)) :
  Forall (fun p => truthy p.2 = true) pages ->
  net w = map (fun p => inr (page_response (resource_name r) p)) pages
          ++ failed ++ inl e :: script ->
  Forall (fun o => transient o = true) failed ->
  (length failed < 3)%nat ->
  transient (inl e) = false \/ length failed = 2%nat ->
  is_Some (limiter_serves (S (length pages)) (rate_limiter w) (clock w)) ->
  Forall (fun raw => storable_in r raw = true) (concat (map fst pages)) ->
  let sb := sink_batches batch_size [] (map fst pages) in
  let st := foldl (flush_in r (dbnow w)) (table r w, txn w, logged w) sb.1 in
  exists W,
    poll r client min_created_ts batch_size w = (Raise e, W) /\
    (table r W, txn W) = st.1 /\
    logged W = st.2 ++ warnings 1 3 0 failed ++ final_log (inl e) /\
    other_table r W = other_table r w /\
    dbnow W = dbnow w /\
    net W = script /\
    sent W =
      sent w ++
      map (request_of r client min_created_ts) (cursors_sent PNone pages) ++
      repeat (request_of r client min_created_ts (next_cursor PNone pages))
             (S (length failed)) /\
    exists sleeps, slept W = slept w ++ sleeps.
Proof.
  intros Hpages Hnet Htrans Hlen Hlast [after Hready] Hst sb st.
  rewrite poll_shape. unfold poll_pass.
  replace (S (length pages)) with (length pages + 1)%nat in Hready by lia.
  rewrite limiter_serves_add in Hready.
  destruct (limiter_serves (length pages) (rate_limiter w) (clock w))
    as [mid |] eqn:Hmid; [| discriminate].
  rewrite limiter_serves_S in Hready. cbv zeta in Hready.
  destruct (acquire 1 (bucket_world mid.1.1 mid.1.2)).1
    as [[] | e' |] eqn:Hacq; try discriminate.
  assert (Hfuel : S (length (net w)) =
                  (length pages + S (length failed + S (length script)))%nat).
  { rewrite Hnet, !length_app, length_map. simpl. lia. }
  rewrite Hfuel.
  destruct (page_loop_prefix client min_created_ts batch_size r pages Hpages
              (S (length failed + S (length script))) PNone [] 0%Z w
              (failed ++ inl e :: script) mid Hnet Hmid Hst)
    as (W & Hloop & Htr & Hdb & Hnow & Hother).
  unfold transport in Htr. injection Htr as Hrl Hcl Hsl Hne Hse.
  rewrite <- Hrl, <- Hcl in Hacq.
  pose proof (fetch_raises client min_created_ts r
                (next_cursor PNone pages) W failed e script Hacq Hne
                Htrans Hlen Hlast) as Hfetch.
  eexists. split.
  { apply bind_Raise. rewrite Hloop. cbn [page_loop].
    apply bind_Raise. exact Hfetch. }
  fold sb in Hdb. fold st in Hdb.
  cbn [net sent slept logged dbnow].
  rewrite Hsl, Hse, Hnow, <- !app_assoc.
  assert (Hst3 : st = (table r W, txn W, logged W)) by (symmetry; exact Hdb).
  rewrite Hst3. cbn [fst snd].
  split; [destruct r; reflexivity |]. split; [reflexivity |].
  split; [rewrite <- Hother; destruct r; reflexivity |].
  split; [reflexivity |]. split; [reflexivity |]. split; [reflexivity |].
  eexists. reflexivity.
Qed.

End InterruptedPass.

(** X11.  A pass that fails loses its buffer.  The API serves [pages],
    each with a cursor, and the request for the next page fails for good,
    with [e] (after transient failures that were retried).  Then the pass
    raises [e]; its table and transaction count are those the automatic
    flushes of [pages] leave, so the records buffered since the last flush
    are not stored, and nothing at all is stored when fewer than
    [batch_size] records were served; the other table is untouched; the
    requests sent are one per page served and the attempts for the failing
    page, all with its cursor. *)
Theorem pass_interrupted `{PyRuntime} (r : Resource)
    (client : KalshiHttpClient) (min_created_ts : PyVal) (batch_size : Z)
    (pages : list (list PyVal * PyVal)) (w : World)
    (failed : list (exn + PyVal)) (e : exn) (script : list (exn + PyVal)) :
  Forall (fun p => truthy p.2 = true) pages ->
  net w = map (fun p => inr (page_response (resource_name r) p)) pages
          ++ failed ++ inl e :: script ->
  Forall (fun o => transient o = true) failed ->
  (length failed < 3)%nat ->
  transient (inl e) = false \/ length failed = 2%nat ->
  is_Some (limiter_serves (S (length pages)) (rate_limiter w) (clock w)) ->
  Forall (fun raw => storable_in r raw = true) (concat (map fst pages)) ->
  let run := poll r client min_created_ts batch_size w in
  let sb := sink_batches batch_size [] (map fst pages) in
  run.1 = Raise e /\
  (table r run.2, txn run.2) =
    (foldl (flush_in r (dbnow w)) (table r w, txn w, logged w) sb.1).1 /\
  other_table r run.2 = other_table r w /\
  net run.2 = script /\
  sent run.2 =
    sent w ++
    map (request_of r client min_created_ts) (cursors_sent PNone pages) ++
    repeat (request_of r client min_created_ts (next_cursor PNone pages))
           (S (length failed)) /\
  ((len (concat (map fst pages)) < batch_size)%Z ->
   table r run.2 = table r w /\ txn run.2 = txn w).
Proof.
  intros Hpages Hnet Htrans Hlen Hlast Hready Hst run sb.
  destruct (poll_interrupted client min_created_ts batch_size r pages w
              failed e script Hpages Hnet Htrans Hlen Hlast Hready Hst)
    as (W & Hrun & Hdb & _ & Hother & _ & Hnet' & Hsent & _).
  unfold run. rewrite Hrun. cbn [fst snd].
  split; [reflexivity |]. split; [exact Hdb |]. split; [exact Hother |].
  split; [exact Hnet' |]. split; [exact Hsent |].
  intros Hsmall. fold sb in Hdb. unfold sb in Hdb.
  rewrite (sink_batches_small batch_size (map fst pages) []) in Hdb
    by exact Hsmall.
  cbn [foldl fst] in Hdb. injection Hdb as -> ->. split; reflexivity.
Qed.

Section CycleFacts.
Context `{PyRuntime}.
Variables (client : KalshiHttpClient) (poll_interval : Q)
          (min_created_ts : PyVal) (batch_size : Z).

(** A cycle whose markets pass raises: the handler for the exception. *)
Lemma poll_cycle_markets_raise (w W : World) (e : exn) :
  poll_markets client min_created_ts batch_size w = (Raise e, W) ->
  poll_cycle client poll_interval min_created_ts batch_size w =
    if is_Exception e
    then (Ret true,
          set_slept (slept W ++ [poll_interval])
                    (set_logged (logged W ++ [ExceptionInLoop e]) W))
    else (Ret false, W).
Proof.
  intros Hm. unfold poll_cycle, try_except, bind at 1. rewrite Hm.
  destruct e; reflexivity.
Qed.

(** A cycle whose two passes return. *)
Lemma poll_cycle_returns (w W1 W2 : World) :
  poll_markets client min_created_ts batch_size w = (Ret tt, W1) ->
  poll_events client batch_size W1 = (Ret tt, W2) ->
  poll_cycle client poll_interval min_created_ts batch_size w =
    (Ret true, set_slept (slept W2 ++ [poll_interval]) W2).
Proof.
  intros Hm He. unfold poll_cycle, try_except, bind. rewrite Hm, He.
  reflexivity.
Qed.

End CycleFacts.

(** X12.  A cycle survives a failing markets pass.  In the situation of
    X11 on [/markets], the cycle does not raise: for an [Exception] it logs
    it, sleeps [poll_interval] and tells the loop to go on; for a
    [CancelledError] it tells the loop to stop, with no log and no sleep.
    In both cases it has sent no request for events and the events table is
    as it was. *)
Theorem cycle_survives_failure `{PyRuntime} (client : KalshiHttpClient)
    (poll_interval : Q) (min_created_ts : PyVal) (batch_size : Z)
    (pages : list (list PyVal * PyVal)) (w : World)
    (failed : list (exn + PyVal)) (e : exn) (script : list (exn + PyVal)) :
  Forall (fun p => truthy p.2 = true) pages ->
  net w = map (fun p => inr (page_response "markets" p)) pages
          ++ failed ++ inl e :: script ->
  Forall (fun o => transient o = true) failed ->
  (length failed < 3)%nat ->
  transient (inl e) = false \/ length failed = 2%nat ->
  is_Some (limiter_serves (S (length pages)) (rate_limiter w) (clock w)) ->
  Forall (fun raw => storable_in Markets raw = true)
         (concat (map fst pages)) ->
  let run := poll_cycle client poll_interval min_created_ts batch_size w in
  let pass := poll_markets client min_created_ts batch_size w in
  pass.1 = Raise e /\
  run.1 = Ret (is_Exception e) /\
  events run.2 = events w /\
  markets run.2 = markets pass.2 /\
  net run.2 = script /\
  sent run.2 =
    sent w ++
    map (markets_request client min_created_ts) (cursors_sent PNone pages) ++
    repeat (markets_request client min_created_ts (next_cursor PNone pages))
           (S (length failed)) /\
  logged run.2 =
    logged pass.2 ++ (if is_Exception e then [ExceptionInLoop e] else []) /\
  slept run.2 =
    slept pass.2 ++ (if is_Exception e then [poll_interval] else []).
Proof.
  intros Hpages Hnet Htrans Hlen Hlast Hready Hst run pass.
  destruct (poll_interrupted client min_created_ts batch_size Markets pages w
              failed e script Hpages Hnet Htrans Hlen Hlast Hready Hst)
    as (W & Hrun & _ & _ & Hother & _ & Hnet' & Hsent & _).
  change (poll Markets client min_created_ts batch_size w)
    with (poll_markets client min_created_ts batch_size w) in Hrun.
  unfold run, pass.
  rewrite (poll_cycle_markets_raise client poll_interval min_created_ts
             batch_size w W e Hrun), Hrun.
  cbn [other_table] in Hother.
  destruct (is_Exception e); cbn [fst snd];
    unfold set_slept, set_logged;
    cbn [events markets net sent logged slept];
    rewrite ?app_nil_r; repeat split; assumption.
Qed.

(** X13.  A cycle whose two passes are served.  The API serves the pages
    of [/markets], then those of [/events]; the limiter serves the requests
    and the records are storable.  Then the cycle returns and tells the loop
    to go on; it has sent the markets requests, then the events requests,
    and used exactly these exchanges; each table holds the columns one
    upsert of all its records would leave; the log has the flushes and the
    total of the markets, then those of the events; and the cycle's last
    sleep is [poll_interval]. *)
Theorem cycle_polls_markets_then_events `{PyRuntime}
    (client : KalshiHttpClient) (poll_interval : Q) (min_created_ts : PyVal)
    (batch_size : Z)
    (mpages : list (list PyVal * PyVal)) (mlast : list PyVal * PyVal)
    (epages : list (list PyVal * PyVal)) (elast : list PyVal * PyVal)
    (w : World) (script : list (exn + PyVal)) :
  Forall (fun p => truthy p.2 = true) mpages -> truthy mlast.2 = false ->
  Forall (fun p => truthy p.2 = true) epages -> truthy elast.2 = false ->
  net w = map (fun p => inr (page_response "markets" p)) (mpages ++ [mlast])
          ++ map (fun p => inr (page_response "events" p)) (epages ++ [elast])
          ++ script ->
  is_Some (limiter_serves (S (length mpages) + S (length epages))
                          (rate_limiter w) (clock w)) ->
  Forall (fun raw => storable_in Markets raw = true)
         (concat (map fst (mpages ++ [mlast]))) ->
  Forall (fun raw => storable_in Events raw = true)
         (concat (map fst (epages ++ [elast]))) ->
  let run := poll_cycle client poll_interval min_created_ts batch_size w in
  let mrecords := concat (map fst (mpages ++ [mlast])) in
  let erecords := concat (map fst (epages ++ [elast])) in
  run.1 = Ret true /\
  net run.2 = script /\
  sent run.2 =
    sent w ++
    map (markets_request client min_created_ts) (PNone :: map snd mpages) ++
    map (events_request client) (PNone :: map snd epages) /\
  columns (markets run.2) =
    columns (table_after "ticker" market_fields market_jsonb_cols
                         market_col_names mrecords (dbnow w (txn w))
                         (markets w)) /\
  columns (events run.2) =
    columns (table_after "event_ticker" event_fields event_jsonb_cols
                         event_col_names erecords (dbnow w (txn w))
                         (events w)) /\
  logged run.2 =
    logged w ++
    map (fun batch => InfoFlushed "markets"
                        (len (filter (keyed "ticker") batch)))
        (all_batches batch_size (map fst (mpages ++ [mlast]))) ++
    [InfoIngested "markets" (len mrecords)] ++
    map (fun batch => InfoFlushed "events"
                        (len (filter (keyed "event_ticker") batch)))
        (all_batches batch_size (map fst (epages ++ [elast]))) ++
    [InfoIngested "events" (len erecords)] /\
  exists sleeps, slept run.2 = slept w ++ sleeps ++ [poll_interval].
Proof.
  intros Hmp Hml Hep Hel Hnet [after Hready] Hmst Hest run mrecords erecords.
  rewrite limiter_serves_add in Hready.
  destruct (limiter_serves (S (length mpages)) (rate_limiter w) (clock w))
    as [mid |] eqn:Hmid; [| discriminate].
  destruct (limiter_serves (S (length epages)) mid.1.1 mid.1.2)
    as [fin |] eqn:Hfin; [| discriminate].
  destruct (poll_pages client min_created_ts batch_size Markets mlast mpages
              w _ Hmp Hml Hnet mid Hmid Hmst)
    as (W1 & Hrun1 & Htr1 & Hdb1 & Hnow1 & Hother1).
  unfold transport in Htr1. injection Htr1 as Hrl1 Hcl1 Hsl1 Hne1 Hse1.
  rewrite <- Hrl1, <- Hcl1 in Hfin.
  destruct (poll_pages client min_created_ts batch_size Events elast epages
              W1 script Hep Hel Hne1 fin Hfin Hest)
    as (W2 & Hrun2 & Htr2 & Hdb2 & Hnow2 & Hother2).
  unfold transport in Htr2. injection Htr2 as Hrl2 Hcl2 Hsl2 Hne2 Hse2.
  change (poll Markets client min_created_ts batch_size w)
    with (poll_markets client min_created_ts batch_size w) in Hrun1.
  change (poll Events client min_created_ts batch_size W1)
    with (poll_events client batch_size W1) in Hrun2.
  unfold run, mrecords, erecords. clear run mrecords erecords.
  rewrite (poll_cycle_returns client poll_interval min_created_ts batch_size
             w W1 W2 Hrun1 Hrun2).
  cbn [fst snd]. unfold set_slept.
  cbn [net sent markets events logged slept].
  cbn [table other_table resource_name] in *.
  injection Hdb1 as Ht1 Hn1 Hl1. injection Hdb2 as Ht2 Hn2 Hl2.
  split; [reflexivity |]. split; [exact Hne2 |].
  split; [rewrite Hse2, Hse1, <- app_assoc; reflexivity |].
  split.
  { rewrite Hother2, Ht1.
    rewrite <- (all_batches_concat batch_size (map fst (mpages ++ [mlast]))).
    apply (flushes_columns Markets). reflexivity. }
  split.
  { rewrite Ht2.
    rewrite <- (all_batches_concat batch_size (map fst (epages ++ [elast]))).
    apply (flushes_columns Events). cbn [fst]. rewrite Hother1.
    reflexivity. }
  split.
  { rewrite Hl2, (flushes_logged Events). cbn [snd].
    rewrite Hl1, (flushes_logged Markets). cbn [snd resource_name key_name].
    rewrite <- !app_assoc. reflexivity. }
  exists (mid.2 ++ fin.2). rewrite Hsl2, Hsl1, <- !app_assoc. reflexivity.
Qed.

Section CycleExamples.
#[local] Existing Instance ExampleRuntime.runtime.

(** A page of two markets, then a status 500 for the second page: with the
    default batch size nothing is stored. *)
Lemma pass_interrupted_witness :
  let pages := [([market_named "M1"; market_named "M2"], PStr "a")] in
  let w := example_world
             (map (fun p => inr (page_response "markets" p)) pages ++
              [inl (HTTPStatusError 500)]) in
  let run := poll_markets example_client PNone DEFAULT_BATCH_SIZE w in
  run.1 = Raise (HTTPStatusError 500) /\ markets run.2 = ∅.
Proof.
  intros pages w run.
  destruct (pass_interrupted Markets example_client PNone DEFAULT_BATCH_SIZE
              pages w [] (HTTPStatusError 500) []
              ltac:(repeat constructor)
              ltac:(vm_compute; reflexivity)
              ltac:(constructor) ltac:(simpl; lia)
              ltac:(left; reflexivity)
              ltac:(vm_compute; eexists; reflexivity)
              ltac:(repeat constructor))
    as (Hraise & _ & _ & _ & _ & Hsmall).
  split; [exact Hraise |].
  exact (proj1 (Hsmall ltac:(vm_compute; reflexivity))).
Defined.

(** The same cycle: the failure is logged, the cycle sleeps and the loop
    goes on; no request for events was sent. *)
Lemma cycle_survives_failure_witness :
  let pages := [([market_named "M1"; market_named "M2"], PStr "a")] in
  let w := example_world
             (map (fun p => inr (page_response "markets" p)) pages ++
              [inl (HTTPStatusError 500)]) in
  let run := poll_cycle example_client 60 PNone DEFAULT_BATCH_SIZE w in
  run.1 = Ret true /\
  sent run.2 = [markets_request example_client PNone PNone;
                markets_request example_client PNone (PStr "a")].
Proof.
  intros pages w run.
  destruct (cycle_survives_failure example_client 60 PNone DEFAULT_BATCH_SIZE
              pages w [] (HTTPStatusError 500) []
              ltac:(repeat constructor)
              ltac:(vm_compute; reflexivity)
              ltac:(constructor) ltac:(simpl; lia)
              ltac:(left; reflexivity)
              ltac:(vm_compute; eexists; reflexivity)
              ltac:(repeat constructor))
    as (_ & Hret & _ & _ & _ & Hsent & _).
  exact (conj Hret Hsent).
Defined.

(** One page of markets, then one page of events. *)
Lemma cycle_polls_markets_then_events_witness :
  let mlast := ([market_named "M1"], PNone) in
  let elast := ([PDict event_original], PNone) in
  let w := example_world [inr (page_response "markets" mlast);
                          inr (page_response "events" elast)] in
  let run := poll_cycle example_client 60 PNone DEFAULT_BATCH_SIZE w in
  run.1 = Ret true /\
  sent run.2 = [markets_request example_client PNone PNone;
                events_request example_client PNone].
Proof.
  intros mlast elast w run.
  destruct (cycle_polls_markets_then_events example_client 60 PNone
              DEFAULT_BATCH_SIZE [] mlast [] elast w []
              ltac:(constructor) eq_refl ltac:(constructor) eq_refl
              ltac:(vm_compute; reflexivity)
              ltac:(vm_compute; eexists; reflexivity)
              ltac:(repeat constructor) ltac:(repeat constructor))
    as (Hret & _ & Hsent & _).
  exact (conj Hret Hsent).
Defined.

End CycleExamples.

(* --------------------------------------------------------------------- *)
(** ** The application's lifespan                                         *)
(* --------------------------------------------------------------------- *)

Section LifespanFacts.
Variable int_of_str : string -> string + Z.

Lemma start_ingestion_returns (p : Z) (m : PyVal) (b : Z) (sv : Supervisor) :
  (start_ingestion p m b sv).1 = Ret tt.
Proof.
  unfold start_ingestion.
  destruct (match _INGEST_TASK sv with Some _ => _ | None => _ end);
    reflexivity.
Qed.

Lemma lifespan_startup_shape (poll : option string) (sv : Supervisor) :
  lifespan_startup int_of_str poll sv =
    match int_of_str (default "60" poll) with
    | inr n =>
        start_ingestion n
          match INGEST_MIN_CREATED_TS sv with
          | Some s => PStr s
          | None => PNone
          end DEFAULT_BATCH_SIZE sv
    | inl _ => (Ret tt, sv)
    end.
Proof.
  unfold lifespan_startup.
  destruct (int_of_str (default "60" poll)) as [cls | n]; cbn [call];
    [reflexivity |].
  pose proof (start_ingestion_returns n
                match INGEST_MIN_CREATED_TS sv with
                | Some s => PStr s
                | None => PNone
                end DEFAULT_BATCH_SIZE sv) as Hret.
  destruct (start_ingestion _ _ _ sv) as [r sv']. cbn [fst] in Hret.
  subst r. reflexivity.
Qed.

End LifespanFacts.

(** X14.  The application's lifespan.  Startup never raises: with an
    [INGEST_POLL_INTERVAL] that [int] accepts (60 when unset) it starts one
    polling task with that interval, the environment's
    [INGEST_MIN_CREATED_TS] and the default batch size; with one that [int]
    refuses the exception is swallowed and no task is started.  Whatever
    happens in between (moves of the task, starts and stops that do not
    overlap), at most one task is pending, and a shutdown that no
    lifecycle call overlaps returns with the handle dropped and no task
    pending. *)
Theorem lifespan_leaves_no_task (int_of_str : string -> string + Z)
    (env poll : option string) (steps : list Step) :
  let up := lifespan_startup int_of_str poll (initial env) in
  let down := lifespan_shutdown (run steps up.2) in
  up.1 = Ret tt /\
  tasks up.2 =
    match int_of_str (default "60" poll) with
    | inr n =>
        [(mkTaskArgs n match env with Some s => PStr s | None => PNone end
                     DEFAULT_BATCH_SIZE,
          PendingSetup)]
    | inl _ => []
    end /\
  (live_tasks (run steps up.2) <= 1)%nat /\
  down.1 = Ret tt /\
  _INGEST_TASK down.2 = None /\
  live_tasks down.2 = 0%nat.
Proof.
  intros up down.
  assert (Hup : up.1 = Ret tt /\ supervised up.2 /\
                tasks up.2 =
                  match int_of_str (default "60" poll) with
                  | inr n =>
                      [(mkTaskArgs n
                          match env with Some s => PStr s | None => PNone end
                          DEFAULT_BATCH_SIZE,
                        PendingSetup)]
                  | inl _ => []
                  end).
  { unfold up. rewrite lifespan_startup_shape.
    destruct (int_of_str (default "60" poll)) as [cls | n].
    - split; [reflexivity |]. split; [apply initial_supervised | reflexivity].
    - split; [apply start_ingestion_returns |].
      split; [apply start_supervised, initial_supervised |].
      destruct env; reflexivity. }
  destruct Hup as (Hret & Hsv & Htasks).
  assert (Hrun : supervised (run steps up.2)) by apply run_supervised, Hsv.
  destruct (stop_supervised _ Hrun) as (Hstop & Hnone & Hall & _).
  assert (Hdown : down = stop_ingestion_alone (run steps up.2)).
  { unfold down, lifespan_shutdown, try_pass.
    destruct (stop_ingestion_alone (run steps up.2)) as [r sv'].
    cbn [fst] in Hstop. subst r. reflexivity. }
  rewrite Hdown.
  split; [exact Hret |]. split; [exact Htasks |].
  split; [apply supervised_live, Hrun |].
  split; [exact Hstop |]. split; [exact Hnone |].
  apply all_done_live, Hall.
Qed.

(** The application starts with a poll interval of 30 seconds, a cycle
    fails, a client of the module starts and stops the ingestion, and the
    application shuts down; and a start with an interval that is no
    number. *)
Example lifespan_runs :
  let up := lifespan_startup example_int (Some "30") (initial None) in
  let steps := [TaskMoves 0 PendingInCycle; TaskMoves 0 PendingInHandler;
                CallStop; CallStart 60 PNone 500] in
  let down := lifespan_shutdown (run steps up.2) in
  tasks up.2 = [(mkTaskArgs 30 PNone 500, PendingSetup)] /\
  tasks down.2 = [(mkTaskArgs 30 PNone 500, Cancelled);
                  (mkTaskArgs 60 PNone 500, Cancelled)] /\
  lifespan_startup example_int (Some "soon") (initial None) =
    (Ret tt, initial None).
Proof. repeat split. Qed.

(* --------------------------------------------------------------------- *)
(** ** Price normalization                                                *)
(* --------------------------------------------------------------------- *)

Section ModelsFacts.
Variable float_of : PyVal -> string + pyfloat.
Variable lower : string -> string.

Lemma clamp_unit_price (p : pyfloat) :
  unit_price (float_max (FFinite 0) (float_min (FFinite 1) p)).
Proof.
  destruct p as [x | [] |];
    [| left; reflexivity | right; left; reflexivity
     | right; left; reflexivity].
  unfold float_min, float_max; cbn [float_lt].
  destruct (Qle_bool 1 x) eqn:H1; cbn [negb float_lt].
  - change (Qle_bool 1 0) with false. right. left. reflexivity.
  - destruct (Qle_bool x 0) eqn:H0; cbn [negb unit_price].
    + left. reflexivity.
    + right. right. split; apply Qnot_le_lt; intros Hle;
        apply Qle_bool_iff in Hle; congruence.
Qed.

Lemma unit_price_clamp (p : pyfloat) :
  unit_price p ->
  float_lt (FFinite 1) p = false /\
  float_max (FFinite 0) (float_min (FFinite 1) p) = p.
Proof.
  destruct p as [x | |]; cbn [unit_price]; try tauto.
  intros [-> | [-> | [H0 H1]]]; [split; reflexivity | split; reflexivity |].
  unfold float_min, float_max; cbn [float_lt].
  assert (Hx1 : Qle_bool 1 x = false).
  { apply not_true_is_false. intros Hle. apply Qle_bool_iff in Hle. lra. }
  assert (Hx0 : Qle_bool x 0 = false).
  { apply not_true_is_false. intros Hle. apply Qle_bool_iff in Hle. lra. }
  assert (H1x : Qle_bool x 1 = true) by (apply Qle_bool_iff; lra).
  rewrite H1x, Hx1. cbn [negb float_lt]. rewrite Hx0. split; reflexivity.
Qed.

(** Whatever the platform, a price that [float] accepts is clamped. *)
Lemma normalize_price_returns (platform : string) (price : PyVal)
    (p : pyfloat) :
  float_of price = inr p ->
  exists q,
    normalize_price float_of lower platform price = Ret q /\ unit_price q.
Proof.
  intros Hp. unfold normalize_price. rewrite Hp.
  cbn [call try_except_Exception res_bind].
  destruct (lower platform =? "polymarket")%string;
    [eexists; split; [reflexivity | apply clamp_unit_price] |].
  destruct (lower platform =? "kalshi")%string;
    [| eexists; split; [reflexivity | apply clamp_unit_price]].
  destruct (float_lt (FFinite 1) p);
    eexists; (split; [reflexivity | apply clamp_unit_price]).
Qed.

End ModelsFacts.

(** X15.  The range of [normalize_price].  Whatever the platform and the
    price: when [float(price)] raises, whatever it raises, the call raises
    [ValueError]; when [float(price)] returns, the call returns, and what
    it returns is a finite float between 0 and 1.  So the call raises
    exactly when [float(price)] does.  A NaN and the infinities are clamped
    as well. *)
Theorem normalize_price_range (float_of : PyVal -> string + pyfloat)
    (lower : string -> string) (platform : string) (price : PyVal) :
  match float_of price with
  | inl _ =>
      normalize_price float_of lower platform price =
        Raise (Exception "ValueError")
  | inr _ =>
      exists x,
        normalize_price float_of lower platform price = Ret (FFinite x) /\
        (0 <= x)%Q /\ (x <= 1)%Q
  end.
Proof.
  destruct (float_of price) as [cls | p] eqn:Hp.
  - unfold normalize_price. rewrite Hp. reflexivity.
  - destruct (normalize_price_returns float_of lower platform price p Hp)
      as (q & -> & Hq).
    destruct q as [x | |]; cbn in Hq; try contradiction.
    exists x. split; [reflexivity |].
    destruct Hq as [-> | [-> | [H0 H1]]]; split; lra.
Qed.

(** X16.  Normalizing twice.  [float] takes a float to itself; so a
    normalized price is normalized to itself, on every platform: prices
    that are already in the internal range go through unchanged. *)
Theorem normalize_price_idempotent (float_of : PyVal -> string + pyfloat)
    (lower : string -> string) (platform : string) (price : PyVal)
    (q : pyfloat) :
  (forall p, float_of (PFloat p) = inr p) ->
  normalize_price float_of lower platform price = Ret q ->
  forall platform',
    normalize_price float_of lower platform' (PFloat q) = Ret q.
Proof.
  intros Hfloat Hq platform'.
  assert (Hunit : unit_price q).
  { destruct (float_of price) as [cls | p] eqn:Hp.
    - unfold normalize_price in Hq. rewrite Hp in Hq. discriminate.
    - destruct (normalize_price_returns float_of lower platform price p Hp)
        as (q' & Hq' & Hu).
      rewrite Hq in Hq'. injection Hq' as <-. exact Hu. }
  destruct (unit_price_clamp q Hunit) as [Hlt Hclamp].
  unfold normalize_price. rewrite Hfloat.
  cbn [call try_except_Exception res_bind].
  rewrite Hlt, Hclamp.
  destruct (lower platform' =? "polymarket")%string; [reflexivity |].
  destruct (lower platform' =? "kalshi")%string; reflexivity.
Qed.

(** 58 cents on Kalshi, and the result normalized again. *)
Lemma normalize_price_idempotent_witness :
  normalize_price example_float example_lower "Kalshi" (PInt 58) =
    Ret (FFinite (58 / 100)) /\
  normalize_price example_float example_lower "kalshi"
                  (PFloat (FFinite (58 / 100))) =
    Ret (FFinite (58 / 100)).
Proof.
  assert (Hfirst : normalize_price example_float example_lower "Kalshi"
                                   (PInt 58) = Ret (FFinite (58 / 100)))
    by reflexivity.
  split; [exact Hfirst |].
  apply (normalize_price_idempotent example_float example_lower "Kalshi"
           (PInt 58) (FFinite (58 / 100)));
    [intros p; reflexivity | exact Hfirst].
Defined.

(** X17.  Kalshi's cents.  On the platform whose lower-cased name is
    [kalshi], a finite price above 1 and below 100 is divided by 100, a
    price of 100 or more gives 1.0, and a price up to 1 is clamped as on any
    other platform; a price of exactly 1 stays 1.0, it is not read as one
    cent. *)
Theorem normalize_price_kalshi_cents (float_of : PyVal -> string + pyfloat)
    (lower : string -> string) (platform : string) (price : PyVal) (x : Q) :
  lower platform = "kalshi" ->
  float_of price = inr (FFinite x) ->
  let result := normalize_price float_of lower platform price in
  ((1 < x)%Q -> (x < 100)%Q -> result = Ret (FFinite (x / 100))) /\
  ((100 <= x)%Q -> result = Ret (FFinite 1)) /\
  ((x <= 1)%Q ->
   result = Ret (float_max (FFinite 0) (float_min (FFinite 1) (FFinite x)))) /\
  ((x == 1)%Q -> result = Ret (FFinite 1)).
Proof.
  intros Hpl Hp result. unfold result, normalize_price.
  rewrite Hp, Hpl. cbn [call try_except_Exception res_bind String.eqb
                        Ascii.eqb Bool.eqb].
  cbn [float_lt].
  assert (Hle1 : forall a b : Q, (a <= b)%Q -> Qle_bool a b = true)
    by (intros a b; apply Qle_bool_iff).
  assert (Hgt1 : forall a b : Q, (b < a)%Q -> Qle_bool a b = false).
  { intros a b Hlt. apply not_true_is_false. intros Hle.
    apply Qle_bool_iff in Hle. lra. }
  split; [| split; [| split]].
  - intros H1 H100. rewrite (Hgt1 x 1%Q H1). cbn [negb float_div].
    assert (Hd1 : (x / 100 < 1)%Q)
      by (apply Qlt_shift_div_r; [reflexivity | lra]).
    assert (Hd0 : (0 < x / 100)%Q)
      by (apply Qlt_shift_div_l; [reflexivity | lra]).
    unfold float_min, float_max. cbn [float_lt].
    rewrite (Hgt1 1%Q (x / 100)%Q Hd1). cbn [negb float_lt].
    rewrite (Hgt1 (x / 100)%Q 0%Q Hd0). reflexivity.
  - intros H100. rewrite (Hgt1 x 1%Q) by lra. cbn [negb float_div].
    assert (Hd1 : (1 <= x / 100)%Q)
      by (apply Qle_shift_div_l; [reflexivity | lra]).
    unfold float_min, float_max. cbn [float_lt].
    rewrite (Hle1 1%Q (x / 100)%Q Hd1). reflexivity.
  - intros H1. rewrite (Hle1 x 1%Q H1). reflexivity.
  - intros H1. rewrite (Hle1 x 1%Q) by lra. cbn [negb].
    unfold float_min, float_max. cbn [float_lt].
    rewrite (Hle1 1%Q x) by lra. reflexivity.
Qed.

(** Two cents, and a price of 1. *)
Lemma normalize_price_kalshi_cents_witness :
  normalize_price example_float example_lower "KALSHI" (PStr "2") =
    Ret (FFinite (2 / 100)) /\
  normalize_price example_float example_lower "KALSHI" (PInt 1) =
    Ret (FFinite 1).
Proof.
  destruct (normalize_price_kalshi_cents example_float example_lower
              "KALSHI" (PStr "2") 2 eq_refl
              ltac:(vm_compute; reflexivity)) as (Hcents & _).
  destruct (normalize_price_kalshi_cents example_float example_lower
              "KALSHI" (PInt 1) 1 eq_refl eq_refl) as (_ & _ & _ & Hone).
  split.
  - apply Hcents; reflexivity.
  - apply Hone. reflexivity.
Defined.

(* --------------------------------------------------------------------- *)
(** ** The API routes                                                     *)
(* --------------------------------------------------------------------- *)

Section RouteFacts.
Variables (BASE_URL : string) (API_KEY : option string)
          (RATE_LIMIT_PER_MINUTE : Z).

(** A call of the transport that finds a token at the next reading and
    whose exchanges end with [o], after transient failures that were
    retried. *)
Lemma request_run (self : KalshiHttpClient) (method url : string)
    (params : option (gmap string PyVal)) (w : World) (t : Q) (rest : list Q)
    (failed : list (exn + PyVal)) (o : exn + PyVal)
    (script : list (exn + PyVal)) :
  clock w = t :: rest ->
  (1 <= tokens (refill_at (rate_limiter w) t))%Q ->
  net w = failed ++ o :: script ->
  Forall (fun o => transient o = true) failed ->
  (length failed < 3)%nat ->
  transient o = false \/ length failed = 2%nat ->
  _request_with_retry self method url params default_max_retries
                      default_base_backoff w =
    (outcome o,
     mkWorld (deduct (refill_at (rate_limiter w) t) 1) rest
             (slept w ++ backoffs 1 0 (length failed)) script
             (sent w ++ repeat (mkRequest method url params (_headers self))
                               (S (length failed)))
             (logged w ++ warnings 1 3 0 failed ++ final_log o)
             (markets w) (events w) (dbnow w) (txn w)).
Proof.
  intros Hclock Htok Hnet Htrans Hlen Hlast.
  unfold _request_with_retry, bind.
  rewrite (acquire_now 1 w t rest Hclock)
    by (apply Qle_bool_iff; exact Htok).
  rewrite range_range_from.
  rewrite (retry_loop_run self method url params default_max_retries
             default_base_backoff failed 0%Z (Z.to_nat default_max_retries)
             _ o script);
    [| reflexivity | unfold default_max_retries; simpl; lia | exact Htrans
     | destruct w; exact Hnet
     | destruct Hlast as [Hl | Hl];
       [left; exact Hl | right; rewrite Hl; reflexivity]].
  destruct w; reflexivity.
Qed.

(** A bucket built for a budget of one request per minute or more has a
    token at the next reading. *)
Lemma fresh_bucket_serves (t0 t1 : Q) :
  (1 <= RATE_LIMIT_PER_MINUTE)%Z -> (t0 <= t1)%Q ->
  (1 <= tokens (refill_at
                  (TokenBucket_init (inject_Z RATE_LIMIT_PER_MINUTE)
                                    (inject_Z RATE_LIMIT_PER_MINUTE / 60) t0)
                  t1))%Q.
Proof.
  intros Hrpm Ht. unfold refill_at, TokenBucket_init.
  cbn [tokens capacity last_refill refill_rate_per_second].
  assert (Hq : (1 <= inject_Z RATE_LIMIT_PER_MINUTE)%Q).
  { change 1%Q with (inject_Z 1). rewrite <- Zle_Qle. exact Hrpm. }
  assert (Hrate : (0 <= inject_Z RATE_LIMIT_PER_MINUTE / 60)%Q).
  { apply Qle_shift_div_l; [reflexivity |]. lra. }
  assert (Hadd : (0 <= (t1 - t0) * (inject_Z RATE_LIMIT_PER_MINUTE / 60))%Q)
    by (apply Qmult_le_0_compat; lra).
  apply Q.min_glb; lra.
Qed.

(** A route call, whatever its resource: a client built at the first
    reading, one call of the transport, and the exception handler. *)
Lemma route_run (r : Resource) (cursor limit : PyVal) (w : World)
    (t0 t1 : Q) (rest : list Q) (failed : list (exn + PyVal))
    (o : exn + PyVal) (script : list (exn + PyVal)) :
  (1 <= RATE_LIMIT_PER_MINUTE)%Z ->
  clock w = t0 :: t1 :: rest -> (t0 <= t1)%Q ->
  net w = failed ++ o :: script ->
  Forall (fun o => transient o = true) failed ->
  (length failed < 3)%nat ->
  transient o = false \/ length failed = 2%nat ->
  route BASE_URL API_KEY RATE_LIMIT_PER_MINUTE r cursor limit w =
    mkRouteRun
      match o with
      | inr body => Responds body
      | inl e => if is_Exception e then HTTPException 503 e else Escapes e
      end
      (mkWorld (rate_limiter w) rest
               (slept w ++ backoffs 1 0 (length failed)) script
               (sent w ++ repeat (route_request BASE_URL API_KEY r cursor
                                                limit)
                                 (S (length failed)))
               (logged w ++ warnings 1 3 0 failed ++ final_log o)
               (markets w) (events w) (dbnow w) (txn w))
      match o with inr _ => true | inl _ => false end.
Proof.
  intros Hrpm Hclock Ht Hnet Htrans Hlen Hlast.
  pose proof (fresh_bucket_serves t0 t1 Hrpm Ht) as Htok.
  destruct w as [b c sl ne se lg mk ev dn tx].
  cbn [clock net] in Hclock, Hnet. subst c ne.
  destruct r; unfold route, kalshi_markets, kalshi_events,
    KalshiHttpClient_init, new_TokenBucket, bind at 1, bind at 1, time_time;
    cbn [clock]; unfold set_clock, set_rate_limiter, ret;
    cbn [fst snd rate_limiter clock slept net sent logged markets events
         dbnow txn];
    unfold get_markets, get_events;
    (erewrite request_run;
     [| reflexivity | exact Htok | reflexivity | exact Htrans | exact Hlen
      | exact Hlast]);
    unfold leave, set_rate_limiter;
    cbn [fst snd rate_limiter clock slept net sent logged markets events
         dbnow txn base_url];
    destruct o as [e | body]; cbn [outcome]; reflexivity.
Qed.

End RouteFacts.


(** X19.  A route whose request fails.  When the request fails for good
    with [e], the route raises [HTTPException] with status 503 for an
    [Exception] (a [CancelledError] goes through), after the attempts the
    transport makes; and it has not closed the client it built, which it
    closes when the request succeeds. *)
Theorem route_failure_leaves_client_open (BASE_URL : string)
    (API_KEY : option string) (RATE_LIMIT_PER_MINUTE : Z) (r : Resource)
    (cursor limit : PyVal) (w : World) (t0 t1 : Q) (rest : list Q)
    (failed : list (exn + PyVal)) (e : exn) (script : list (exn + PyVal)) :
  (1 <= RATE_LIMIT_PER_MINUTE)%Z ->
  clock w = t0 :: t1 :: rest -> (t0 <= t1)%Q ->
  net w = failed ++ inl e :: script ->
  Forall (fun o => transient o = true) failed ->
  (length failed < 3)%nat ->
  transient (inl e) = false \/ length failed = 2%nat ->
  let run := route BASE_URL API_KEY RATE_LIMIT_PER_MINUTE r cursor limit w in
  route_outcome run =
    (if is_Exception e then HTTPException 503 e else Escapes e) /\
  client_closed run = false /\
  sent (route_world run) =
    sent w ++ repeat (route_request BASE_URL API_KEY r cursor limit)
                     (S (length failed)) /\
  (forall body,
     client_closed
       (route BASE_URL API_KEY RATE_LIMIT_PER_MINUTE r cursor limit
              (set_net (inr body :: script) w)) = true).
Proof.
  intros Hrpm Hclock Ht Hnet Htrans Hlen Hlast run. unfold run.
  rewrite (route_run BASE_URL API_KEY RATE_LIMIT_PER_MINUTE r cursor limit w
             t0 t1 rest failed (inl e) script Hrpm Hclock Ht Hnet Htrans
             Hlen Hlast).
  cbn [route_outcome client_closed route_world sent].
  repeat split. intros body.
  rewrite (route_run BASE_URL API_KEY RATE_LIMIT_PER_MINUTE r cursor limit
             (set_net (inr body :: script) w) t0 t1 rest [] (inr body)
             script Hrpm); try reflexivity.
  - destruct w; exact Hclock.
  - exact Ht.
  - constructor.
  - simpl. lia.
  - left. reflexivity.
Qed.

Section RouteExamples.


(** A status 404 from the API. *)
Lemma route_failure_leaves_client_open_witness :
  let w := example_world [inl (HTTPStatusError 404)] in
  let run := route "https://api.example" None 120 Markets PNone (PInt 1000)
                   w in
  route_outcome run = HTTPException 503 (HTTPStatusError 404) /\
  client_closed run = false.
Proof.
  intros w run.
  destruct (route_failure_leaves_client_open "https://api.example" None 120
              Markets PNone (PInt 1000) w 1 2 [3; 4; 5; 6; 7; 8]%Q []
              (HTTPStatusError 404) []
              ltac:(lia) eq_refl ltac:(vm_compute; discriminate) eq_refl
              ltac:(constructor) ltac:(simpl; lia)
              ltac:(left; reflexivity))
    as (Hout & Hclosed & _).
  exact (conj Hout Hclosed).
Defined.

End RouteExamples.

(* --------------------------------------------------------------------- *)
(** ** The connection pool                                                *)
(* --------------------------------------------------------------------- *)

Section PoolFacts.

Lemma pooled_current (s : Pools) (p : nat) :
  pooled s -> _pool s = Some p ->
  (p < pools_created s)%nat /\ p ∉ pools_closed s.
Proof.
  intros [Hopen _] Hp. rewrite Hp in Hopen.
  assert (Hin : p ∈ open_pools s) by (rewrite Hopen; apply list_elem_of_here).
  apply list_elem_of_filter in Hin as [Hnot Hin].
  apply elem_of_seq in Hin. split; [lia | exact Hnot].
Qed.

Lemma get_pool_pooled (s : Pools) : pooled s -> pooled (get_pool s).2.
Proof.
  intros Hs. unfold get_pool.
  destruct (_pool s) as [p |] eqn:Hp; [exact Hs |].
  destruct (create_pool_outcomes s) as [| [e |] rest]; [exact Hs | |].
  - destruct Hs as [Hopen Hclosed]. rewrite Hp in Hopen.
    split; [exact Hopen | exact Hclosed].
  - destruct Hs as [Hopen Hclosed]. rewrite Hp in Hopen.
    unfold pooled, open_pools in *. cbn [snd _pool pools_created pools_closed].
    split.
    + rewrite seq_S, filter_app, Hopen. cbn [Nat.add app].
      rewrite filter_cons, filter_nil, decide_True; [reflexivity |].
      intros Hin. rewrite Forall_forall in Hclosed.
      specialize (Hclosed _ Hin). lia.
    + eapply Forall_impl; [exact Hclosed |]. cbn. intros; lia.
Qed.

Lemma close_pool_pooled (s : Pools) : pooled s -> pooled (close_pool s).2.
Proof.
  intros Hs. unfold close_pool.
  destruct (_pool s) as [p |] eqn:Hp; [| exact Hs].
  destruct (pooled_current s p Hs Hp) as [Hlt Hnot].
  destruct Hs as [Hopen Hclosed]. rewrite Hp in Hopen.
  unfold pooled, open_pools in *. cbn [snd _pool pools_created pools_closed].
  split; [| constructor; assumption].
  assert (Hfilter : forall l : list nat,
    filter (fun q => q ∉ p :: pools_closed s) l =
      filter (fun q => q ≠ p) (filter (fun q => q ∉ pools_closed s) l)).
  { induction l as [| q l IH]; [reflexivity |].
    rewrite !filter_cons.
    destruct (decide (q ∉ p :: pools_closed s)) as [Hq | Hq].
    - apply not_elem_of_cons in Hq as [Hne Hq].
      rewrite (decide_True (P := q ∉ pools_closed s)) by exact Hq.
      rewrite filter_cons, decide_True by exact Hne. f_equal. exact IH.
    - destruct (decide (q ∉ pools_closed s)) as [Hq' | Hq']; [| exact IH].
      rewrite filter_cons, decide_False; [exact IH |].
      intros Hne. apply Hq, not_elem_of_cons. split; assumption. }
  rewrite Hfilter, Hopen, filter_cons, filter_nil, decide_False;
    [reflexivity | intros Hne; apply Hne; reflexivity].
Qed.

Lemma pool_calls_pooled (cs : list PoolCall) :
  forall s : Pools, pooled s -> pooled (pool_calls cs s).
Proof.
  induction cs as [| c cs IH]; intros s Hs; [exact Hs |].
  apply IH. destruct c; [apply get_pool_pooled | apply close_pool_pooled];
    exact Hs.
Qed.

Lemma no_pool_pooled (outcomes : list (option exn)) :
  pooled (no_pool outcomes).
Proof. split; [reflexivity | constructor]. Qed.

End PoolFacts.

(** X20.  The connection pool.  After any sequence of [get_pool] and
    [close_pool] calls, each run to its end, and whichever [create_pool]
    calls failed: the pools created and not closed are the current one, if
    there is one.  A [get_pool] that returns a pool returns the same pool
    when called again, and creates none; [close_pool] returns, leaves no
    pool open, and a second [close_pool] does nothing. *)
Theorem pool_is_a_singleton (outcomes : list (option exn))
    (cs : list PoolCall) :
  let s := pool_calls cs (no_pool outcomes) in
  open_pools s = match _pool s with Some p => [p] | None => [] end /\
  (forall p, (get_pool s).1 = Ret p ->
     (get_pool (get_pool s).2) = (Ret p, (get_pool s).2) /\
     open_pools (get_pool s).2 = [p]) /\
  (close_pool s).1 = Ret tt /\
  open_pools (close_pool s).2 = [] /\
  close_pool (close_pool s).2 = (Ret tt, (close_pool s).2).
Proof.
  intros s.
  assert (Hs : pooled s) by apply pool_calls_pooled, no_pool_pooled.
  split; [apply Hs |]. split; [| split; [| split]].
  - intros p Hp.
    pose proof (get_pool_pooled s Hs) as [Hopen _].
    assert (Hcur : _pool (get_pool s).2 = Some p).
    { revert Hp. unfold get_pool.
      destruct (_pool s) as [q |] eqn:Hq; cbn [fst snd].
      - intros [= <-]. exact Hq.
      - destruct (create_pool_outcomes s) as [| [e |] rest]; cbn [fst snd];
          try discriminate.
        intros [= <-]. reflexivity. }
    rewrite Hcur in Hopen. split; [| exact Hopen].
    unfold get_pool at 1. rewrite Hcur. reflexivity.
  - unfold close_pool. destruct (_pool s); reflexivity.
  - pose proof (close_pool_pooled s Hs) as [Hopen _].
    rewrite Hopen. unfold close_pool.
    destruct (_pool s) eqn:Hp; cbn [snd _pool]; [reflexivity |].
    rewrite Hp. reflexivity.
  - unfold close_pool at 1.
    assert (Hnone : _pool (close_pool s).2 = None).
    { unfold close_pool. destruct (_pool s) eqn:Hp; [reflexivity | exact Hp]. }
    rewrite Hnone. reflexivity.
Qed.

(* --------------------------------------------------------------------- *)
(** ** The single-record upserts                                          *)
(* --------------------------------------------------------------------- *)

Lemma market_single_ok :
  single_ok market_fields market_jsonb_cols market_col_names
            upsert_market_values upsert_market_dt_cols upsert_market_cols.
Proof.
  split; [reflexivity |]. split; [vm_compute; reflexivity |].
  split; [| split]; apply (bool_decide_unpack _); vm_compute; reflexivity.
Qed.

Lemma event_single_ok :
  single_ok event_fields event_jsonb_cols event_col_names
            upsert_event_values [] upsert_event_cols.
Proof.
  split; [reflexivity |]. split; [vm_compute; reflexivity |].
  split; [| split]; apply (bool_decide_unpack _); vm_compute; reflexivity.
Qed.

Section SingleFacts.
Context `{PyRuntime}.
Variables (key : string) (fields : list (string * conversion))
          (jsonb_cols col_names : list string).
Hypothesis Hok : table_ok key fields jsonb_cols col_names.
Variables (sfields : list (string * single_conversion))
          (dt_cols cols : list string).
Hypothesis Hsingle : single_ok fields jsonb_cols col_names sfields dt_cols cols.

Lemma sfields_names : map fst sfields = map fst fields.
Proof.
  destruct Hsingle as (_ & <- & _). rewrite map_map. reflexivity.
Qed.

Lemma sfields_NoDup : NoDup (map fst sfields).
Proof. rewrite sfields_names. exact (proj1 Hok). Qed.

Lemma sfields_unique (col : string) (sc sc' : single_conversion) :
  (col, sc) ∈ sfields -> (col, sc') ∈ sfields -> sc = sc'.
Proof.
  intros H1 H2.
  pose proof sfields_NoDup as Hnd.
  assert (Hl : forall c, (list_to_map sfields : gmap string _) !! col = Some c
                         <-> (col, c) ∈ sfields).
  { intros c. split.
    - apply elem_of_list_to_map_2.
    - apply elem_of_list_to_map_1. exact Hnd. }
  apply Hl in H1, H2. congruence.
Qed.

Lemma fields_unique (col : string) (c c' : conversion) :
  (col, c) ∈ fields -> (col, c') ∈ fields -> c = c'.
Proof.
  intros H1 H2.
  pose proof (proj1 Hok) as Hnd.
  assert (Hl : forall x, (list_to_map fields : gmap string _) !! col = Some x
                         <-> (col, x) ∈ fields).
  { intros x. split.
    - apply elem_of_list_to_map_2.
    - apply elem_of_list_to_map_1. exact Hnd. }
  apply Hl in H1, H2. congruence.
Qed.

Lemma sfields_fields (col : string) (sc : single_conversion) :
  (col, sc) ∈ sfields ->
  (col, batch_conversion dt_cols (col, sc)) ∈ fields.
Proof.
  intros Hin. destruct Hsingle as (_ & <- & _).
  apply list_elem_of_fmap. exists (col, sc). split; [reflexivity | exact Hin].
Qed.

Lemma dt_cols_plain (col : string) :
  col ∈ dt_cols -> (col, Like Plain) ∈ sfields /\ col ∉ jsonb_cols.
Proof.
  intros Hin. destruct Hsingle as (_ & _ & _ & Hdt & _).
  rewrite Forall_forall in Hdt. apply Hdt, Hin.
Qed.

Lemma dumps_jsonb (col : string) :
  (col, Dumps) ∈ sfields -> col ∈ jsonb_cols.
Proof.
  intros Hin. destruct Hsingle as (_ & _ & _ & _ & Hd).
  rewrite Forall_forall in Hd. apply (Hd (col, Dumps) Hin). reflexivity.
Qed.

Lemma jsonb_plain (col : string) :
  col ∈ jsonb_cols -> (col, Plain) ∈ fields.
Proof.
  intros Hin. destruct Hok as (_ & _ & _ & _ & Hp).
  rewrite Forall_forall in Hp. apply Hp, Hin.
Qed.

(** The literal, on a dict whose [json.dumps] entries are accepted. *)
Lemma project_single_all (key_value : PyVal) (d : gmap string PyVal)
    (fs : list (string * single_conversion)) :
  dumps_accepted fs d = true ->
  res_mapM (project_single key_value (PDict d)) fs =
    Ret (map (fun f => (f.1, single_field_value key_value d f)) fs).
Proof.
  induction fs as [| f fs IH]; intros Hacc; [reflexivity |].
  unfold dumps_accepted in Hacc. cbn [forallb] in Hacc.
  apply andb_true_iff in Hacc as [Hf Hfs].
  cbn [res_mapM map]. rewrite (IH Hfs).
  destruct f as [col [c |]]; unfold project_single, single_field_value;
    cbn [fst snd] in *.
  - rewrite project_dict. reflexivity.
  - cbn [dict_get res_bind]. unfold dumped.
    destruct (is_None (default PNone (d !! col))); [reflexivity |].
    cbn [orb] in Hf.
    destruct (json_dumps (default PNone (d !! col))); [discriminate |].
    reflexivity.
Qed.

(** The datetime loop, column by column. *)
Lemma convert_datetimes_lookup (l : list string) :
  NoDup l ->
  forall values : gmap string PyVal,
  exists values',
    convert_datetimes l values = Ret values' /\
    forall c,
      values' !! c =
        if bool_decide (c ∈ l) then
          match values !! c with
          | Some v =>
              if is_None v then Some v else Some (value (_as_datetime v))
          | None => None
          end
        else values !! c.
Proof.
  induction 1 as [| c0 l Hnotin Hnd IH]; intros values.
  - exists values. split; [reflexivity |]. intros c.
    rewrite bool_decide_eq_false_2 by apply not_elem_of_nil. reflexivity.
  - cbn [convert_datetimes].
    destruct (is_None (default PNone (values !! c0))) eqn:Hnone.
    + destruct (IH values) as (values' & -> & Hl).
      exists values'. split; [reflexivity |]. intros c. rewrite Hl.
      destruct (decide (c = c0)) as [-> | Hne].
      * rewrite bool_decide_eq_false_2 by exact Hnotin.
        rewrite bool_decide_eq_true_2 by apply list_elem_of_here.
        destruct (values !! c0) as [v |]; [| reflexivity].
        simpl in Hnone. rewrite Hnone. reflexivity.
      * destruct (bool_decide (c ∈ l)) eqn:Hin.
        -- apply bool_decide_eq_true_1 in Hin.
           rewrite bool_decide_eq_true_2
             by (apply list_elem_of_further, Hin).
           reflexivity.
        -- apply bool_decide_eq_false_1 in Hin.
           rewrite bool_decide_eq_false_2; [reflexivity |].
           intros Hc. apply elem_of_cons in Hc as [Hc | Hc]; tauto.
    + destruct (_as_datetime_returns (default PNone (values !! c0)))
        as [x Hx].
      rewrite Hx. cbn [res_bind].
      destruct (IH (<[ c0 := x ]> values)) as (values' & -> & Hl).
      exists values'. split; [reflexivity |]. intros c. rewrite Hl.
      destruct (decide (c = c0)) as [-> | Hne].
      * rewrite bool_decide_eq_false_2 by exact Hnotin.
        rewrite bool_decide_eq_true_2 by apply list_elem_of_here.
        rewrite lookup_insert_eq.
        destruct (values !! c0) as [v |]; simpl in Hnone, Hx.
        -- rewrite Hnone, Hx. reflexivity.
        -- discriminate.
      * rewrite lookup_insert_ne by congruence.
        destruct (bool_decide (c ∈ l)) eqn:Hin.
        -- apply bool_decide_eq_true_1 in Hin.
           rewrite bool_decide_eq_true_2
             by (apply list_elem_of_further, Hin).
           reflexivity.
        -- apply bool_decide_eq_false_1 in Hin.
           rewrite bool_decide_eq_false_2; [reflexivity |].
           intros Hc. apply elem_of_cons in Hc as [Hc | Hc]; tauto.
Qed.

Lemma literal_lookup (key_value : PyVal) (d : gmap string PyVal)
    (col : string) (sc : single_conversion) :
  (col, sc) ∈ sfields ->
  (list_to_map
     (map (fun f => (f.1, single_field_value key_value d f)) sfields)
   : gmap string PyVal) !! col =
    Some (single_field_value key_value d (col, sc)).
Proof.
  intros Hin. apply elem_of_list_to_map_1.
  - replace ((map (fun f : string * single_conversion =>
                     (f.1, single_field_value key_value d f)) sfields).*1)
      with (map fst sfields); [exact sfields_NoDup |].
    clear. induction sfields as [| f fs IH]; simpl; [reflexivity |].
    f_equal. exact IH.
  - apply list_elem_of_fmap. exists (col, sc).
    split; [reflexivity | exact Hin].
Qed.

Lemma literal_lookup_None (key_value : PyVal) (d : gmap string PyVal)
    (col : string) :
  col ∉ map fst sfields ->
  (list_to_map
     (map (fun f => (f.1, single_field_value key_value d f)) sfields)
   : gmap string PyVal) !! col = None.
Proof.
  intros Hnotin. apply not_elem_of_list_to_map_1.
  replace ((map (fun f : string * single_conversion =>
                   (f.1, single_field_value key_value d f)) sfields).*1)
    with (map fst sfields); [exact Hnotin |].
  clear. induction sfields as [| f fs IH]; simpl; [reflexivity |].
  f_equal. exact IH.
Qed.

(** What ends up in [values] for a column, once the loop is through. *)
Lemma single_argument_spec (d : gmap string PyVal) (values' : gmap string PyVal)
    (col : string) :
  (forall c,
     values' !! c =
       if bool_decide (c ∈ dt_cols) then
         match (list_to_map
                  (map (fun f =>
                          (f.1, single_field_value (default PNone (d !! key))
                                                   d f))
                       sfields) : gmap string PyVal) !! c with
         | Some v =>
             if is_None v then Some v else Some (value (_as_datetime v))
         | None => None
         end
       else
         (list_to_map
            (map (fun f =>
                    (f.1, single_field_value (default PNone (d !! key)) d f))
                 sfields) : gmap string PyVal) !! c) ->
  default PNone (values' !! col) =
    single_argument key fields jsonb_cols sfields d col.
Proof.
  intros Hl. rewrite Hl. unfold single_argument. cbv zeta.
  destruct (decide (col ∈ map fst sfields)) as [Hin | Hnotin].
  - apply list_elem_of_fmap in Hin as ([col' sc] & Hcol & Hin).
    simpl in Hcol. subst col'.
    rewrite (literal_lookup _ d col sc Hin).
    destruct sc as [c0 |].
    + (* an entry computed as in the batch *)
      rewrite (bool_decide_eq_false_2 ((col, Dumps) ∈ sfields))
        by (intros Hd; pose proof (sfields_unique _ _ _ Hin Hd);
            discriminate).
      pose proof (sfields_fields _ _ Hin) as Hf.
      unfold single_field_value. cbn [fst snd].
      destruct (bool_decide (col ∈ dt_cols)) eqn:Hdt.
      * apply bool_decide_eq_true_1 in Hdt.
        destruct (dt_cols_plain col Hdt) as [Hplain Hnj].
        pose proof (sfields_unique _ _ _ Hin Hplain) as Hc.
        injection Hc as ->.
        rewrite bool_decide_eq_false_2 by exact Hnj.
        unfold batch_conversion in Hf. cbn [fst snd] in Hf.
        rewrite bool_decide_eq_true_2 in Hf by exact Hdt.
        unfold argument.
        rewrite (typed_record_lookup key fields jsonb_cols col_names Hok
                   d col AsDatetime Hf).
        rewrite bool_decide_eq_false_2 by exact Hnj. cbn [andb default].
        unfold field_value. cbn [fst snd].
        destruct (default PNone (d !! col)) eqn:Hv; reflexivity.
      * apply bool_decide_eq_false_1 in Hdt.
        assert (Hbc : batch_conversion dt_cols (col, Like c0) = c0).
        { unfold batch_conversion. cbn [fst snd].
          rewrite bool_decide_eq_false_2 by exact Hdt.
          destruct c0; reflexivity. }
        rewrite Hbc in Hf.
        destruct (bool_decide (col ∈ jsonb_cols)) eqn:Hj.
        -- apply bool_decide_eq_true_1 in Hj.
           pose proof (fields_unique _ _ _ Hf (jsonb_plain col Hj)) as ->.
           reflexivity.
        -- unfold argument. rewrite Hj.
           rewrite (typed_record_lookup key fields jsonb_cols col_names Hok
                      d col c0 Hf).
           reflexivity.
    + (* an entry passed through [json.dumps] *)
      rewrite (bool_decide_eq_true_2 ((col, Dumps) ∈ sfields)) by exact Hin.
      rewrite bool_decide_eq_false_2.
      * reflexivity.
      * intros Hdt. destruct (dt_cols_plain col Hdt) as [Hplain _].
        pose proof (sfields_unique _ _ _ Hin Hplain). discriminate.
  - (* a column the literal does not have *)
    rewrite literal_lookup_None by exact Hnotin.
    assert (Hnf : forall c, (col, c) ∉ fields).
    { intros c Hc. apply Hnotin. rewrite sfields_names.
      apply list_elem_of_fmap. exists (col, c).
      split; [reflexivity | exact Hc]. }
    rewrite (bool_decide_eq_false_2 ((col, Dumps) ∈ sfields))
      by (intros Hd; apply Hnotin, list_elem_of_fmap; exists (col, Dumps);
          split; [reflexivity | exact Hd]).
    rewrite (bool_decide_eq_false_2 (col ∈ jsonb_cols))
      by (intros Hj; exact (Hnf _ (jsonb_plain col Hj))).
    assert (Hrec : typed_record key fields d !! col = None).
    { unfold typed_record. apply not_elem_of_list_to_map_1.
      intros Hc. apply list_elem_of_fmap in Hc as ([c v] & Hcv & Hc).
      apply list_elem_of_fmap in Hc as ([c' conv] & Heq & Hc).
      simpl in Hcv, Heq. injection Heq as -> _. subst c'.
      exact (Hnf _ Hc). }
    unfold argument. rewrite Hrec. cbn [default is_None negb andb].
    rewrite andb_false_r.
    destruct (bool_decide (col ∈ dt_cols)); reflexivity.
Qed.

(** The arguments of the statement, column by column. *)
Lemma single_arguments_spec (d : gmap string PyVal) :
  dumps_accepted sfields d = true ->
  single_arguments sfields dt_cols cols (default PNone (d !! key)) (PDict d) =
    Ret (map (single_argument key fields jsonb_cols sfields d) col_names).
Proof.
  intros Hacc. unfold single_arguments.
  rewrite (project_single_all _ d sfields Hacc). cbn [res_bind].
  destruct Hsingle as (Hcols & _ & Hnd & _).
  destruct (convert_datetimes_lookup dt_cols Hnd
              (list_to_map
                 (map (fun f =>
                         (f.1, single_field_value (default PNone (d !! key))
                                                  d f))
                      sfields))) as (values' & -> & Hl).
  cbn [res_bind]. rewrite Hcols. f_equal.
  apply map_ext. intros col. apply single_argument_spec, Hl.
Qed.

(** Where the two paths send the same for a column. *)
Lemma single_argument_alike (d : gmap string PyVal) (col : string) :
  alike jsonb_cols sfields (PDict d) = true ->
  single_argument key fields jsonb_cols sfields d col =
    argument jsonb_cols (typed_record key fields d) col.
Proof.
  intros Halike. unfold alike in Halike. rewrite forallb_forall in Halike.
  unfold single_argument. cbv zeta.
  destruct (bool_decide (col ∈ jsonb_cols)) eqn:Hj.
  - apply bool_decide_eq_true_1 in Hj.
    assert (Hcol := Halike col ltac:(apply list_elem_of_In; exact Hj)).
    cbv zeta in Hcol.
    unfold argument.
    rewrite (typed_record_lookup key fields jsonb_cols col_names Hok
               d col Plain (jsonb_plain col Hj)).
    rewrite (bool_decide_eq_true_2 (col ∈ jsonb_cols)) by exact Hj.
    unfold field_value. cbn [fst snd default andb].
    destruct (bool_decide ((col, Dumps) ∈ sfields)).
    + unfold dumped.
      destruct (default PNone (d !! col)); try reflexivity; discriminate.
    + destruct (default PNone (d !! col)); try reflexivity; discriminate.
  - rewrite bool_decide_eq_false_2; [reflexivity |].
    intros Hd. apply bool_decide_eq_false_1 in Hj.
    exact (Hj (dumps_jsonb col Hd)).
Qed.

(** A storable record whose JSONB values are alike has its [json.dumps]
    entries accepted. *)
Lemma storable_dumps_accepted (d : gmap string PyVal) :
  truthy (default PNone (d !! key)) = true ->
  storable key fields jsonb_cols col_names (PDict d) = true ->
  alike jsonb_cols sfields (PDict d) = true ->
  dumps_accepted sfields d = true.
Proof.
  intros Hkey Hst Halike. unfold storable in Hst. rewrite Hkey in Hst.
  destruct (default PNone (d !! key)); try discriminate.
  apply andb_true_iff in Hst as [Hst _].
  rewrite forallb_forall in Hst.
  unfold alike in Halike. rewrite forallb_forall in Halike.
  unfold dumps_accepted. apply forallb_forall. intros [col sc] Hin.
  apply list_elem_of_In in Hin. cbn [fst snd].
  destruct sc as [c |]; [reflexivity |].
  pose proof (dumps_jsonb col Hin) as Hj.
  apply list_elem_of_In in Hj.
  pose proof (Hst col Hj) as Hs. pose proof (Halike col Hj) as Ha.
  cbv zeta in Ha. apply list_elem_of_In in Hj.
  rewrite bool_decide_eq_true_2 in Ha by exact Hin.
  destruct (default PNone (d !! col)); try reflexivity; try discriminate;
    simpl in Hs |- *; destruct (json_dumps _); try reflexivity;
    discriminate.
Qed.

Variables (get : World -> gmap string Row)
          (set : gmap string Row -> World -> World).

(** A single-record upsert does what the batch upsert of the one record
    does. *)
Lemma single_upsert_batch (raw : PyVal) (w : World) :
  storable key fields jsonb_cols col_names raw = true ->
  alike jsonb_cols sfields raw = true ->
  single_upsert key sfields dt_cols cols get set raw w =
    (Ret tt,
     (batch_upsert key fields jsonb_cols col_names get set [raw] w).2) /\
  (batch_upsert key fields jsonb_cols col_names get set [raw] w).1 =
    Ret (if keyed key raw then 1 else 0)%Z.
Proof.
  intros Hst Halike.
  destruct raw as [| | | | | | d | |]; try discriminate.
  unfold single_upsert, bind, lift. cbn [dict_get fst snd].
  destruct (truthy (default PNone (d !! key))) eqn:Hkey; cbn [negb].
  - destruct (storable_key_of key fields jsonb_cols col_names d Hst Hkey)
      as [k Hk].
    rewrite (batch_upsert_single key fields jsonb_cols col_names Hok
               get set d k w Hk Hst).
    cbn [fst snd]. rewrite (key_of_keyed key _ k Hk).
    split; [| reflexivity].
    rewrite (single_arguments_spec d
               (storable_dumps_accepted d Hkey Hst Halike)).
    rewrite (map_ext _ _ (fun col => single_argument_alike d col Halike)).
    unfold transaction.
    destruct Hsingle as (-> & _).
    rewrite (execute_upsert_storable key fields jsonb_cols col_names Hok
               d k _ _ Hk Hst).
    reflexivity.
  - rewrite (batch_upsert_storable key fields jsonb_cols col_names Hok
               get set [PDict d] w)
      by (constructor; [exact Hst | constructor]).
    rewrite filter_cons, decide_False
      by (simpl; rewrite Hkey; exact id).
    rewrite filter_nil. cbn [fst snd keyed]. rewrite Hkey.
    split; reflexivity.
Qed.

End SingleFacts.

(** X21.  A single-record upsert is the batch upsert of the one record.
    For a record the batch path can store or drop, whose JSONB values are
    ones both paths treat alike ([None] or a [str]; for [custom_strike],
    which [upsert_market] passes through [json.dumps], anything but a
    [str]), [upsert_market(raw)] returns and leaves the world
    [batch_upsert_markets([raw])] leaves: the same row with the same
    timestamps, or nothing when the key is missing; likewise
    [upsert_event] and [batch_upsert_events].  The batch reports 1 or 0. *)
Theorem single_upsert_as_batch `{PyRuntime} (r : Resource) (raw : PyVal)
    (w : World) :
  storable_in r raw = true ->
  sent_alike r raw = true ->
  upsert r raw w = (Ret tt, (sink_of r [raw] w).2) /\
  (sink_of r [raw] w).1 = Ret (if keyed (key_name r) raw then 1 else 0)%Z.
Proof.
  destruct r.
  - exact (single_upsert_batch "ticker" market_fields market_jsonb_cols
             market_col_names market_table_ok upsert_market_values
             upsert_market_dt_cols upsert_market_cols market_single_ok
             markets set_markets raw w).
  - exact (single_upsert_batch "event_ticker" event_fields event_jsonb_cols
             event_col_names event_table_ok upsert_event_values
             [] upsert_event_cols event_single_ok
             events set_events raw w).
Qed.

(** X22.  What the single-record upserts send, column by column.  When
    [json.dumps] accepts what the record holds for [custom_strike], the
    arguments of the statement are computed, one per column of the INSERT,
    and: the column the literal passes through [json.dumps]
    ([custom_strike]) gets the dump of the raw value, a [str] included,
    which is so encoded a second time; the other JSONB columns
    ([price_ranges], [mve_selected_legs], [product_metadata],
    [milestones]) get the raw value as it is, a dict or list included,
    without serialization; every other column gets what the batch upsert
    sends for it. *)
Theorem single_upsert_arguments `{PyRuntime} (r : Resource)
    (d : gmap string PyVal) :
  dumps_accepted (single_values_of r) d = true ->
  exists vals,
    upsert_arguments r (default PNone (d !! key_name r)) (PDict d) =
      Ret vals /\
    length vals = length (single_cols_of r) /\
    forall col, col ∈ single_cols_of r ->
      let sent :=
        (list_to_map (zip (single_cols_of r) vals) : gmap string PyVal)
          !! col in
      let v := default PNone (d !! col) in
      ((col, Dumps) ∈ single_values_of r -> sent = Some (dumped v)) /\
      ((col, Dumps) ∉ single_values_of r -> col ∈ jsonb_cols_of r ->
       sent = Some v) /\
      (col ∉ jsonb_cols_of r ->
       sent = excluded_row (key_name r) (fields_of r) (jsonb_cols_of r)
                           (col_names_of r) d !! col).
Proof.
  intros Hacc.
  assert (Hargs :
    upsert_arguments r (default PNone (d !! key_name r)) (PDict d) =
      Ret (map (single_argument_in r d) (col_names_of r)) /\
    single_cols_of r = col_names_of r /\
    forall col, (col, Dumps) ∈ single_values_of r -> col ∈ jsonb_cols_of r).
  { destruct r; (split; [| split; [reflexivity |]]).
    - exact (single_arguments_spec "ticker" market_fields market_jsonb_cols
               market_col_names market_table_ok upsert_market_values
               upsert_market_dt_cols upsert_market_cols market_single_ok
               d Hacc).
    - exact (dumps_jsonb market_fields market_jsonb_cols market_col_names
               upsert_market_values upsert_market_dt_cols upsert_market_cols
               market_single_ok).
    - exact (single_arguments_spec "event_ticker" event_fields
               event_jsonb_cols event_col_names event_table_ok
               upsert_event_values [] upsert_event_cols event_single_ok
               d Hacc).
    - exact (dumps_jsonb event_fields event_jsonb_cols event_col_names
               upsert_event_values [] upsert_event_cols event_single_ok). }
  destruct Hargs as (Hargs & Hcols & Hdumps).
  exists (map (single_argument_in r d) (col_names_of r)).
  split; [exact Hargs |]. rewrite Hcols.
  split; [apply length_map |].
  intros col Hin sent v. unfold sent.
  rewrite (zip_map_lookup _ _ _ Hin).
  unfold single_argument_in, single_argument. fold v.
  split; [| split].
  - intros Hd. rewrite bool_decide_eq_true_2 by exact Hd. reflexivity.
  - intros Hd Hj. rewrite bool_decide_eq_false_2 by exact Hd.
    rewrite bool_decide_eq_true_2 by exact Hj. reflexivity.
  - intros Hj.
    rewrite (bool_decide_eq_false_2 ((col, Dumps) ∈ single_values_of r))
      by (intros Hd; exact (Hj (Hdumps col Hd))).
    rewrite bool_decide_eq_false_2 by exact Hj.
    unfold excluded_row. rewrite (zip_map_lookup _ _ _ Hin). reflexivity.
Qed.

Section SingleExamples.
#[local] Existing Instance ExampleRuntime.runtime.

(** The market of the upsert test, stored by either path. *)
Lemma single_upsert_as_batch_witness :
  let w := example_world [] in
  upsert_market (PDict market_original) w =
    (Ret tt, (batch_upsert_markets [PDict market_original] w).2) /\
  (batch_upsert_markets [PDict market_original] w).1 = Ret 1%Z.
Proof.
  intros w.
  exact (@single_upsert_as_batch ExampleRuntime.runtime Markets
           (PDict market_original) w
           ltac:(vm_compute; reflexivity) ltac:(vm_compute; reflexivity)).
Defined.

(** A market with an empty list as [price_ranges] and as [custom_strike]:
    the second one is sent as JSON text, the first one as the list. *)
Lemma single_upsert_arguments_witness :
  exists vals,
    upsert_market_arguments (PStr "TEST-UPSERT-002")
                            (PDict market_structured) = Ret vals /\
    (list_to_map (zip upsert_market_cols vals) : gmap string PyVal)
      !! "custom_strike" = Some (PStr "[]") /\
    (list_to_map (zip upsert_market_cols vals) : gmap string PyVal)
      !! "price_ranges" = Some (PList []).
Proof.
  destruct (@single_upsert_arguments ExampleRuntime.runtime Markets
              market_structured
              ltac:(vm_compute; reflexivity)) as (vals & Hargs & _ & Hcol).
  exists vals. split; [exact Hargs |]. split.
  - exact (proj1 (Hcol "custom_strike"
                    ltac:(apply (bool_decide_unpack _); vm_compute;
                          reflexivity))
                 ltac:(apply (bool_decide_unpack _); vm_compute;
                       reflexivity)).
  - exact (proj1 (proj2 (Hcol "price_ranges"
                           ltac:(apply (bool_decide_unpack _); vm_compute;
                                 reflexivity)))
                 ltac:(apply (bool_decide_unpack _); vm_compute;
                       reflexivity)
                 ltac:(apply (bool_decide_unpack _); vm_compute;
                       reflexivity)).
Defined.

End SingleExamples.

(* --------------------------------------------------------------------- *)
(** ** The schema                                                         *)
(* --------------------------------------------------------------------- *)

Lemma ddl_fits (r : Resource) : fits r (ddl_of r).
Proof.
  destruct r; (split; [vm_compute; reflexivity |]);
    (split; [vm_compute; reflexivity |]);
    (split; [vm_compute; reflexivity |]);
    (split; [vm_compute; reflexivity |]);
    apply (bool_decide_unpack _); vm_compute; reflexivity.
Qed.

Section SchemaFacts.

Lemma create_table_spec (name : string) (cols : list Column) (s : Schema) :
  let s1 := create_table_if_not_exists name cols s in
  schema_indexes s1 = schema_indexes s /\
  schema_tables s1 !! name = Some (default cols (schema_tables s !! name)) /\
  (forall n, n ≠ name -> schema_tables s1 !! n = schema_tables s !! n).
Proof.
  unfold create_table_if_not_exists.
  destruct (schema_tables s !! name) as [old |] eqn:Hold; cbn.
  - auto.
  - split; [reflexivity |]. split.
    + apply lookup_insert_eq.
    + intros n Hne. apply lookup_insert_ne. congruence.
Qed.

Lemma create_table_keeps (name : string) (cols : list Column) (s : Schema)
    (n : string) (c : list Column) :
  schema_tables s !! n = Some c ->
  schema_tables (create_table_if_not_exists name cols s) !! n = Some c.
Proof.
  intros Hn.
  destruct (create_table_spec name cols s) as (_ & Hname & Hother).
  destruct (decide (n = name)) as [-> | Hne].
  - rewrite Hname, Hn. reflexivity.
  - rewrite (Hother n Hne). exact Hn.
Qed.

Lemma create_table_exists (name : string) (cols : list Column) (s : Schema) :
  is_Some (schema_tables s !! name) ->
  create_table_if_not_exists name cols s = s.
Proof.
  intros [old Hold]. unfold create_table_if_not_exists. rewrite Hold.
  reflexivity.
Qed.

Lemma create_index_spec (name tbl col : string) (s s' : Schema) :
  create_index_if_not_exists name tbl col s = Ret s' ->
  schema_tables s' = schema_tables s /\
  (forall n i, schema_indexes s !! n = Some i ->
               schema_indexes s' !! n = Some i) /\
  is_Some (schema_indexes s' !! name).
Proof.
  unfold create_index_if_not_exists.
  destruct (schema_indexes s !! name) as [old |] eqn:Hold.
  - intros [= <-]. rewrite Hold. eauto.
  - destruct (schema_tables s !! tbl) as [cols |]; [| discriminate].
    destruct (bool_decide (col ∈ map column_name cols)); [| discriminate].
    intros [= <-]. cbn. split; [reflexivity |]. split.
    + intros n i Hn. rewrite lookup_insert_ne; [exact Hn |].
      intros <-. congruence.
    + rewrite lookup_insert_eq. eauto.
Qed.

Lemma create_index_exists (name tbl col : string) (s : Schema) :
  is_Some (schema_indexes s !! name) ->
  create_index_if_not_exists name tbl col s = Ret s.
Proof.
  intros [old Hold]. unfold create_index_if_not_exists. rewrite Hold.
  reflexivity.
Qed.

(** On a database that has the tables and indexes, the statements change
    nothing. *)
Lemma create_tables_created (s : Schema) :
  created s -> create_tables s = Ret s.
Proof.
  intros (Hm & He & Hi1 & Hi2 & Hi3). unfold create_tables. cbv zeta.
  rewrite (create_table_exists "markets" _ s Hm).
  rewrite (create_table_exists "events" _ s He).
  rewrite (create_index_exists _ _ _ s Hi1). cbn [res_bind].
  rewrite (create_index_exists _ _ _ s Hi2). cbn [res_bind].
  apply (create_index_exists _ _ _ s Hi3).
Qed.

(** The steps of a run that returns. *)
Lemma create_tables_steps (s s' : Schema) :
  create_tables s = Ret s' ->
  let s2 := create_table_if_not_exists "events" events_columns
              (create_table_if_not_exists "markets" markets_columns s) in
  schema_tables s' = schema_tables s2 /\
  (forall n i, schema_indexes s !! n = Some i ->
               schema_indexes s' !! n = Some i) /\
  is_Some (schema_indexes s' !! "idx_markets_event_ticker") /\
  is_Some (schema_indexes s' !! "idx_markets_status") /\
  is_Some (schema_indexes s' !! "idx_events_series_ticker").
Proof.
  unfold create_tables. cbv zeta.
  set (s1 := create_table_if_not_exists "markets" markets_columns s).
  set (s2 := create_table_if_not_exists "events" events_columns s1).
  destruct (create_index_if_not_exists "idx_markets_event_ticker" _ _ s2)
    as [s3 | |] eqn:H3; try discriminate.
  cbn [res_bind].
  destruct (create_index_if_not_exists "idx_markets_status" _ _ s3)
    as [s4 | |] eqn:H4; try discriminate.
  cbn [res_bind]. intros H5.
  destruct (create_index_spec _ _ _ _ _ H3) as (T3 & K3 & I3).
  destruct (create_index_spec _ _ _ _ _ H4) as (T4 & K4 & I4).
  destruct (create_index_spec _ _ _ _ _ H5) as (T5 & K5 & I5).
  assert (Hidx : schema_indexes s2 = schema_indexes s).
  { unfold s2.
    rewrite (proj1 (create_table_spec "events" events_columns s1)).
    unfold s1.
    exact (proj1 (create_table_spec "markets" markets_columns s)). }
  split; [congruence |]. split.
  - intros n i Hn. apply K5, K4, K3. rewrite Hidx. exact Hn.
  - destruct I3 as [i3 I3], I4 as [i4 I4].
    split; [exists i3; apply K5, K4, I3 |].
    split; [exists i4; apply K5, I4 | exact I5].
Qed.

End SchemaFacts.

(** X23.  The tables [create_tables] creates are the ones the upserts
    write.  When [create_tables] returns on a database that did not have
    the table of a resource, the table it has created has: the columns of
    the INSERT of the upserts, in the same order, followed by [created_at]
    and [updated_at], TIMESTAMPTZ columns that default to [now()] and the
    only ones with a default; the conflict key of the upserts as its one
    PRIMARY KEY; as JSONB columns exactly the ones the batch upsert
    serializes; and for every entry of the [rec] literal a column whose
    type takes the entry's conversion ([_as_int] for INTEGER and BIGINT,
    [_as_decimal] for NUMERIC, [_as_datetime] for TIMESTAMPTZ, none for
    TEXT and BOOLEAN). *)
Theorem created_tables_fit_upserts (r : Resource) (s s' : Schema) :
  create_tables s = Ret s' ->
  schema_tables s !! resource_name r = None ->
  exists cols,
    schema_tables s' !! resource_name r = Some cols /\ fits r cols.
Proof.
  intros Hrun Hnone.
  destruct (create_tables_steps s s' Hrun) as (Ht & _).
  exists (ddl_of r). split; [| apply ddl_fits].
  rewrite Ht.
  destruct (create_table_spec "markets" markets_columns s)
    as (_ & Hm1 & Ho1).
  destruct (create_table_spec "events" events_columns
              (create_table_if_not_exists "markets" markets_columns s))
    as (_ & He2 & Ho2).
  destruct r; cbn [resource_name ddl_of] in *.
  - rewrite Ho2 by discriminate. rewrite Hm1, Hnone. reflexivity.
  - rewrite He2. rewrite Ho1 by discriminate. rewrite Hnone. reflexivity.
Qed.

(** X24.  [create_tables] only adds.  When it returns, every table and
    every index the database had is still there as it was (a table of an
    older shape is not altered), the two tables and the three indexes
    exist, and a second call returns without changing anything. *)
Theorem create_tables_only_adds (s s' : Schema) :
  create_tables s = Ret s' ->
  (forall name cols, schema_tables s !! name = Some cols ->
                     schema_tables s' !! name = Some cols) /\
  (forall name i, schema_indexes s !! name = Some i ->
                  schema_indexes s' !! name = Some i) /\
  created s' /\
  create_tables s' = Ret s'.
Proof.
  intros Hrun.
  destruct (create_tables_steps s s' Hrun) as (Ht & Hk & I1 & I2 & I3).
  assert (Hcreated : created s').
  { unfold created. rewrite Ht. split; [| split; [| auto]].
    - eexists. apply create_table_keeps.
      exact (proj1 (proj2 (create_table_spec "markets" markets_columns s))).
    - eexists.
      exact (proj1 (proj2 (create_table_spec "events" events_columns _))). }
  split; [| split; [exact Hk |]].
  - intros name cols Hn. rewrite Ht.
    apply create_table_keeps, create_table_keeps, Hn.
  - split; [exact Hcreated | apply create_tables_created, Hcreated].
Qed.

(** A database without tables: both are created as the DDL has them. *)
Lemma created_tables_fit_upserts_witness :
  create_tables no_schema =
    Ret (mkSchema
           (<[ "events" := events_columns ]>
              (<[ "markets" := markets_columns ]> ∅))
           (<[ "idx_events_series_ticker" := ("events", "series_ticker") ]>
              (<[ "idx_markets_status" := ("markets", "status") ]>
                 (<[ "idx_markets_event_ticker" :=
                       ("markets", "event_ticker") ]> ∅)))) /\
  fits Markets markets_columns.
Proof.
  assert (Hrun : create_tables no_schema =
    Ret (mkSchema
           (<[ "events" := events_columns ]>
              (<[ "markets" := markets_columns ]> ∅))
           (<[ "idx_events_series_ticker" := ("events", "series_ticker") ]>
              (<[ "idx_markets_status" := ("markets", "status") ]>
                 (<[ "idx_markets_event_ticker" :=
                       ("markets", "event_ticker") ]> ∅)))))
    by (vm_compute; reflexivity).
  split; [exact Hrun |].
  destruct (created_tables_fit_upserts Markets _ _ Hrun eq_refl)
    as (cols & Hcols & Hfits).
  vm_compute in Hcols. injection Hcols as <-. exact Hfits.
Defined.

(** A database with an [events] table of two columns: the table is kept
    as it is, and a second call changes nothing. *)
Lemma create_tables_only_adds_witness :
  exists s',
    create_tables older_schema = Ret s' /\
    schema_tables s' !! "events" = schema_tables older_schema !! "events" /\
    is_Some (schema_tables s' !! "markets") /\
    create_tables s' = Ret s'.
Proof.
  assert (Hrun : exists s', create_tables older_schema = Ret s')
    by (vm_compute; eexists; reflexivity).
  destruct Hrun as [s' Hrun]. exists s'.
  destruct (create_tables_only_adds older_schema s' Hrun)
    as (Ht & _ & Hcreated & Hagain).
  split; [exact Hrun |]. split; [exact (Ht "events" _ eq_refl) |].
  split; [exact (proj1 Hcreated) | exact Hagain].
Defined.
